(** * codeEditor: the SSH worker, the terminal writer and the editor widget

    A shallow embedding of the parts of [main.py], [terminal.py] and
    [editor.py] that the specification speaks about:

    - [Py]       : Python values as the code uses them (text as a list of
                   code points, bytes as a list of octets, exceptions);
    - [Utf8]     : the codec at the SFTP boundary ([str] written to a remote
                   file is stored as UTF-8, [read_file] decodes with
                   [errors="ignore"]);
    - [Worker]   : the command loop of [ssh_worker] over an abstract remote
                   host (paramiko is an external collaborator), with
                   [MemRemote], an in-memory host to run it on;
    - [Re]       : the fragment of Python's backtracking [re] engine that the
                   patterns of [write_ansi] need ([sub], [split], [findall]);
    - [Terminal] : [SSHTerminal.map_tag] and [SSHTerminal.write_ansi];
    - [Tk], [Editor], [App] : [CodeEditor.set_text] / [get_text] over a
                   model of the Tk text widget, and the open/save cycle of
                   [SSHClientApp].

    The properties follow the definitions. *)

From Stdlib Require Import NArith ZArith Lia String Ascii List Bool.
From Stdlib Require Import DecimalString HexadecimalString.
From stdpp Require Import base option list strings gmap.

Import ListNotations.
Local Open Scope N_scope.

(* ------------------------------------------------------------------ *)
(** ** Python values *)

Module Py.

(** A Python [str] is a sequence of Unicode code points; [bytes] is a
    sequence of octets.  Both are lists of [N]. *)
Definition str := list N.
Definition bytes := list N.

(** ASCII literals of the source, written as Rocq strings. *)
Definition lit (s : string) : str :=
  map N_of_ascii (list_ascii_of_string s).

(** Numbers as [str(e)] prints them: decimal, and lower-case hexadecimal
    padded with zeros to a width. *)
Definition decimal (n : nat) : str :=
  lit (DecimalString.NilZero.string_of_uint (Nat.to_uint n)).

Definition hexadecimal (width : nat) (c : N) : str :=
  let digits :=
    lit (HexadecimalString.NilZero.string_of_uint (N.to_hex_uint c)) in
  repeat 48 (width - length digits) ++ digits.

(** The escape [UnicodeEncodeError.__str__] writes for a character. *)
Definition escape (c : N) : str :=
  if c <=? 0xFF then lit "\x" ++ hexadecimal 2 c
  else if c <=? 0xFFFF then lit "\u" ++ hexadecimal 4 c
  else lit "\U" ++ hexadecimal 8 c.

(** Exceptions the modelled code can meet.  [str(e)] is what
    [{"error": str(e)}] carries.  A [TypeError] carries its text, which
    the place that raises it provides; a [UnicodeEncodeError] of the UTF-8
    codec carries the text it was given and the range [start, stop) it
    rejects. *)
Inductive exn :=
| KeyError (key : string)
| AttributeError (msg : string)
| TypeError (msg : str)
| IndexError
| ZeroDivisionError
| UnicodeEncodeError (object : str) (start stop : nat)
| IOError (msg : str).

Definition str_of_exn (e : exn) : str :=
  match e with
  | KeyError k => lit "'" ++ lit k ++ lit "'"
  | AttributeError m => lit m
  | TypeError m => m
  | IndexError => lit "list index out of range"
  | ZeroDivisionError => lit "division by zero"
  | UnicodeEncodeError object start stop =>
      lit "'utf-8' codec can't encode "
      ++ (if Nat.eqb stop (S start)
          then lit "character '" ++ escape (nth start object 0)
               ++ lit "' in position " ++ decimal start
          else lit "characters in position " ++ decimal start
               ++ lit "-" ++ decimal (stop - 1))
      ++ lit ": surrogates not allowed"
  | IOError m => m
  end.

(** Fallible computations: [inl e] is a raised exception. *)
Definition result (A : Type) := sum exn A.
Definition ret {A} (a : A) : result A := inr a.
Definition raise {A} (e : exn) : result A := inl e.
Definition bind {A B} (m : result A) (f : A -> result B) : result B :=
  match m with inl e => inl e | inr a => f a end.

Arguments lit : simpl never.

End Py.

Notation "'do' x <- m ; k" := (Py.bind m (fun x => k))
  (at level 10, x pattern, m at level 100, k at level 200).

(* ------------------------------------------------------------------ *)
(** ** UTF-8 at the SFTP boundary *)

Module Utf8.
Import Py.

Definition is_surrogate (c : N) : bool := (0xD800 <=? c) && (c <=? 0xDFFF).

(** The UTF-8 form of one code point; there is none for a surrogate.  A
    Python [str] holds no number from 0x110000 on, and the model has no
    form for those either. *)
Definition encode_cp (c : N) : option bytes :=
  if c <? 0x80 then Some [c]
  else if c <? 0x800 then Some [0xC0 + c / 64; 0x80 + c mod 64]
  else if c <? 0x10000 then
    if is_surrogate c then None
    else Some [0xE0 + c / 4096; 0x80 + (c / 64) mod 64; 0x80 + c mod 64]
  else if c <? 0x110000 then
    Some [0xF0 + c / 262144; 0x80 + (c / 4096) mod 64;
          0x80 + (c / 64) mod 64; 0x80 + c mod 64]
  else None.

(** The surrogates at the start of [s]. *)
Fixpoint surrogate_run (s : str) : nat :=
  match s with
  | c :: s' => if is_surrogate c then S (surrogate_run s') else 0
  | [] => 0
  end.

(** Encoding [s], the part of [object] from position [pos] on.  At a code
    point without a form the codec raises, reporting it together with the
    surrogates that follow it. *)
Fixpoint encode_from (object : str) (pos : nat) (s : str) : result bytes :=
  match s with
  | [] => ret []
  | c :: s' =>
      match encode_cp c with
      | Some b =>
          do bs <- encode_from object (S pos) s';
          ret (b ++ bs)
      | None =>
          raise (UnicodeEncodeError object pos
                   (S pos + surrogate_run s'))
      end
  end.

(** [s.encode("utf-8")] *)
Definition encode (s : str) : result bytes := encode_from s 0 s.

Definition is_cont (b : N) : bool := (0x80 <=? b) && (b <=? 0xBF).

(** Admissible second octet after lead [b0] (three- and four-octet forms):
    excludes overlong forms, surrogates and values above U+10FFFF. *)
Definition second_ok (b0 b1 : N) : bool :=
  if b0 =? 0xE0 then (0xA0 <=? b1) && (b1 <=? 0xBF)
  else if b0 =? 0xED then (0x80 <=? b1) && (b1 <=? 0x9F)
  else if b0 =? 0xF0 then (0x90 <=? b1) && (b1 <=? 0xBF)
  else if b0 =? 0xF4 then (0x80 <=? b1) && (b1 <=? 0x8F)
  else is_cont b1.

(** [bytes.decode("utf-8", errors="ignore")]: an ill-formed sequence is
    dropped up to (not including) the first octet that cannot continue it,
    and decoding resumes there. *)
Fixpoint decode_ignore (bs : bytes) : str :=
  match bs with
  | [] => []
  | b0 :: r0 =>
    if b0 <? 0x80 then b0 :: decode_ignore r0
    else if (0xC2 <=? b0) && (b0 <=? 0xDF) then
      match r0 with
      | b1 :: r1 =>
        if is_cont b1
        then ((b0 - 0xC0) * 64 + (b1 - 0x80)) :: decode_ignore r1
        else decode_ignore r0
      | [] => []
      end
    else if (0xE0 <=? b0) && (b0 <=? 0xEF) then
      match r0 with
      | b1 :: r1 =>
        if second_ok b0 b1 then
          match r1 with
          | b2 :: r2 =>
            if is_cont b2
            then ((b0 - 0xE0) * 4096 + (b1 - 0x80) * 64 + (b2 - 0x80))
                   :: decode_ignore r2
            else decode_ignore r1
          | [] => []
          end
        else decode_ignore r0
      | [] => []
      end
    else if (0xF0 <=? b0) && (b0 <=? 0xF4) then
      match r0 with
      | b1 :: r1 =>
        if second_ok b0 b1 then
          match r1 with
          | b2 :: r2 =>
            if is_cont b2 then
              match r2 with
              | b3 :: r3 =>
                if is_cont b3
                then ((b0 - 0xF0) * 262144 + (b1 - 0x80) * 4096
                      + (b2 - 0x80) * 64 + (b3 - 0x80)) :: decode_ignore r3
                else decode_ignore r2
              | [] => []
              end
            else decode_ignore r1
          | [] => []
          end
        else decode_ignore r0
      | [] => []
      end
    else decode_ignore r0
  end.

End Utf8.

(* ------------------------------------------------------------------ *)
(** ** The SSH worker ([ssh_worker] in main.py) *)

Module Worker.
Import Py.

(** Values found in a request dictionary: text, or a dictionary of text
    fields (the host descriptor). *)
Inductive value :=
| VStr (s : str)
| VDict (d : gmap string str).

Abbreviation message := (gmap string value).

(** What [conn.send] is given. *)
Inductive response :=
| RDict (key : string) (v : str)
| RList (items : list (str * str))
| RStr (s : str)
| RBytes (b : bytes).

(** One accepted connection: what [recv] will yield, whether the peer still
    listens, what has been sent so far, and whether [close] was called. *)
Record conn := Conn {
  inbox : result message;
  peer_open : bool;
  sent : list response;
  closed : bool
}.

Definition fresh_conn (msg : message) : conn :=
  Conn (inr msg) true [] false.

(** [paramiko.SFTPAttributes]: [st_mode] may be absent. *)
Record SFTPAttributes := Attr {
  filename : str;
  st_mode : option N
}.

Inductive open_mode := ModeR | ModeW.

(** Requests of the wrong shape that end in a [TypeError]: a host
    descriptor that is text and is indexed by a key, and a dictionary
    handed to the operation [site] where text is expected. *)
Inductive misuse :=
| IndexedText (host : str) (key : string)
| NotText (site : string) (v : gmap string str).

(** The worker's environment.  The remote host as paramiko presents it:
    every operation may change the remote side and may raise.  And
    [wording], the text of the [TypeError] that a misuse ends in: Python
    and paramiko word it differently from one version to the next. *)
Record Remote := {
  world : Type;
  client : Type;
  sftp_client : Type;
  channel : Type;
  sftp_file : Type;
  SSHClient : world -> world * client;
  ssh_connect : client -> str -> str -> str -> world -> world * result unit;
  open_sftp : client -> world -> world * result sftp_client;
  invoke_shell : client -> world -> world * result channel;
  settimeout : channel -> world -> world * result unit;
  listdir_attr : sftp_client -> str -> world ->
                 world * result (list SFTPAttributes);
  sftp_open : sftp_client -> str -> open_mode -> world ->
              world * result sftp_file;
  file_read : sftp_file -> world -> world * result bytes;
  file_write : sftp_file -> bytes -> world -> world * result unit;
  file_close : sftp_file -> world -> world * result unit;
  chan_send : channel -> str -> world -> world * result unit;
  chan_drain : channel -> world -> world * result bytes;
  wording : misuse -> str
}.

Section Loop.
Context (R : Remote).

(** The three module-level handles of the worker, [None] until a
    [connect] succeeds far enough to assign them. *)
Record handles := Handles {
  ssh : option (client R);
  sftp : option (sftp_client R);
  shell : option (channel R)
}.

Definition no_handles : handles := Handles None None None.

Record state := State {
  remote : world R;
  hs : handles;
  cn : conn
}.

(** State and exceptions. *)
Definition M (A : Type) : Type := state -> state * result A.

Definition mret {A} (a : A) : M A := fun s => (s, inr a).
Definition mraise {A} (e : exn) : M A := fun s => (s, inl e).
Definition mbind {A B} (m : M A) (f : A -> M B) : M B :=
  fun s => match m s with
           | (s', inl e) => (s', inl e)
           | (s', inr a) => f a s'
           end.
Definition lift {A} (r : result A) : M A := fun s => (s, r).

(** [try: m except Exception as e: h e] *)
Definition catch {A} (m : M A) (h : exn -> M A) : M A :=
  fun s => match m s with
           | (s', inl e) => h e s'
           | (s', inr a) => (s', inr a)
           end.

(** [try: m finally: f]: [f] runs on every path; the exception of [m]
    is re-raised after it, unless [f] itself raises. *)
Definition finally {A} (m : M A) (f : M unit) : M A :=
  fun s => match m s with
           | (s', r) => match f s' with
                        | (s'', inl e) => (s'', inl e)
                        | (s'', inr _) => (s'', r)
                        end
           end.

Notation "'mlet' x <- m ; k" := (mbind m (fun x => k))
  (at level 10, x pattern, m at level 100, k at level 200).
Notation "'exec' m ; k" := (mbind m (fun _ => k))
  (at level 10, m at level 100, k at level 200).

(** An operation of the remote host, run on the worker's view of it. *)
Definition io {A} (op : world R -> world R * result A) : M A :=
  fun s => let '(w', r) := op (remote s) in
           (State w' (hs s) (cn s), r).

Definition get_handles : M handles := fun s => (s, inr (hs s)).
Definition set_handles (h : handles) : M unit :=
  fun s => (State (remote s) h (cn s), inr tt).

(** [conn.recv()], [conn.send(r)], [conn.close()]. *)
Definition conn_recv : M message := fun s => (s, inbox (cn s)).

Definition conn_send (r : response) : M unit :=
  fun s =>
    let c := cn s in
    if peer_open c
    then (State (remote s) (hs s)
                (Conn (inbox c) (peer_open c) (sent c ++ [r]) (closed c)),
          inr tt)
    else (s, inl (IOError (lit "[Errno 32] Broken pipe"))).

Definition conn_close : M unit :=
  fun s =>
    let c := cn s in
    (State (remote s) (hs s) (Conn (inbox c) (peer_open c) (sent c) true),
     inr tt).

(** [d[key]] on a request dictionary and on a host descriptor. *)
Definition getitem (d : message) (key : string) : result value :=
  match d !! key with
  | Some v => inr v
  | None => inl (KeyError key)
  end.

Definition host_field (host : value) (key : string) : result str :=
  match host with
  | VDict d => match d !! key with
               | Some v => inr v
               | None => inl (KeyError key)
               end
  | VStr s => inl (TypeError (wording R (IndexedText s key)))
  end.

(** An attribute access on a handle that is still [None]. *)
Definition handle {A} (o : option A) (attr : string) : result A :=
  match o with
  | Some x => inr x
  | None => inl (AttributeError
                   ("'NoneType' object has no attribute '" +:+ attr +:+ "'"))
  end.

(** A value used as text by the operation [site]: a path or data given
    to paramiko, or the operand of [+ "\n"]. *)
Definition as_text (site : string) (v : value) : result str :=
  match v with
  | VStr s => inr s
  | VDict d => inl (TypeError (wording R (NotText site d)))
  end.

Definition is_cmd (cmd : value) (name : string) : bool :=
  match cmd with
  | VStr s => bool_decide (s = lit name)
  | VDict _ => false
  end.

(** [stat.S_ISDIR(mode)]: [(mode & 0o170000) == 0o040000]. *)
Definition S_ISDIR (mode : option N) : result bool :=
  match mode with
  | Some m => inr (N.land m 61440 =? 16384)
  | None => inl (TypeError (lit "an integer is required"))
  end.

Definition folder_icon : str := [0x1F4C1].
Definition file_icon : str := [0x1F4C4].

(** [path not in (".", "/", "")] *)
Definition is_root_indicator (path : str) : bool :=
  bool_decide (path = lit ".") || bool_decide (path = lit "/")
  || bool_decide (path = []).

(** The [for item in items] loop of the [listdir] branch, appending to
    [result]. *)
Fixpoint listing (items : list SFTPAttributes) (acc : list (str * str))
  : result (list (str * str)) :=
  match items with
  | [] => inr acc
  | item :: rest =>
      do d <- S_ISDIR (st_mode item);
      listing rest (acc ++ [(if d then folder_icon else file_icon,
                             filename item)])
  end.

(** [with sftp.open(path, mode) as f: body f] *)
Definition with_open {A} (h : sftp_client R) (path : str) (mode : open_mode)
  (body : sftp_file R -> M A) : M A :=
  mlet f <- io (sftp_open R h path mode) ;
  finally (body f) (io (file_close R f)).

(** [bytes.strip()]: ASCII whitespace off both ends. *)
Definition is_bytes_space (b : N) : bool :=
  (b =? 32) || ((9 <=? b) && (b <=? 13)).

Fixpoint lstrip (b : bytes) : bytes :=
  match b with
  | x :: b' => if is_bytes_space x then lstrip b' else b
  | [] => []
  end.

Definition strip (b : bytes) : bytes := rev (lstrip (rev (lstrip b))).

Definition cmd_connect (msg : message) : M unit :=
  mlet host <- lift (getitem msg "host") ;
  mlet c <- io (fun w => let '(w', c) := SSHClient R w in (w', inr c)) ;
  mlet h <- get_handles ;
  exec set_handles (Handles (Some c) (sftp h) (shell h)) ;
  mlet ip <- lift (host_field host "ip") ;
  mlet username <- lift (host_field host "username") ;
  mlet password <- lift (host_field host "password") ;
  exec io (ssh_connect R c ip username password) ;
  mlet sf <- io (open_sftp R c) ;
  mlet h <- get_handles ;
  exec set_handles (Handles (ssh h) (Some sf) (shell h)) ;
  mlet sh <- io (invoke_shell R c) ;
  mlet h <- get_handles ;
  exec set_handles (Handles (ssh h) (sftp h) (Some sh)) ;
  exec io (settimeout R sh) ;
  conn_send (RDict "status" (lit "connected")).

Definition cmd_listdir (msg : message) : M unit :=
  mlet pathv <- lift (getitem msg "path") ;
  mlet h <- get_handles ;
  mlet sf <- lift (handle (sftp h) "listdir_attr") ;
  mlet path <- lift (as_text "listdir_attr" pathv) ;
  mlet items <- io (listdir_attr R sf path) ;
  mlet result <- lift (listing items
                   (if is_root_indicator path then []
                    else [(folder_icon, lit "..")])) ;
  conn_send (RList result).

Definition cmd_read_file (msg : message) : M unit :=
  mlet pathv <- lift (getitem msg "path") ;
  mlet h <- get_handles ;
  mlet sf <- lift (handle (sftp h) "open") ;
  mlet path <- lift (as_text "open" pathv) ;
  mlet content <- with_open sf path ModeR (fun f =>
               mlet raw <- io (file_read R f) ;
               mret (Utf8.decode_ignore raw)) ;
  conn_send (RStr content).

(** [f.write(data)]: paramiko stores text as its UTF-8 encoding. *)
Definition cmd_write_file (msg : message) : M unit :=
  mlet pathv <- lift (getitem msg "path") ;
  mlet data <- lift (getitem msg "data") ;
  mlet h <- get_handles ;
  mlet sf <- lift (handle (sftp h) "open") ;
  mlet path <- lift (as_text "open" pathv) ;
  exec with_open sf path ModeW (fun f =>
    mlet text <- lift (as_text "write" data) ;
    mlet raw <- lift (Utf8.encode text) ;
    io (file_write R f raw)) ;
  conn_send (RStr (lit "ok")).

(** The polling loop [while shell.recv_ready(): output += shell.recv(4096)]
    is one operation of the remote interface ([chan_drain]): how long it
    runs is decided by the remote side. *)
Definition cmd_send_command (msg : message) : M unit :=
  mlet h <- get_handles ;
  mlet sh <- lift (handle (shell h) "send") ;
  mlet data <- lift (getitem msg "data") ;
  mlet line <- lift (as_text "+" data) ;
  exec io (chan_send R sh (line ++ [10])) ;
  mlet output <- io (chan_drain R sh) ;
  conn_send (RBytes (strip output)).

(** The body of the [try]. *)
Definition try_body : M unit :=
  mlet msg <- conn_recv ;
  mlet cmd <- lift (getitem msg "cmd") ;
  if is_cmd cmd "connect" then cmd_connect msg
  else if is_cmd cmd "listdir" then cmd_listdir msg
  else if is_cmd cmd "read_file" then cmd_read_file msg
  else if is_cmd cmd "write_file" then cmd_write_file msg
  else if is_cmd cmd "send_command" then cmd_send_command msg
  else mret tt.

(** One iteration of [while True]: the [try]/[except]/[finally] around an
    accepted connection.  [inl e] means [e] left the loop body, which ends
    the worker process. *)
Definition serve_one : M unit :=
  finally
    (catch try_body (fun e => conn_send (RDict "error" (str_of_exn e))))
    conn_close.

(** The worker run over the connections that [listener.accept()] yields,
    in order.  The result is the connections as the worker left them, the
    final remote side and handles, and whether the process is still in its
    loop. *)
Fixpoint worker_loop (accepts : list conn) (w : world R) (h : handles)
  : list conn * world R * handles * bool :=
  match accepts with
  | [] => ([], w, h, true)
  | c :: rest =>
      match serve_one (State w h c) with
      | (s', inr _) =>
          let '(cs, w', h', alive) := worker_loop rest (remote s') (hs s') in
          (cn s' :: cs, w', h', alive)
      | (s', inl _) => ([cn s'], remote s', hs s', false)
      end
  end.

(** [SSHClientApp.send_to_worker]: a fresh connection carrying [message];
    the reply is what the worker sent, or an error dictionary when the
    transport gave nothing. *)
Definition send_to_worker (w : world R) (h : handles) (msg : message)
  : world R * handles * response :=
  let '(s', _) := serve_one (State w h (fresh_conn msg)) in
  (remote s', hs s',
   match sent (cn s') with
   | r :: _ => r
   | [] => RDict "error" []
   end).

End Loop.

Arguments State {R}.
Arguments Handles {R}.
Arguments remote {R}.
Arguments hs {R}.
Arguments cn {R}.
Arguments ssh {R}.
Arguments sftp {R}.
Arguments shell {R}.

End Worker.

(* ------------------------------------------------------------------ *)
(** ** An in-memory remote host

    A small instance of [Worker.Remote] on which the worker can be run:
    files and directory listings are finite maps from paths, every handle
    is trivial, the shell echoes nothing. *)

Module MemRemote.
Import Py Worker.

Record mem_world := MemWorld {
  mfiles : gmap (list N) (list N);
  mdirs : gmap (list N) (list SFTPAttributes)
}.

Definition no_such_file : exn := IOError (lit "[Errno 2] No such file").

(** As paramiko does, a listing leaves out the special entries. *)
Definition is_special (name : str) : bool :=
  bool_decide (name = lit ".") || bool_decide (name = lit "..").

Definition mem_listdir (path : str) (w : mem_world)
  : mem_world * result (list SFTPAttributes) :=
  match mdirs w !! path with
  | Some l =>
      (w, inr (List.filter (fun it => negb (is_special (filename it))) l))
  | None => (w, inl no_such_file)
  end.

Definition mem_open (path : str) (mode : open_mode) (w : mem_world)
  : mem_world * result (str * open_mode) :=
  match mode with
  | ModeW =>
      match mdirs w !! path with
      | Some _ => (w, inl (IOError (lit "Failure")))
      | None => (MemWorld (<[path := []]> (mfiles w)) (mdirs w),
                 inr (path, ModeW))
      end
  | ModeR =>
      match mfiles w !! path with
      | Some _ => (w, inr (path, ModeR))
      | None => (w, inl no_such_file)
      end
  end.

Definition mem_read (f : str * open_mode) (w : mem_world)
  : mem_world * result bytes :=
  match mfiles w !! f.1 with
  | Some b => (w, inr b)
  | None => (w, inl no_such_file)
  end.

Definition mem_write (f : str * open_mode) (raw : bytes) (w : mem_world)
  : mem_world * result unit :=
  match f.2, mfiles w !! f.1 with
  | ModeW, Some b => (MemWorld (<[f.1 := b ++ raw]> (mfiles w)) (mdirs w),
                      inr tt)
  | ModeW, None => (w, inl no_such_file)
  | ModeR, _ => (w, inl (IOError (lit "File not open for writing")))
  end.

(** The wording of Python 3.11 with paramiko 3. *)
Definition mem_wording (m : misuse) : str :=
  match m with
  | IndexedText _ _ => lit "string indices must be integers, not 'str'"
  | NotText site _ =>
      if String.eqb site "+"
      then lit "unsupported operand type(s) for +: 'dict' and 'str'"
      else if String.eqb site "write"
      then lit "a bytes-like object is required, not 'dict'"
      else lit "Expected unicode or bytes, got <class 'dict'>"
  end.

Definition mem_remote : Remote := {|
  world := mem_world;
  client := unit;
  sftp_client := unit;
  channel := unit;
  sftp_file := str * open_mode;
  SSHClient := fun w => (w, tt);
  ssh_connect := fun _ _ _ _ w => (w, inr tt);
  open_sftp := fun _ w => (w, inr tt);
  invoke_shell := fun _ w => (w, inr tt);
  settimeout := fun _ w => (w, inr tt);
  listdir_attr := fun _ => mem_listdir;
  sftp_open := fun _ => mem_open;
  file_read := mem_read;
  file_write := mem_write;
  file_close := fun _ w => (w, inr tt);
  chan_send := fun _ _ w => (w, inr tt);
  chan_drain := fun _ w => (w, inr []);
  wording := mem_wording
|}.

(** A session after [connect]. *)
Definition connected : handles mem_remote :=
  Handles (R := mem_remote) (Some tt) (Some tt) (Some tt).

(** A home directory [/home/u], which is also what ["."] names, holding a
    directory [src] and a file [notes.txt]. *)
Definition home_entries : list SFTPAttributes :=
  [Attr (lit "src") (Some 16877); Attr (lit "notes.txt") (Some 33188)].

Definition home_world : mem_world :=
  MemWorld
    {[ lit "/home/u/notes.txt" := lit "hi" ]}
    (<[lit "." := home_entries]>
       (<[lit "/home/u" := home_entries]>
          {[ lit "/" := [Attr (lit "home") (Some 16877)] ]})).

End MemRemote.

(* ------------------------------------------------------------------ *)
(** ** Requests of the UI side *)

Module Requests.
Import Py Worker.

Definition request (cmd : string) (fields : list (string * value)) : message :=
  <["cmd" := VStr (lit cmd)]> (list_to_map fields).

(** [{"cmd": "listdir", "path": path}] *)
Definition listdir (path : str) : message :=
  request "listdir" [("path", VStr path)].

(** [{"cmd": "read_file", "path": path}] *)
Definition read_file (path : str) : message :=
  request "read_file" [("path", VStr path)].

(** [{"cmd": "write_file", "path": path, "data": data}] *)
Definition write_file (path data : str) : message :=
  request "write_file" [("path", VStr path); ("data", VStr data)].

End Requests.

(* ------------------------------------------------------------------ *)
(** ** Vocabulary for the properties of the worker *)

Module WorkerSpec.
Import Py Worker.

(** The remote file system keeps what one open/write/close stored: the next
    open for reading yields exactly those octets.  This is the absence of
    concurrent external mutation. *)
Definition stores_written (R : Remote) : Prop :=
  forall sf path raw w w0 w1 w2 f,
    sftp_open R sf path ModeW w = (w0, inr f) ->
    file_write R f raw w0 = (w1, inr tt) ->
    file_close R f w1 = (w2, inr tt) ->
    exists g w3 w4 w5,
      sftp_open R sf path ModeR w2 = (w3, inr g)
      /\ file_read R g w3 = (w4, inr raw)
      /\ file_close R g w4 = (w5, inr tt).

(** paramiko's [listdir_attr] never reports the special entry [".."]. *)
Definition hides_dotdot (R : Remote) : Prop :=
  forall sf path w w' items,
    listdir_attr R sf path w = (w', inr items) ->
    Forall (fun it => filename it <> lit "..") items.

(** [m] never touches the connection. *)
Definition quiet (R : Remote) {A} (m : M R A) : Prop :=
  forall s s' r, m s = (s', r) -> cn s' = cn s.

(** When [m] raises, the connection is as it was: nothing was sent. *)
Definition silent_on_raise (R : Remote) {A} (m : M R A) : Prop :=
  forall s s' e, m s = (s', inl e) -> cn s' = cn s.

End WorkerSpec.

(* ------------------------------------------------------------------ *)
(** ** The fragment of Python's [re] that [write_ansi] uses

    A backtracking matcher in continuation-passing style: alternatives are
    tried in order, [*] and [+] are greedy, [*?] is lazy.  Repetition is over
    character classes, which is all the patterns of the source need; group 1
    is the only capture. *)

Module Re.
Import Py.

Inductive regex :=
| Eps
| Chr (c : N)
| Cls (p : N -> bool)
| Cat (r1 r2 : regex)
| Alt (r1 r2 : regex)
| Opt (r : regex)
| Star (p : N -> bool)
| StarLazy (p : N -> bool)
| Group (r : regex).

Fixpoint star_greedy {A} (p : N -> bool) (s : str) (k : str -> option A)
  : option A :=
  match s with
  | c :: s' =>
      if p c then
        match star_greedy p s' k with
        | Some a => Some a
        | None => k s
        end
      else k s
  | [] => k []
  end.

Fixpoint star_lazy {A} (p : N -> bool) (s : str) (k : str -> option A)
  : option A :=
  match k s with
  | Some a => Some a
  | None =>
      match s with
      | c :: s' => if p c then star_lazy p s' k else None
      | [] => None
      end
  end.

(** [run r s g k]: match [r] at the start of [s]; [k] receives what is left
    of [s] and the text of group 1. *)
Fixpoint run {A} (r : regex) (s : str) (g : option str)
  (k : str -> option str -> option A) : option A :=
  match r with
  | Eps => k s g
  | Chr c =>
      match s with
      | x :: s' => if x =? c then k s' g else None
      | [] => None
      end
  | Cls p =>
      match s with
      | x :: s' => if p x then k s' g else None
      | [] => None
      end
  | Cat r1 r2 => run r1 s g (fun s' g' => run r2 s' g' k)
  | Alt r1 r2 =>
      match run r1 s g k with
      | Some a => Some a
      | None => run r2 s g k
      end
  | Opt r1 =>
      match run r1 s g k with
      | Some a => Some a
      | None => k s g
      end
  | Star p => star_greedy p s (fun s' => k s' g)
  | StarLazy p => star_lazy p s (fun s' => k s' g)
  | Group r1 =>
      run r1 s g
        (fun s' _ => k s' (Some (firstn (length s - length s') s)))
  end.

(** A match at the start of [s]: the rest of [s] and group 1. *)
Definition match_at (r : regex) (s : str) : option (str * option str) :=
  run r s None (fun s' g => Some (s', g)).

(** [re.search(r, s) is not None] *)
Fixpoint search (r : regex) (s : str) : bool :=
  match match_at r s with
  | Some _ => true
  | None =>
      match s with
      | [] => false
      | _ :: s' => search r s'
      end
  end.

(** The scanners below walk the text once; [skip] counts the characters
    still covered by the match found last. *)

(** [re.sub(r, repl, s)] *)
Fixpoint sub_from (r : regex) (repl : str) (s : str) (skip : nat) : str :=
  match s with
  | [] =>
      match skip, match_at r [] with
      | O, Some _ => repl
      | _, _ => []
      end
  | c :: s' =>
      match skip with
      | S n => sub_from r repl s' n
      | O =>
          match match_at r s with
          | Some (rest, _) =>
              match (length s - length rest)%nat with
              | O => repl ++ c :: sub_from r repl s' 0
              | S n => repl ++ sub_from r repl s' n
              end
          | None => c :: sub_from r repl s' 0
          end
      end
  end.

Definition sub (r : regex) (repl : str) (s : str) : str :=
  sub_from r repl s 0.

(** [re.compile(r).split(s)] for a pattern with one group that does not
    match the empty string: the pieces between matches, each followed by
    the group of the match that ended it. *)
Fixpoint split_from (r : regex) (s : str) (skip : nat) (cur : str)
  : list str :=
  match s with
  | [] => [cur]
  | c :: s' =>
      match skip with
      | S n => split_from r s' n cur
      | O =>
          match match_at r s with
          | Some (rest, g) =>
              match (length s - length rest)%nat with
              | O => split_from r s' 0 (cur ++ [c])
              | S n => cur :: default [] g :: split_from r s' n []
              end
          | None => split_from r s' 0 (cur ++ [c])
          end
      end
  end.

Definition split (r : regex) (s : str) : list str := split_from r s 0 [].

(** [re.findall(r, s)] for a pattern without groups that does not match
    the empty string. *)
Fixpoint findall_from (r : regex) (s : str) (skip : nat) : list str :=
  match s with
  | [] => []
  | _ :: s' =>
      match skip with
      | S n => findall_from r s' n
      | O =>
          match match_at r s with
          | Some (rest, _) =>
              match (length s - length rest)%nat with
              | O => findall_from r s' 0
              | S n => firstn (S n) s :: findall_from r s' n
              end
          | None => findall_from r s' 0
          end
      end
  end.

Definition findall (r : regex) (s : str) : list str := findall_from r s 0.

(** Pattern builders. *)
Fixpoint txt (s : str) : regex :=
  match s with
  | [] => Eps
  | c :: s' => Cat (Chr c) (txt s')
  end.

Fixpoint seq (rs : list regex) : regex :=
  match rs with
  | [] => Eps
  | r :: rs' => Cat r (seq rs')
  end.

Definition one_of (chars : string) (c : N) : bool :=
  existsb (N.eqb c) (lit chars).

(** The longest prefix of [s] inside a class, and what follows it. *)
Fixpoint take_while (p : N -> bool) (s : str) : str :=
  match s with
  | c :: s' => if p c then c :: take_while p s' else []
  | [] => []
  end.

Fixpoint drop_while (p : N -> bool) (s : str) : str :=
  match s with
  | c :: s' => if p c then drop_while p s' else s
  | [] => []
  end.

End Re.

(* ------------------------------------------------------------------ *)
(** ** The terminal writer ([SSHTerminal] in terminal.py) *)

Module Terminal.
Import Py Re.

(** [str.split(sep)] with an explicit one-character separator. *)
Fixpoint split_on (sep : N) (s : str) : list str :=
  match s with
  | [] => [[]]
  | c :: s' =>
      if c =? sep then [] :: split_on sep s'
      else match split_on sep s' with
           | x :: xs => (c :: x) :: xs
           | [] => [[c]]
           end
  end.

(** [sep.join(items)] *)
Fixpoint join (sep : str) (items : list str) : str :=
  match items with
  | [] => []
  | [x] => x
  | x :: rest => x ++ sep ++ join sep rest
  end.

(** [l[i]] *)
Definition getidx (l : list str) (i : nat) : result str :=
  match l !! i with
  | Some x => ret x
  | None => raise IndexError
  end.

(** ['c' in s] for a one-character [c]. *)
Definition contains (c : N) (s : str) : bool := existsb (N.eqb c) s.

(** [color_map] of [map_tag]. *)
Definition color_map : gmap (list N) string :=
  list_to_map
    [(lit "30", "black"); (lit "31", "red"); (lit "32", "green");
     (lit "33", "yellow"); (lit "34", "blue"); (lit "35", "magenta");
     (lit "36", "cyan"); (lit "37", "white"); (lit "90", "gray")].

(** The [try]/[except] of [map_tag] that picks the colour code and the
    modifiers. *)
Definition pick_codes (codes : list str) : str * bool * bool :=
  match (do base <- (match codes with
                     | [] => ret (lit "0")
                     | _ => getidx codes 1
                     end);
         do c0 <- getidx codes 0;
         ret (base, contains 49 c0, contains 52 c0)) with
  | inr x => x
  | inl _ => (default [] (head codes), false, false)
  end.

Definition map_tag (code : str) : string :=
  let codes := split_on 59 code in
  let '(base, bold, underline) := pick_codes codes in
  let color := default "white" (color_map !! base) in
  if bold then "ansi_bold_" +:+ color
  else if underline then "ansi_ul_" +:+ color
  else "ansi_" +:+ color.

(** [tag = self.map_tag(code); if tag: current_tag = tag] *)
Definition apply_sgr (current_tag : string) (code : str) : string :=
  let tag := map_tag code in
  if String.eqb tag "" then current_tag else tag.

(** What the writer asks of the text widget. *)
Inductive op :=
| DeleteCharacter                       (* self.deleteCharacter() *)
| DeleteAround (back fwd : nat)         (* the text.delete of clearLine *)
| Insert (text : str) (tag : option string)  (* text.insert(tk.END, ...) *)
| MarkPrompt                            (* prompt_index = index("end-1c") *)
| See.                                  (* text.see(tk.END) *)

Record term := Term {
  writing : nat;
  lastSize : nat;
  detect : bool
}.

(** [clearLine(min)]: both deletions compute their bounds from the cursor
    index read as a float; they are kept as one widget operation each. *)
Definition clearLine (min : nat) (st : term) : term * list op :=
  let '(st1, o1) :=
    match writing st with
    | O => (st, [])
    | S _ => (Term 0 (lastSize st) (detect st),
              [DeleteAround (writing st) min])
    end in
  let '(st2, o2) :=
    match lastSize st1 with
    | O => (st1, [])
    | S _ => (Term (writing st1) 0 (detect st1),
              [DeleteAround (lastSize st1) min])
    end in
  (st2, o1 ++ o2).

(** Character classes. *)
Definition ESC : N := 27.
Definition digit_or_semi (c : N) : bool :=
  ((48 <=? c) && (c <=? 57)) || (c =? 59).
Definition any_but_newline (c : N) : bool := negb (c =? 10).
Definition A_to_H_or_J (c : N) : bool :=
  ((65 <=? c) && (c <=? 72)) || (c =? 74).

(** [\s] on text: the characters for which [str.isspace()] holds. *)
Definition is_space (c : N) : bool :=
  ((9 <=? c) && (c <=? 13)) || ((28 <=? c) && (c <=? 32))
  || (c =? 0x85) || (c =? 0xA0) || (c =? 0x1680)
  || ((0x2000 <=? c) && (c <=? 0x200A))
  || (c =? 0x2028) || (c =? 0x2029) || (c =? 0x202F) || (c =? 0x205F)
  || (c =? 0x3000).

Definition non_space (c : N) : bool := negb (is_space c).
Definition not_char (x : N) (c : N) : bool := negb (c =? x).

(** Patterns that do not mention [\d].  In the comments the blanks around
    groups are not part of the pattern. *)
Definition re_cursor_erase : regex :=      (* \x1b\[[0-9;]*[HfJK] *)
  seq [Chr ESC; Chr 91; Star digit_or_semi; Cls (one_of "HfJK")].
Definition re_1Pm : regex :=               (* \x1b\[1Pm *)
  seq [Chr ESC; txt (lit "[1Pm")].
Definition re_bs : regex := Chr 8.         (* \x08 *)
Definition re_bel : regex := Chr 7.        (* \x07 *)
Definition re_right : regex :=             (* \x1b\[C *)
  seq [Chr ESC; txt (lit "[C")].
Definition re_osc : regex :=               (* \x1b\] .*? ( \x07 | \x1b\\ ) *)
  seq [Chr ESC; Chr 93; StarLazy any_but_newline;
       Group (Alt (Chr 7) (Cat (Chr ESC) (Chr 92)))].
Definition re_paste : regex :=             (* \x1b\[\?2004[hl] *)
  seq [Chr ESC; txt (lit "[?2004"); Cls (one_of "hl")].
Definition re_query : regex :=             (* \x1b\[6n *)
  seq [Chr ESC; txt (lit "[6n")].
Definition re_reset : regex :=             (* \x1b\[0?m *)
  seq [Chr ESC; Chr 91; Opt (Chr 48); Chr 109].
Definition re_n1n : regex := txt (lit "n1n").
Definition ansi_escape : regex :=          (* \x1b\[ ( [0-9;]* ) m *)
  seq [Chr ESC; Chr 91; Group (Star digit_or_semi); Chr 109].
(** A double-quoted span, or a single-quoted span, or [\S+]. *)
Definition re_token : regex :=
  Alt (seq [Chr 34; Star (not_char 34); Chr 34])
      (Alt (seq [Chr 39; Star (not_char 39); Chr 39])
           (Cat (Cls non_space) (Star non_space))).

Definition newline : str := [10].

(** The body of the [try] in the rendering loop.  Both exceptions are
    raised before anything is inserted. *)
Definition try_insert (chunk : str) (current_tag : string)
  : result (list op) :=
  let an := map (sub re_n1n newline) (findall re_token chunk) in
  do _ <- (if String.eqb current_tag "" then raise ZeroDivisionError
           else ret tt);
  do first <- getidx an 0;
  ret [Insert (first ++ [32]) (Some current_tag);
       Insert (join [32] (tail an)) None].

(** [if chunk: try: ... except: self.text.insert(tk.END, ...)] *)
Definition insert_chunk (chunk : str) (current_tag : string)
  : result (list op) :=
  match chunk with
  | [] => ret []
  | _ =>
      match try_insert chunk current_tag with
      | inr ops => ret ops
      | inl _ => ret [Insert (sub re_n1n newline chunk) None]
      end
  end.

(** The [while parts] loop. *)
Fixpoint render_parts (parts : list str) (current_tag : string)
  : result (list op) :=
  match parts with
  | [] => ret []
  | chunk :: rest =>
      match rest with
      | code :: rest' =>
          let current_tag := apply_sgr current_tag code in
          do o <- insert_chunk chunk current_tag;
          do os <- render_parts rest' current_tag;
          ret (o ++ os)
      | [] => insert_chunk chunk current_tag
      end
  end.

(** The test that decides on [deleteCharacter()] before anything is
    written; [end_lock] is what [GetEndLock()] answers. *)
Definition retracts (end_lock : bool) (text : str) : bool :=
  if negb (bool_decide (text = sub re_cursor_erase [] text)) then true
  else if negb (bool_decide (text = sub re_1Pm [] text)) then true
  else negb end_lock
       && Nat.ltb 1 (length (sub re_bs [] text))
       && negb (bool_decide ([] = sub re_bs [] text))
       && bool_decide (text = sub re_bel [] text)
       && bool_decide (text = sub re_right [] text).

Section Writer.

(** The decimal digits beyond ASCII ([\d] on text follows the Unicode
    database of the Python runtime). *)
Variable unicode_Nd : N -> bool.

Definition is_digit (c : N) : bool :=
  if c <? 128 then (48 <=? c) && (c <=? 57) else unicode_Nd c.

Definition re_move : regex :=              (* \x1b\[\d*[A-HJ] *)
  seq [Chr ESC; Chr 91; Star is_digit; Cls A_to_H_or_J].
Definition re_rowcol : regex :=            (* \x1b\[\d+;\d+[Hf] *)
  seq [Chr ESC; Chr 91; Cls is_digit; Star is_digit; Chr 59;
       Cls is_digit; Star is_digit; Cls (one_of "Hf")].

(** The chain of [re.sub] calls, in the order of the source. *)
Definition strip_controls (text : str) : str :=
  let text := sub re_osc (lit "n1n") text in
  let text := sub re_bs [] text in
  let text := sub re_bel [] text in
  let text := sub re_paste [] text in
  let text := sub re_cursor_erase [] text in
  let text := sub re_query [] text in
  let text := sub re_paste [] text in
  let text := sub re_move [] text in
  let text := sub re_rowcol [] text in
  let text := sub re_query [] text in
  let text := sub re_reset [] text in
  sub re_1Pm [] text.

(** [write_ansi(text)]: the new writer state and the widget operations,
    in order. *)
Definition write_ansi (end_lock : bool) (st : term) (text : str)
  : result (term * list op) :=
  let o_del := if retracts end_lock text then [DeleteCharacter] else [] in
  let text := strip_controls text in
  let '(st, o_clear) :=
    if detect st then
      let '(st1, o) := clearLine (length text) st in
      (Term (writing st1) (length text) false, o)
    else (st, []) in
  let parts := split ansi_escape text in
  do o_ins <- render_parts parts "";
  ret (st, o_del ++ o_clear ++ o_ins ++ [MarkPrompt; See]).

End Writer.

(** What a sequence of operations appends to the buffer: each inserted
    character with the tag it was given. *)
Definition inserted (ops : list op) : list (N * option string) :=
  flat_map (fun o => match o with
                     | Insert t tag => map (fun c => (c, tag)) t
                     | _ => []
                     end) ops.

Definition inserted_text (ops : list op) : str := map fst (inserted ops).

(** The operations of a call, [[]] if it raised. *)
Definition ops_of (r : result (term * list op)) : list op :=
  match r with
  | inr (_, ops) => ops
  | inl _ => []
  end.

Definition fresh_term : term := Term 0 0 false.

End Terminal.

(* ------------------------------------------------------------------ *)
(** ** Vocabulary for the properties of the writer *)

Module TerminalSpec.
Import Py Re Terminal.

(** Every pattern [write_ansi] removes or splits on. *)
Definition stripped_forms (unicode_Nd : N -> bool) : list regex :=
  [re_osc; re_bs; re_bel; re_paste; re_cursor_erase; re_query;
   re_move unicode_Nd; re_rowcol unicode_Nd; re_reset; re_1Pm; ansi_escape].

(** The control forms the specification lists as recognized: CSI H/f/J/K,
    CSI 6n, CSI ?2004h/l, SGR, OSC, backspace and bell. *)
Definition recognized_forms : list regex :=
  [re_cursor_erase; re_query; re_paste; ansi_escape; re_osc; re_bs; re_bel].

(** No pattern of [forms] matches anywhere in [text]. *)
Definition free_of (forms : list regex) (text : str) : bool :=
  forallb (fun r => negb (search r text)) forms.

(** The whitespace-delimited tokens of a run, as [str.split()] gives
    them. *)
Fixpoint words (s : str) : list str :=
  match s with
  | [] => []
  | c :: s' =>
      if is_space c then words s'
      else match s' with
           | [] => [[c]]
           | c' :: _ =>
               if is_space c' then [c] :: words s'
               else match words s' with
                    | w :: ws => (c :: w) :: ws
                    | [] => [[c]]
                    end
           end
  end.

(** The colour code [map_tag] looks up for a parameter string. *)
Definition base_of (code : str) : str :=
  (pick_codes (split_on 59 code)).1.1.

Definition quote_free (s : str) : bool :=
  forallb (fun c => negb (c =? 34) && negb (c =? 39)) s.

(** The tokens of the rendering loop, read off its pattern.  At a
    non-blank character [c] a token begins.  If [c] is a quote character
    that occurs again further on, the token is the quoted span up to and
    including that next occurrence, blanks and all; otherwise it is [c]
    and the non-blank characters that follow it.  [token_split] gives the
    token and what is left after it. *)
Definition is_quote (c : N) : bool := (c =? 34) || (c =? 39).

Definition token_split (s : str) : str * str :=
  match s with
  | [] => ([], [])
  | c :: s' =>
      if is_quote c && contains c s'
      then (c :: take_while (not_char c) s' ++ [c],
            tail (drop_while (not_char c) s'))
      else (c :: take_while non_space s', drop_while non_space s')
  end.

Definition first_token (run : str) : str :=
  (token_split (drop_while is_space run)).1.

Definition after_first_token (run : str) : str :=
  (token_split (drop_while is_space run)).2.

(** All tokens of a run, from the left; every token takes at least one
    character, so as many rounds as the run has characters are enough. *)
Fixpoint tokens_upto (rounds : nat) (s : str) : list str :=
  match rounds with
  | O => []
  | S n =>
      match drop_while is_space s with
      | [] => []
      | r => (token_split r).1 :: tokens_upto n (token_split r).2
      end
  end.

Definition tokens (run : str) : list str := tokens_upto (length run) run.

(** The first non-blank character of the run opens a quoted span. *)
Definition opens_span (run : str) : bool :=
  match drop_while is_space run with
  | c :: s' => is_quote c && contains c s'
  | [] => false
  end.

(** The text of a run as [insert_chunk] lays it out, before the sentinel
    is rewritten: the run itself, or under a tag its tokens separated by
    single blanks. *)
Definition laid_out (chunk : str) (current_tag : string) : str :=
  match chunk with
  | [] => []
  | _ =>
      if String.eqb current_tag "" then chunk
      else match findall re_token chunk with
           | [] => chunk
           | t :: ts => t ++ [32] ++ join [32] ts
           end
  end.

(** The runs of a split chunk, laid out under the tags of the rendering
    loop. *)
Fixpoint laid_out_parts (parts : list str) (current_tag : string)
  : list str :=
  match parts with
  | [] => []
  | chunk :: rest =>
      match rest with
      | code :: rest' =>
          let current_tag := apply_sgr current_tag code in
          laid_out chunk current_tag :: laid_out_parts rest' current_tag
      | [] => [laid_out chunk current_tag]
      end
  end.

(** A Unicode table with no decimal digit beyond ASCII, to run the writer
    on ASCII input. *)
Definition no_digits_beyond_ascii : N -> bool := fun _ => false.

(** [ESC] followed by ASCII text. *)
Definition esc (s : string) : str := ESC :: lit s.

End TerminalSpec.

(* ------------------------------------------------------------------ *)
(** ** The Tk text widget, as far as the editor uses it *)

Module Tk.
Import Py.

(** [chars] is the text before the final newline, which the widget always
    keeps. *)
Record text := Text { chars : str }.

Inductive index :=
| Start                 (* "1.0" *)
| End_                  (* tk.END *)
| At (offset : nat).    (* a position counted in characters *)

Definition whole (w : text) : str := chars w ++ [10].

Definition offset (w : text) (i : index) : nat :=
  match i with
  | Start => 0
  | End_ => length (whole w)
  | At n => Nat.min n (length (whole w))
  end.

(** [text.get(i, j)] *)
Definition get (w : text) (i j : index) : str :=
  let a := offset w i in
  let b := offset w j in
  firstn (b - a) (skipn a (whole w)).

(** [text.insert(i, s)]: nothing goes after the final newline. *)
Definition insert (w : text) (i : index) (s : str) : text :=
  let a := Nat.min (offset w i) (length (chars w)) in
  Text (firstn a (chars w) ++ s ++ skipn a (chars w)).

(** [text.delete(i, j)]: the final newline stays; when the range reaches
    it and begins at the start of a line other than the first, the newline
    before the range is deleted in its place. *)
Definition delete (w : text) (i j : index) : text :=
  let a := offset w i in
  let b := offset w j in
  if Nat.leb b a then w
  else if Nat.ltb (length (chars w)) b then
    let a' := match a with
              | O => O
              | S p => if bool_decide (chars w !! p = Some 10) then p else a
              end in
    Text (firstn a' (chars w))
  else Text (firstn a (chars w) ++ skipn b (chars w)).

End Tk.

(* ------------------------------------------------------------------ *)
(** ** [CodeEditor] (editor.py) *)

Module Editor.
Import Py.

(** The fields [set_text] and [get_text] touch.  Highlighting
    ([set_lexer], [highlight_text]) only adds and removes tags and redraws
    the line-number gutter; it does not change the text. *)
Record editor := Editor {
  file_editor : Tk.text;
  current_filepath : option str;
  search_term : option str;
  last_search_index : Tk.index;
  current_search_match_indices : option (Tk.index * Tk.index)
}.

Definition get_text (e : editor) : str :=
  Tk.get (file_editor e) Tk.Start Tk.End_.

Definition set_text (e : editor) (text : str) (filepath : option str)
  : editor :=
  let fe := Tk.delete (file_editor e) Tk.Start Tk.End_ in
  let fe := Tk.insert fe Tk.Start text in
  Editor fe filepath None Tk.Start None.

End Editor.

(* ------------------------------------------------------------------ *)
(** ** Opening and saving a remote file ([SSHClientApp] in main.py) *)

Module App.
Import Py Worker.

Section Client.
Context (R : Remote).

(** [os.path.dirname], which depends on the platform of the UI. *)
Variable dirname : str -> str.

Record app := MkApp {
  current_path : str;
  current_file : option str;
  editor_widget : Editor.editor;
  file_listbox : list str;
  host : world R;
  session : handles R
}.

(** [list_remote_dir] *)
Definition list_remote_dir (a : app) : app :=
  let '(w', h', res) :=
    send_to_worker R (host a) (session a)
      (Requests.listdir (current_path a)) in
  match res with
  | RList items =>
      MkApp (current_path a) (current_file a) (editor_widget a)
            (map (fun '(icon, name) => icon ++ lit " " ++ name) items) w' h'
  | _ =>
      MkApp (current_path a) (current_file a) (editor_widget a)
            (file_listbox a) w' h'
  end.

(** [f"{self.current_path}/{name}".replace("//", "/")] *)
Definition entry_path (dir name : str) : str :=
  Re.sub (Re.txt (lit "//")) (lit "/") (dir ++ lit "/" ++ name).

(** [file_list_click] on the entry called [name].  [read_file] answers
    with text or with an error dictionary; any other answer is handled as
    the error is. *)
Definition file_list_click (a : app) (name : str) : app :=
  if bool_decide (name = lit "..") then
    let d := dirname (current_path a) in
    list_remote_dir
      (MkApp (match d with [] => lit "." | _ => d end) (current_file a)
             (editor_widget a) (file_listbox a) (host a) (session a))
  else
    let path := entry_path (current_path a) name in
    let '(w', h', res) :=
      send_to_worker R (host a) (session a) (Requests.read_file path) in
    match res with
    | RStr content =>
        MkApp (current_path a) (Some path)
              (Editor.set_text (editor_widget a) content None)
              (file_listbox a) w' h'
    | _ =>
        list_remote_dir
          (MkApp path (current_file a) (editor_widget a) (file_listbox a)
                 w' h')
    end.

(** [save_file_to_server]; the response is what the button shows. *)
Definition save_file_to_server (a : app) : app * option response :=
  match current_file a with
  | None | Some [] => (a, None)
  | Some path =>
      let content := Editor.get_text (editor_widget a) in
      let '(w', h', res) :=
        send_to_worker R (host a) (session a)
          (Requests.write_file path content) in
      (MkApp (current_path a) (current_file a) (editor_widget a)
             (file_listbox a) w' h', Some res)
  end.

End Client.

Arguments MkApp {R}.
Arguments current_path {R}.
Arguments current_file {R}.
Arguments editor_widget {R}.
Arguments file_listbox {R}.
Arguments host {R}.
Arguments session {R}.

End App.

(* ------------------------------------------------------------------ *)
(** ** A client in front of the in-memory host *)

Module Demo.
Import Py Worker MemRemote App.

(** The UI browsing [/home/u], nothing open yet. *)
Definition fresh_app : app mem_remote :=
  MkApp (R := mem_remote) (lit "/home/u") None
        (Editor.Editor (Tk.Text []) None None Tk.Start None)
        [] home_world connected.

End Demo.

(* ------------------------------------------------------------------ *)
(** ** More vocabulary: code points, single replies, further requests *)

Module Utf8Spec.
Import Py Utf8.

(** A Unicode scalar value: what [str.encode("utf-8")] accepts. *)
Definition is_scalar (c : N) : bool :=
  (c <? 0x110000) && negb (is_surrogate c).

End Utf8Spec.

Module WorkerSpec2.
Import Py Worker.

(** [m] leaves the connection as it was or sends exactly one reply on
    it. *)
Definition one_send (R : Remote) {A} (m : M R A) : Prop :=
  forall s s' r,
    m s = (s', r) ->
    cn s' = cn s
    \/ exists x,
         cn s' = Conn (inbox (cn s)) (peer_open (cn s))
                      (sent (cn s) ++ [x]) (closed (cn s)).

(** [m] leaves the three handles of the worker as they were. *)
Definition keeps_handles (R : Remote) {A} (m : M R A) : Prop :=
  forall s s' r, m s = (s', r) -> hs s' = hs s.

(** The body of the [try] after [conn.recv()] has returned [msg]. *)
Definition dispatch (R : Remote) (msg : message) : M R unit :=
  mbind R (lift R (getitem msg "cmd")) (fun cmd =>
    if is_cmd cmd "connect" then cmd_connect R msg
    else if is_cmd cmd "listdir" then cmd_listdir R msg
    else if is_cmd cmd "read_file" then cmd_read_file R msg
    else if is_cmd cmd "write_file" then cmd_write_file R msg
    else if is_cmd cmd "send_command" then cmd_send_command R msg
    else mret R tt).

(** What became of one connection: same peer, now closed, with at most
    one more reply than before. *)
Definition served (cin cout : conn) : Prop :=
  inbox cout = inbox cin
  /\ peer_open cout = peer_open cin
  /\ closed cout = true
  /\ (sent cout = sent cin \/ exists x, sent cout = sent cin ++ [x]).

(** [{"cmd": "connect", "host": {...}}] *)
Definition connect_request (ip username password : str) : message :=
  Requests.request "connect"
    [("host", VDict (<["ip" := ip]> (<["username" := username]>
                       {["password" := password]})))].

(** [{"cmd": "send_command", "data": line}] *)
Definition send_command_request (line : str) : message :=
  Requests.request "send_command" [("data", VStr line)].

(** The commands that need a handle of an established session. *)
Definition needs_session (cmd : value) : bool :=
  is_cmd cmd "listdir" || is_cmd cmd "read_file"
  || is_cmd cmd "write_file" || is_cmd cmd "send_command".

Definition known_command (cmd : value) : bool :=
  is_cmd cmd "connect" || needs_session cmd.

(** The entry [listdir] reports for one item with a mode. *)
Definition entry_of (name : str) (mode : N) : str * str :=
  (if N.land mode 61440 =? 16384 then folder_icon else file_icon, name).

End WorkerSpec2.

Module MemRemote2.
Import Py Worker MemRemote.

(** The in-memory host behind a password: [ssh.connect] raises unless the
    password is [secret]. *)
Definition guarded_remote : Remote := {|
  world := mem_world;
  client := unit;
  sftp_client := unit;
  channel := unit;
  sftp_file := str * open_mode;
  SSHClient := fun w => (w, tt);
  ssh_connect := fun _ _ _ password w =>
    if bool_decide (password = lit "secret") then (w, inr tt)
    else (w, inl (IOError (lit "Authentication failed.")));
  open_sftp := fun _ w => (w, inr tt);
  invoke_shell := fun _ w => (w, inr tt);
  settimeout := fun _ w => (w, inr tt);
  listdir_attr := fun _ => mem_listdir;
  sftp_open := fun _ => mem_open;
  file_read := mem_read;
  file_write := mem_write;
  file_close := fun _ w => (w, inr tt);
  chan_send := fun _ _ w => (w, inr tt);
  chan_drain := fun _ w => (w, inr []);
  wording := mem_wording
|}.

(** A directory [/dev] in which the server reports one entry without
    attributes. *)
Definition dev_world : mem_world :=
  MemWorld ∅
    {[ lit "/dev" := [Attr (lit "null") (Some 8630);
                      Attr (lit "odd") None] ]}.

End MemRemote2.

Module AppSpec.
Import Py Worker App.

Section Cycles.
Context (R : Remote).
Variable dirname : str -> str.

(** Clicking the entry [name] and then pressing the save button. *)
Definition open_and_save (a : app R) (name : str)
  : app R * option response :=
  save_file_to_server R (file_list_click R dirname a name).

(** [n] such rounds on the same entry; [None] as soon as a save is not
    acknowledged with ["ok"]. *)
Fixpoint open_and_save_times (n : nat) (a : app R) (name : str)
  : option (app R) :=
  match n with
  | O => Some a
  | S k =>
      match open_and_save_times k a name with
      | Some a' =>
          match open_and_save a' name with
          | (a'', Some (RStr s)) =>
              if bool_decide (s = lit "ok") then Some a'' else None
          | _ => None
          end
      | None => None
      end
  end.

End Cycles.

End AppSpec.

Module TerminalSpec2.
Import Py Re Terminal.

(** The keys of [styles] in [define_tags], and the tags it configures:
    three per colour name. *)
Definition styles : list string :=
  ["black"; "red"; "green"; "yellow"; "blue"; "magenta"; "cyan"; "white";
   "gray"].

Definition define_tags : list string :=
  flat_map (fun name => ["ansi_" +:+ name; "ansi_bold_" +:+ name;
                         "ansi_ul_" +:+ name]) styles.

(** Text without ESC. *)
Definition esc_free (s : str) : bool := forallb (fun c => negb (c =? 27)) s.

(** [s] with every backspace and every bell taken out: what the two
    single-character substitutions leave. *)
Definition unbell (s : str) : str :=
  List.filter (fun c => negb (c =? 7))
    (List.filter (fun c => negb (c =? 8)) s).

(** What one untagged insertion of [s] amounts to. *)
Definition insert_plain (s : str) : list op :=
  match s with
  | [] => []
  | _ => [Insert (sub re_n1n newline s) None]
  end.

(** What follows ESC in a cursor or erase sequence with the parameters
    [ps] and the final character [f]. *)
Definition csi_body (ps : str) (f : N) : str := 91 :: ps ++ [f].

(** A character of an SGR code: a digit or a semicolon. *)
Definition code_char_ok (d : N) : Prop := digit_or_semi d = true.

(** A pattern that can only match at an ESC. *)
Definition esc_led (p : regex) : Prop :=
  match_at p [] = None
  /\ forall c s, (c =? 27) = false -> match_at p (c :: s) = None.

(** Neither a backspace nor a bell. *)
Definition quiet_char (c : N) : Prop := c <> 8 /\ c <> 7.

(** Operations that insert neither. *)
Definition quiet_ops (ops : list op) : Prop :=
  Forall (fun ct : N * option string => quiet_char ct.1) (inserted ops).

(** A property of characters, on the text of group 1 if there is one. *)
Definition optP (P : N -> Prop) (g : option str) : Prop :=
  match g with
  | Some x => Forall P x
  | None => True
  end.

End TerminalSpec2.

(* ------------------------------------------------------------------ *)
(** ** Replace All ([CodeEditor._replace_all_text] in editor.py) *)

Module EditorSearch.
Import Py.

Section Search.

(** The case folding behind [nocase=True]: two characters match when
    their foldings are equal. *)
Variable fold : N -> N.

Fixpoint matches_here (q s : str) : bool :=
  match q, s with
  | [], _ => true
  | _ :: _, [] => false
  | a :: q', b :: s' => (fold a =? fold b) && matches_here q' s'
  end.

(** The first position at or after [pos] where [q] matches; [s] is the
    text from [pos] on. *)
Fixpoint search_fwd (q s : str) (pos : nat) : option nat :=
  match s with
  | [] => None
  | _ :: s' =>
      if matches_here q s then Some pos else search_fwd q s' (S pos)
  end.

(** [file_editor.search(query, "1.0", stopindex=tk.END, nocase=True)];
    [None] is the empty string Tk answers when nothing is found. *)
Definition text_search (w : Tk.text) (query : str) : option nat :=
  search_fwd query (Tk.whole w) 0.

(** The [while True] loop: every round searches again from ["1.0"],
    deletes the match and inserts the replacement where it began.  The
    result is [None] when [fuel] rounds were not enough to leave the
    loop. *)
Fixpoint replace_all_loop (query replace_with : str) (fuel : nat)
    (fe : Tk.text) (count : nat) (last : Tk.index)
  : option (Tk.text * nat * Tk.index) :=
  match fuel with
  | O => None
  | S fuel' =>
      match text_search fe query with
      | None => Some (fe, count, last)
      | Some start =>
          let fe := Tk.delete fe (Tk.At start)
                      (Tk.At (start + length query)) in
          let fe := Tk.insert fe (Tk.At start) replace_with in
          replace_all_loop query replace_with fuel' fe (S count)
            (Tk.At (start + length replace_with))
      end
  end.

(** [_replace_all_text], with the texts of the two entries and the answer
    to the confirmation dialog; the number is the count the closing
    message reports, [None] when the method returned before the loop. *)
Definition replace_all_text (e : Editor.editor)
    (query replace_with : str) (confirm : bool) (fuel : nat)
  : option (Editor.editor * option nat) :=
  match query with
  | [] => Some (e, None)
  | _ =>
      if negb confirm then Some (e, None)
      else
        match replace_all_loop query replace_with fuel
                (Editor.file_editor e) 0 Tk.Start with
        | Some (fe, count, last) =>
            Some (Editor.Editor fe (Editor.current_filepath e)
                    (Editor.search_term e) last None, Some count)
        | None => None
        end
  end.

(** No character of the query folds to what a newline folds to. *)
Definition one_line (query : str) : Prop :=
  Forall (fun c => fold c <> fold 10) query.

End Search.

(** A folding that lowers the ASCII capitals and leaves every other
    character alone, and an editor holding one line. *)
Definition ascii_lower (c : N) : N :=
  if (65 <=? c) && (c <=? 90) then c + 32 else c.

Definition holding (text : string) : Editor.editor :=
  Editor.set_text (Editor.Editor (Tk.Text []) None None Tk.Start None)
    (lit text) None.

End EditorSearch.

(* ================================================================== *)
(** * Properties *)

Module Utf8Facts.
Import Py Utf8.

Ltac nb :=
  repeat match goal with
  | |- (_ <? _) = true => apply N.ltb_lt
  | |- (_ <? _) = false => apply N.ltb_ge
  | |- (_ <=? _) = true => apply N.leb_le
  | |- (_ <=? _) = false => apply N.leb_gt
  | |- (_ =? _) = true => apply N.eqb_eq
  | |- (_ =? _) = false => apply N.eqb_neq
  | |- (_ && _) = true => apply andb_true_intro; split
  end; try lia.

Lemma is_cont_intro (b : N) : 0x80 <= b <= 0xBF -> is_cont b = true.
Proof. intros. unfold is_cont. nb. Qed.

Lemma decode_1 (b0 : N) (r : bytes) :
  b0 < 0x80 -> decode_ignore (b0 :: r) = b0 :: decode_ignore r.
Proof.
  intros H. cbn [decode_ignore].
  replace (b0 <? 0x80) with true by (symmetry; nb). reflexivity.
Qed.

Lemma decode_2 (b0 b1 : N) (r : bytes) :
  0xC2 <= b0 <= 0xDF -> is_cont b1 = true ->
  decode_ignore (b0 :: b1 :: r)
  = ((b0 - 0xC0) * 64 + (b1 - 0x80)) :: decode_ignore r.
Proof.
  intros H H1. cbn [decode_ignore].
  replace (b0 <? 0x80) with false by (symmetry; nb).
  replace ((0xC2 <=? b0) && (b0 <=? 0xDF)) with true by (symmetry; nb).
  rewrite H1. reflexivity.
Qed.

Lemma decode_3 (b0 b1 b2 : N) (r : bytes) :
  0xE0 <= b0 <= 0xEF -> second_ok b0 b1 = true -> is_cont b2 = true ->
  decode_ignore (b0 :: b1 :: b2 :: r)
  = ((b0 - 0xE0) * 4096 + (b1 - 0x80) * 64 + (b2 - 0x80)) :: decode_ignore r.
Proof.
  intros H H1 H2. cbn [decode_ignore].
  replace (b0 <? 0x80) with false by (symmetry; nb).
  replace ((0xC2 <=? b0) && (b0 <=? 0xDF)) with false
    by (symmetry; apply andb_false_intro2; nb).
  replace ((0xE0 <=? b0) && (b0 <=? 0xEF)) with true by (symmetry; nb).
  rewrite H1, H2. reflexivity.
Qed.

Lemma decode_4 (b0 b1 b2 b3 : N) (r : bytes) :
  0xF0 <= b0 <= 0xF4 -> second_ok b0 b1 = true ->
  is_cont b2 = true -> is_cont b3 = true ->
  decode_ignore (b0 :: b1 :: b2 :: b3 :: r)
  = ((b0 - 0xF0) * 262144 + (b1 - 0x80) * 4096 + (b2 - 0x80) * 64
     + (b3 - 0x80)) :: decode_ignore r.
Proof.
  intros H H1 H2 H3. cbn [decode_ignore].
  replace (b0 <? 0x80) with false by (symmetry; nb).
  replace ((0xC2 <=? b0) && (b0 <=? 0xDF)) with false
    by (symmetry; apply andb_false_intro2; nb).
  replace ((0xE0 <=? b0) && (b0 <=? 0xEF)) with false
    by (symmetry; apply andb_false_intro2; nb).
  replace ((0xF0 <=? b0) && (b0 <=? 0xF4)) with true by (symmetry; nb).
  rewrite H1, H2, H3. reflexivity.
Qed.

Lemma second_ok_intro (b0 b1 : N) :
  (b0 = 0xE0 -> 0xA0 <= b1) -> (b0 = 0xED -> b1 <= 0x9F) ->
  (b0 = 0xF0 -> 0x90 <= b1) -> (b0 = 0xF4 -> b1 <= 0x8F) ->
  0x80 <= b1 <= 0xBF -> second_ok b0 b1 = true.
Proof.
  intros. unfold second_ok, is_cont.
  destruct (N.eqb_spec b0 0xE0); [nb|].
  destruct (N.eqb_spec b0 0xED); [nb|].
  destruct (N.eqb_spec b0 0xF0); [nb|].
  destruct (N.eqb_spec b0 0xF4); nb.
Qed.

Lemma split64 (c : N) :
  exists q r, c = 64 * q + r /\ r < 64 /\ c / 64 = q /\ c mod 64 = r.
Proof.
  exists (c / 64), (c mod 64). repeat split.
  - apply N.div_mod. lia.
  - apply N.mod_lt. lia.
Qed.

Lemma div4096 (c : N) : c / 4096 = c / 64 / 64.
Proof. rewrite N.Div0.div_div. reflexivity. Qed.

Lemma div262144 (c : N) : c / 262144 = c / 64 / 64 / 64.
Proof. rewrite !N.Div0.div_div. reflexivity. Qed.

Lemma decode_encode_cp (c : N) (bs rest : bytes) :
  encode_cp c = Some bs ->
  decode_ignore (bs ++ rest) = c :: decode_ignore rest.
Proof.
  unfold encode_cp, is_surrogate.
  rewrite div262144, div4096.
  destruct (split64 c) as (q0 & r0 & E0 & L0 & -> & ->).
  destruct (split64 q0) as (q1 & r1 & E1 & L1 & -> & ->).
  destruct (split64 q1) as (q2 & r2 & E2 & L2 & -> & ->).
  destruct (N.ltb_spec c 0x80).
  { intros [= <-]. apply decode_1. lia. }
  destruct (N.ltb_spec c 0x800).
  { intros [= <-]. cbn [app]. rewrite decode_2.
    - f_equal. lia.
    - lia.
    - apply is_cont_intro. lia. }
  destruct (N.ltb_spec c 0x10000).
  { destruct (N.leb_spec 0xD800 c), (N.leb_spec c 0xDFFF);
      cbn [andb]; try discriminate;
      intros [= <-]; cbn [app]; (rewrite decode_3;
        [f_equal; lia | lia | apply second_ok_intro; lia
        | apply is_cont_intro; lia]). }
  destruct (N.ltb_spec c 0x110000); [|discriminate].
  intros [= <-]; cbn [app]. rewrite decode_4.
  - f_equal; lia.
  - lia.
  - apply second_ok_intro; lia.
  - apply is_cont_intro; lia.
  - apply is_cont_intro; lia.
Qed.

Lemma decode_encode_from (object : str) (s : str) :
  forall pos bs, encode_from object pos s = inr bs -> decode_ignore bs = s.
Proof.
  induction s as [|c s IH]; intros pos bs; cbn [encode_from].
  - intros [= <-]. reflexivity.
  - destruct (encode_cp c) as [b|] eqn:Hc; [|discriminate].
    destruct (encode_from object (S pos) s) as [e|bs'] eqn:Hs;
      [discriminate|].
    cbn. intros [= <-]. rewrite (decode_encode_cp _ _ _ Hc).
    f_equal. apply (IH _ _ Hs).
Qed.

Lemma decode_encode (s : str) (bs : bytes) :
  encode s = inr bs -> decode_ignore bs = s.
Proof. apply decode_encode_from. Qed.

End Utf8Facts.

Module WorkerFacts.
Import Py Worker Requests WorkerSpec.

Section Quiet.
Context (R : Remote).

Lemma quiet_silent {A} (m : M R A) : quiet R m -> silent_on_raise R m.
Proof. intros H s s' e E. exact (H _ _ _ E). Qed.

Lemma quiet_mret {A} (a : A) : quiet R (mret R a).
Proof. intros s s' r [= <- _]. reflexivity. Qed.

Lemma quiet_lift {A} (x : result A) : quiet R (lift R x).
Proof. intros s s' r [= <- _]. reflexivity. Qed.

Lemma quiet_io {A} (op : world R -> world R * result A) : quiet R (io R op).
Proof.
  intros s s' r. unfold io. destruct (op (remote s)) as [w' x].
  intros [= <- _]. reflexivity.
Qed.

Lemma quiet_get : quiet R (get_handles R).
Proof. intros s s' r [= <- _]. reflexivity. Qed.

Lemma quiet_set h : quiet R (set_handles R h).
Proof. intros s s' r [= <- _]. reflexivity. Qed.

Lemma quiet_bind {A B} (m : M R A) (f : A -> M R B) :
  quiet R m -> (forall a, quiet R (f a)) -> quiet R (mbind R m f).
Proof.
  intros Hm Hf s s' r. unfold mbind.
  destruct (m s) as [s1 [e|a]] eqn:E.
  - intros [= <- _]. exact (Hm _ _ _ E).
  - intros E'. rewrite (Hf _ _ _ _ E'). exact (Hm _ _ _ E).
Qed.

Lemma quiet_finally {A} (m : M R A) (f : M R unit) :
  quiet R m -> quiet R f -> quiet R (finally R m f).
Proof.
  intros Hm Hf s s' r. unfold finally.
  destruct (m s) as [s1 x] eqn:E. destruct (f s1) as [s2 [e|u]] eqn:F;
    intros [= <- _]; rewrite (Hf _ _ _ F); exact (Hm _ _ _ E).
Qed.

Lemma quiet_with_open {A} sf path mode (body : sftp_file R -> M R A) :
  (forall f, quiet R (body f)) -> quiet R (with_open R sf path mode body).
Proof.
  intros Hb. apply quiet_bind; [apply quiet_io|].
  intros f. apply quiet_finally; [apply Hb | apply quiet_io].
Qed.

Lemma silent_send r : silent_on_raise R (conn_send R r).
Proof.
  intros s s' e. unfold conn_send. destruct (peer_open (cn s)).
  - discriminate.
  - intros [= <- _]. reflexivity.
Qed.

Lemma silent_bind {A B} (m : M R A) (f : A -> M R B) :
  quiet R m -> (forall a, silent_on_raise R (f a)) ->
  silent_on_raise R (mbind R m f).
Proof.
  intros Hm Hf s s' e. unfold mbind.
  destruct (m s) as [s1 [e1|a]] eqn:E.
  - intros [= <- _]. exact (Hm _ _ _ E).
  - intros E'. rewrite (Hf _ _ _ _ E'). exact (Hm _ _ _ E).
Qed.

End Quiet.

Create HintDb conn.
#[export] Hint Resolve quiet_mret quiet_lift quiet_io quiet_get quiet_set
  quiet_with_open silent_send : conn.
#[export] Hint Extern 2 (quiet _ (mbind _ _ _)) =>
  (apply quiet_bind; [|intros ?]) : conn.
#[export] Hint Extern 2 (silent_on_raise _ (mbind _ _ _)) =>
  (apply silent_bind; [|intros ?]) : conn.
#[export] Hint Extern 5 (silent_on_raise _ _) =>
  (apply quiet_silent) : conn.

Section Serve.
Context (R : Remote).

Lemma silent_try_body : silent_on_raise R (try_body R).
Proof.
  unfold try_body.
  apply silent_bind; [intros s s' r [= <- _]; reflexivity | intros msg].
  apply silent_bind; [auto with conn | intros cmd].
  repeat match goal with |- context [if ?b then _ else _] => destruct b end;
    unfold cmd_connect, cmd_listdir, cmd_read_file, cmd_write_file,
           cmd_send_command;
    auto 30 with conn.
Qed.

Lemma get_cmd c f : getitem (request c f) "cmd" = inr (VStr (lit c)).
Proof. unfold getitem, request. rewrite lookup_insert_eq. reflexivity. Qed.

Lemma get_write_path p d : getitem (write_file p d) "path" = inr (VStr p).
Proof. vm_compute. reflexivity. Qed.

Lemma get_write_data p d : getitem (write_file p d) "data" = inr (VStr d).
Proof. vm_compute. reflexivity. Qed.

Lemma get_read_path p : getitem (read_file p) "path" = inr (VStr p).
Proof. vm_compute. reflexivity. Qed.

Lemma get_listdir_path p : getitem (listdir p) "path" = inr (VStr p).
Proof. vm_compute. reflexivity. Qed.

Lemma is_cmd_lit (a b : string) :
  is_cmd (VStr (lit a)) b = bool_decide (lit a = lit b).
Proof. reflexivity. Qed.

Lemma try_body_write w h p d :
  try_body R (State w h (fresh_conn (write_file p d)))
  = cmd_write_file R (write_file p d) (State w h (fresh_conn (write_file p d))).
Proof.
  unfold try_body, mbind, conn_recv, lift. cbn [cn inbox fresh_conn].
  unfold write_file at 1. rewrite get_cmd. reflexivity.
Qed.

Lemma try_body_read w h p :
  try_body R (State w h (fresh_conn (read_file p)))
  = cmd_read_file R (read_file p) (State w h (fresh_conn (read_file p))).
Proof.
  unfold try_body, mbind, conn_recv, lift. cbn [cn inbox fresh_conn].
  unfold read_file at 1. rewrite get_cmd. reflexivity.
Qed.

Lemma try_body_listdir w h p :
  try_body R (State w h (fresh_conn (listdir p)))
  = cmd_listdir R (listdir p) (State w h (fresh_conn (listdir p))).
Proof.
  unfold try_body, mbind, conn_recv, lift. cbn [cn inbox fresh_conn].
  unfold listdir at 1. rewrite get_cmd. reflexivity.
Qed.

(** What [send_to_worker] returns, from the outcome of the [try] body on a
    fresh connection. *)
Lemma send_to_worker_raise w h msg s' e :
  try_body R (State w h (fresh_conn msg)) = (s', inl e) ->
  send_to_worker R w h msg
  = (remote s', hs s', RDict "error" (str_of_exn e)).
Proof.
  intros E. pose proof (silent_try_body _ _ _ E) as Hc. cbn in Hc.
  unfold send_to_worker, serve_one, finally, catch. rewrite E.
  unfold conn_send, conn_close. rewrite Hc. reflexivity.
Qed.

(** What the [write_file] branch did when the caller got the ack. *)
Lemma write_ack_inv w h p d w1 h1 :
  send_to_worker R w h (write_file p d) = (w1, h1, RStr (lit "ok")) ->
  h1 = h /\
  exists sf raw w0 f wa,
    sftp h = Some sf /\ Utf8.encode d = inr raw
    /\ sftp_open R sf p ModeW w = (w0, inr f)
    /\ file_write R f raw w0 = (wa, inr tt)
    /\ file_close R f wa = (w1, inr tt).
Proof.
  destruct (try_body R (State w h (fresh_conn (write_file p d))))
    as [s' [e|[]]] eqn:E.
  { rewrite (send_to_worker_raise _ _ _ _ _ E). discriminate. }
  unfold send_to_worker, serve_one, finally, catch. rewrite E.
  revert E. rewrite try_body_write.
  unfold cmd_write_file, mbind, lift, get_handles.
  rewrite get_write_path, get_write_data. cbn [hs].
  destruct (sftp h) as [sf|]; cbn [handle as_text]; [|discriminate].
  unfold with_open, mbind, io, finally, lift. cbn [remote hs cn].
  destruct (sftp_open R sf p ModeW w) as [w0 [e|f]] eqn:Eo; [discriminate|].
  cbn [remote hs cn].
  destruct (Utf8.encode d) as [e|raw] eqn:Ee; cbn [remote hs cn].
  { destruct (file_close R f w0) as [w2 [e'|u]]; discriminate. }
  destruct (file_write R f raw w0) as [wa [e|[]]] eqn:Ew; cbn [remote hs cn].
  { destruct (file_close R f wa) as [w2 [e'|u]]; discriminate. }
  destruct (file_close R f wa) as [w2 [e'|[]]] eqn:Ec; [discriminate|].
  unfold conn_send, conn_close. cbn. intros [= <-]. cbn. intros [= <- <-].
  split; [reflexivity|]. exists sf, raw, w0, f, wa. auto.
Qed.

(** A [write_file] whose open, write and close succeed on the remote side
    is acknowledged, and the remote side is what the three left. *)
Lemma write_file_stores w h p d sf raw w0 f wa w2 :
  sftp h = Some sf ->
  Utf8.encode d = inr raw ->
  sftp_open R sf p ModeW w = (w0, inr f) ->
  file_write R f raw w0 = (wa, inr tt) ->
  file_close R f wa = (w2, inr tt) ->
  send_to_worker R w h (write_file p d) = (w2, h, RStr (lit "ok")).
Proof.
  intros Hsf He Ho Hw Hc.
  unfold send_to_worker, serve_one, finally, catch.
  rewrite try_body_write.
  unfold cmd_write_file, mbind, lift, get_handles.
  rewrite get_write_path, get_write_data. cbn [hs]. rewrite Hsf.
  cbn [handle as_text].
  unfold with_open, mbind, io, finally, lift. cbn [remote hs cn].
  rewrite Ho. cbn [remote hs cn]. rewrite He. cbn [remote hs cn].
  rewrite Hw. cbn [remote hs cn]. rewrite Hc. reflexivity.
Qed.

(** A [write_file] answered by the ack, then a [read_file] of the same
    path on the same session. *)
Lemma write_ack_then_read w h path data w1 h1 :
  stores_written R ->
  send_to_worker R w h (write_file path data) = (w1, h1, RStr (lit "ok")) ->
  exists w2,
    send_to_worker R w1 h1 (read_file path) = (w2, h1, RStr data).
Proof.
  intros law Hw.
  destruct (write_ack_inv _ _ _ _ _ _ Hw)
    as (-> & sf & raw & w0 & f & wa & Hsf & Henc & Ho & Hwr & Hc).
  destruct (law _ _ _ _ _ _ _ _ Ho Hwr Hc)
    as (g & w3 & w4 & w5 & Ho' & Hr & Hc').
  exists w5.
  unfold send_to_worker, serve_one, finally, catch.
  rewrite try_body_read.
  unfold cmd_read_file, mbind, lift, get_handles.
  rewrite get_read_path. cbn [hs]. rewrite Hsf. cbn [handle as_text].
  unfold with_open, mbind, io, finally, mret. cbn [remote hs cn].
  rewrite Ho'. cbn [remote hs cn]. rewrite Hr. cbn [remote hs cn].
  rewrite Hc'. cbn.
  rewrite (Utf8Facts.decode_encode _ _ Henc). reflexivity.
Qed.

(** C1: on one worker session with an SFTP store that keeps what was
    written (no concurrent external mutation), a [write_file(path, data)]
    answered by the ack ["ok"] followed by [read_file(path)] returns
    exactly [data]. *)
Theorem write_file_read_file_round_trip w h path data w1 h1 :
  stores_written R ->
  send_to_worker R w h (write_file path data) = (w1, h1, RStr (lit "ok")) ->
  exists w2,
    send_to_worker R w1 h1 (read_file path) = (w2, h1, RStr data).
Proof. apply write_ack_then_read. Qed.


Lemma listing_spec items acc res :
  listing items acc = inr res ->
  exists entries,
    res = acc ++ entries /\ map snd entries = map filename items.
Proof.
  revert acc. induction items as [|it items IH]; intros acc; cbn [listing].
  - intros [= <-]. exists []. rewrite app_nil_r. auto.
  - destruct (S_ISDIR (st_mode it)) as [e|d]; [discriminate|].
    cbn [bind]. intros H. destruct (IH _ H) as (entries & -> & Hn).
    eexists (_ :: entries). rewrite <- app_assoc. split; [reflexivity|].
    cbn. rewrite Hn. reflexivity.
Qed.

(** What the [listdir] branch did when the caller got a listing. *)
Lemma listdir_ok_inv w h p w' h' result :
  send_to_worker R w h (listdir p) = (w', h', RList result) ->
  exists sf items,
    listdir_attr R sf p w = (w', inr items)
    /\ listing items (if is_root_indicator p then []
                      else [(folder_icon, lit "..")]) = inr result.
Proof.
  destruct (try_body R (State w h (fresh_conn (listdir p))))
    as [s' [e|[]]] eqn:E.
  { rewrite (send_to_worker_raise _ _ _ _ _ E). discriminate. }
  unfold send_to_worker, serve_one, finally, catch. rewrite E.
  revert E. rewrite try_body_listdir.
  unfold cmd_listdir, mbind, lift, get_handles.
  rewrite get_listdir_path. cbn [hs].
  destruct (sftp h) as [sf|]; cbn [handle as_text]; [|discriminate].
  unfold io. cbn [remote hs cn].
  destruct (listdir_attr R sf p w) as [w0 [e|items]] eqn:El; [discriminate|].
  destruct (listing items _) as [e|res] eqn:Hl; [discriminate|].
  unfold conn_send, conn_close. cbn. intros [= <-]. cbn. intros [= <- _ <-].
  exists sf, items. auto.
Qed.

(** C2 (amended): a listing begins with the parent-navigation entry exactly
    when the path is none of ["."], ["/"] and the empty path. *)
Theorem listdir_parent_entry_iff w h path w' h' result :
  hides_dotdot R ->
  send_to_worker R w h (listdir path) = (w', h', RList result) ->
  head result = Some (folder_icon, lit "..")
  <-> (path <> lit "." /\ path <> lit "/" /\ path <> []).
Proof.
  intros Hdots Hsend.
  destruct (listdir_ok_inv _ _ _ _ _ _ Hsend) as (sf & items & Hl & Hres).
  pose proof (Hdots _ _ _ _ _ Hl) as Hnames.
  destruct (listing_spec _ _ _ Hres) as (entries & -> & Hn).
  unfold is_root_indicator.
  destruct (decide (path = lit ".")) as [->|N1].
  2: destruct (decide (path = lit "/")) as [->|N2].
  3: destruct (decide (path = [])) as [->|N3].
  4: { rewrite !bool_decide_eq_false_2 by assumption. cbn. tauto. }
  all: cbn [bool_decide orb app]; split; [|intros (? & ? & ?); congruence].
  all: destruct entries as [|[icon name] entries]; [discriminate|].
  all: destruct items as [|it items]; [discriminate|].
  all: cbn in Hn; injection Hn as Hname _.
  all: apply Forall_cons in Hnames as [Hne _].
  all: cbn; intros [= _ ->]; congruence.
Qed.

End Serve.

Import MemRemote.

(** C2 (as stated) fails: in a home directory that ["."] names, the
    listing of ["."] does not begin with the parent-navigation entry,
    while the listing of the same directory under its absolute name does. *)
Lemma listdir_dot_lacks_parent_entry :
  send_to_worker mem_remote home_world connected (listdir (lit "."))
  = (home_world, connected,
     RList [(folder_icon, lit "src"); (file_icon, lit "notes.txt")])
  /\ send_to_worker mem_remote home_world connected (listdir (lit "/home/u"))
    = (home_world, connected,
       RList [(folder_icon, lit ".."); (folder_icon, lit "src");
              (file_icon, lit "notes.txt")]).
Proof. split; vm_compute; reflexivity. Qed.

Lemma mem_hides_dotdot : hides_dotdot mem_remote.
Proof.
  intros sf path w w' items. cbn. unfold mem_listdir.
  destruct (mdirs w !! path) as [l|]; [|discriminate].
  intros [= _ <-]. apply List.Forall_forall. intros it Hin.
  apply List.filter_In in Hin as [_ Hs]. unfold is_special in Hs.
  intros Hn. rewrite Hn in Hs. discriminate.
Qed.

Lemma listdir_parent_entry_iff_witness :
  head [(folder_icon, lit ".."); (folder_icon, lit "src");
        (file_icon, lit "notes.txt")] = Some (folder_icon, lit "..")
  <-> (lit "/home/u" <> lit "." /\ lit "/home/u" <> lit "/"
       /\ lit "/home/u" <> []).
Proof.
  apply (listdir_parent_entry_iff mem_remote home_world connected
           (lit "/home/u") home_world connected _ mem_hides_dotdot).
  vm_compute. reflexivity.
Defined.

Lemma mem_stores_written : stores_written mem_remote.
Proof.
  intros sf path raw w w0 w1 w2 f. cbn.
  unfold mem_open, mem_write, mem_read.
  destruct (mdirs w !! path); [discriminate|].
  intros [= <- <-]. cbn [fst snd mfiles mdirs]. rewrite lookup_insert_eq.
  intros [= <-] [= <-]. cbn [fst snd mfiles mdirs]. rewrite lookup_insert_eq.
  eexists (path, ModeR), _, _, _. cbn [fst snd mfiles mdirs].
  split; [reflexivity|]. cbn [fst snd mfiles mdirs].
  rewrite lookup_insert_eq. split; reflexivity.
Qed.

Lemma write_file_read_file_round_trip_witness :
  let p := lit "/home/u/a.txt" in
  let d := [104; 233; 0x1F4C4] in
  let r := send_to_worker mem_remote home_world connected (write_file p d) in
  r.2 = RStr (lit "ok")
  /\ exists w2,
       send_to_worker mem_remote r.1.1 r.1.2 (read_file p)
       = (w2, r.1.2, RStr d).
Proof.
  intros p d r. split; [vm_compute; reflexivity|].
  apply (write_file_read_file_round_trip mem_remote home_world connected
           p d r.1.1 r.1.2 mem_stores_written).
  vm_compute. reflexivity.
Defined.



End WorkerFacts.

Module ReFacts.
Import Py Re.

(** No match anywhere: substitution and splitting leave the text alone. *)
Lemma search_false_cons r c s :
  search r (c :: s) = false -> match_at r (c :: s) = None /\ search r s = false.
Proof.
  cbn [search]. destruct (match_at r (c :: s)); [discriminate|]. auto.
Qed.

Lemma search_false_here r s : search r s = false -> match_at r s = None.
Proof.
  destruct s; cbn [search]; destruct (match_at r _); auto; discriminate.
Qed.

Lemma sub_id r repl s : search r s = false -> sub r repl s = s.
Proof.
  unfold sub. induction s as [|c s IH]; intros H.
  - cbn [sub_from]. rewrite (search_false_here _ _ H). reflexivity.
  - apply search_false_cons in H as [Hm Hs]. cbn [sub_from].
    rewrite Hm, IH by assumption. reflexivity.
Qed.

Lemma split_from_id r s cur :
  search r s = false -> split_from r s 0 cur = [cur ++ s].
Proof.
  revert cur. induction s as [|c s IH]; intros cur H.
  - cbn. rewrite app_nil_r. reflexivity.
  - apply search_false_cons in H as [Hm Hs]. cbn [split_from].
    rewrite Hm, IH by assumption. rewrite <- app_assoc. reflexivity.
Qed.

Lemma split_id r s : search r s = false -> split r s = [s].
Proof.
  intros H. unfold split. rewrite split_from_id by assumption. reflexivity.
Qed.

(** The skip counter walks over the matched text. *)
Lemma sub_from_skip r repl x y :
  sub_from r repl (x ++ y) (length x) = sub_from r repl y 0.
Proof. induction x as [|c x IH]; [reflexivity|]. cbn. exact IH. Qed.

Lemma sub_miss r repl c s :
  match_at r (c :: s) = None -> sub r repl (c :: s) = c :: sub r repl s.
Proof. intros H. unfold sub. cbn [sub_from]. rewrite H. reflexivity. Qed.

Lemma sub_hit r repl c m b g :
  match_at r (c :: m ++ b) = Some (b, g) ->
  sub r repl (c :: m ++ b) = repl ++ sub r repl b.
Proof.
  intros H. unfold sub. cbn [sub_from]. rewrite H.
  replace (length (c :: m ++ b) - length b)%nat with (S (length m))
    by (cbn; rewrite length_app; lia).
  rewrite sub_from_skip. reflexivity.
Qed.

Lemma findall_from_skip r x y :
  findall_from r (x ++ y) (length x) = findall_from r y 0.
Proof. induction x as [|c x IH]; [reflexivity|]. cbn. exact IH. Qed.

(** A greedy star before a continuation that accepts takes the longest
    run. *)
Lemma take_drop_while p s : take_while p s ++ drop_while p s = s.
Proof.
  induction s as [|c s IH]; [reflexivity|]. cbn.
  destruct (p c); [cbn; rewrite IH|]; reflexivity.
Qed.

Lemma star_greedy_accept {A} p s (f : str -> A) :
  star_greedy p s (fun s' => Some (f s')) = Some (f (drop_while p s)).
Proof.
  induction s as [|c s IH]; [reflexivity|]. cbn.
  destruct (p c); [rewrite IH|]; reflexivity.
Qed.

Lemma length_drop_while p s :
  (length s - length (drop_while p s))%nat = length (take_while p s).
Proof.
  rewrite <- (take_drop_while p s) at 1. rewrite length_app. lia.
Qed.

End ReFacts.

Module TerminalFacts.
Import Py Re Terminal TerminalSpec ReFacts.

(** *** The sentinel [n1n] *)

Lemma match_n1n_hit rest :
  match_at re_n1n (lit "n1n" ++ rest) = Some (rest, None).
Proof. reflexivity. Qed.

Lemma match_n1n_first3 s :
  match_at re_n1n s
  = if bool_decide (firstn 3 s = lit "n1n") then Some (skipn 3 s, None)
    else None.
Proof.
  change (lit "n1n") with [110; 49; 110].
  unfold match_at, re_n1n. change (lit "n1n") with [110; 49; 110].
  cbn [txt run].
  destruct s as [|a [|b [|c s]]]; cbn [firstn skipn];
    try (rewrite bool_decide_eq_false_2 by discriminate);
    repeat match goal with
           | |- context [?x =? ?n] => destruct (N.eqb_spec x n); subst
           end;
    try reflexivity;
    try reflexivity;
    rewrite bool_decide_eq_false_2 by congruence; reflexivity.
Qed.

Lemma sub_n1n_hit rest :
  sub re_n1n newline (lit "n1n" ++ rest) = newline ++ sub re_n1n newline rest.
Proof.
  change (lit "n1n" ++ rest) with (110 :: [49; 110] ++ rest).
  apply sub_hit with (g := None). reflexivity.
Qed.

(** Scanning from the left, the first occurrence of [n1n] becomes a
    newline and the scan resumes after it. *)
Lemma sub_n1n_first a b :
  search re_n1n (a ++ lit "n1") = false ->
  sub re_n1n newline (a ++ lit "n1n" ++ b)
  = a ++ newline ++ sub re_n1n newline b.
Proof.
  induction a as [|c a IH]; intros H.
  - apply sub_n1n_hit.
  - cbn [app] in H. apply search_false_cons in H as [Hm Hs].
    cbn [app]. rewrite sub_miss.
    + rewrite IH by assumption. reflexivity.
    + rewrite match_n1n_first3 in Hm |- *.
      replace (firstn 3 (c :: a ++ lit "n1n" ++ b))
        with (firstn 3 (c :: a ++ lit "n1"))
        by (destruct a as [|x [|y a]]; reflexivity).
      destruct (bool_decide _); [discriminate|reflexivity].
Qed.

Lemma sub_n1n_nil : sub re_n1n newline [] = [].
Proof. reflexivity. Qed.

(** *** Chunks without control forms *)

Lemma inserted_app o1 o2 : inserted (o1 ++ o2) = inserted o1 ++ inserted o2.
Proof. unfold inserted. apply flat_map_app. Qed.

Lemma clearLine_inserts_nothing n st : inserted (clearLine n st).2 = [].
Proof.
  unfold clearLine. destruct (writing st), (lastSize st); reflexivity.
Qed.

Lemma strip_controls_id Nd text :
  free_of (stripped_forms Nd) text = true -> strip_controls Nd text = text.
Proof.
  unfold free_of, stripped_forms. cbn [forallb].
  rewrite !andb_true_iff, !negb_true_iff.
  intros (H1 & H2 & H3 & H4 & H5 & H6 & H7 & H8 & H9 & H10 & H11 & _).
  unfold strip_controls.
  rewrite (sub_id re_osc _ _ H1), (sub_id re_bs _ _ H2),
    (sub_id re_bel _ _ H3), (sub_id re_paste _ _ H4),
    (sub_id re_cursor_erase _ _ H5), (sub_id re_query _ _ H6),
    (sub_id re_paste _ _ H4), (sub_id (re_move Nd) _ _ H7),
    (sub_id (re_rowcol Nd) _ _ H8), (sub_id re_query _ _ H6),
    (sub_id re_reset _ _ H9), (sub_id re_1Pm _ _ H10).
  reflexivity.
Qed.

Lemma insert_chunk_untagged chunk :
  insert_chunk chunk ""
  = inr (match chunk with
         | [] => []
         | _ => [Insert (sub re_n1n newline chunk) None]
         end).
Proof. destruct chunk; reflexivity. Qed.

(** A chunk free of control forms is inserted once, untagged, with the
    sentinel rewritten. *)
Lemma write_ansi_plain Nd el st text :
  free_of (stripped_forms Nd) text = true ->
  exists st' ops,
    write_ansi Nd el st text = inr (st', ops)
    /\ inserted ops = map (fun c => (c, None)) (sub re_n1n newline text).
Proof.
  intros H. unfold write_ansi. rewrite (strip_controls_id _ _ H).
  assert (Hs : search ansi_escape text = false).
  { revert H. unfold free_of, stripped_forms. cbn [forallb].
    rewrite !andb_true_iff, !negb_true_iff. tauto. }
  rewrite (split_id _ _ Hs). cbn [render_parts].
  rewrite insert_chunk_untagged.
  destruct (detect st).
  - pose proof (clearLine_inserts_nothing (length text) st) as Hc.
    destruct (clearLine (length text) st) as [st1 o]. cbn [snd] in Hc.
    cbn [bind ret]. eexists _, _. split; [reflexivity|].
    rewrite !inserted_app, Hc.
    destruct (retracts el text), text; cbn; rewrite ?app_nil_r; reflexivity.
  - cbn [bind ret]. eexists _, _. split; [reflexivity|].
    rewrite !inserted_app.
    destruct (retracts el text), text; cbn; rewrite ?app_nil_r; reflexivity.
Qed.

End TerminalFacts.

Module TerminalClaims.
Import Py Re Terminal TerminalSpec ReFacts TerminalFacts.

(** C4 (amended): a chunk in which no pattern that [write_ansi] strips
    occurs (the recognized forms, and also CSI cursor moves A-G and
    CSI 1Pm) and that does not contain the sentinel [n1n] is inserted
    unchanged and untagged, and the call returns normally. *)
Theorem plain_chunk_inserted_unchanged Nd el st text :
  free_of (stripped_forms Nd) text = true ->
  search re_n1n text = false ->
  exists st' ops,
    write_ansi Nd el st text = inr (st', ops)
    /\ inserted ops = map (fun c => (c, None)) text.
Proof.
  intros H Hn.
  destruct (write_ansi_plain Nd el st text H) as (st' & ops & E & Hi).
  exists st', ops. split; [exact E|].
  rewrite Hi, (sub_id _ _ _ Hn). reflexivity.
Qed.

Lemma plain_chunk_inserted_unchanged_witness :
  exists st' ops,
    write_ansi no_digits_beyond_ascii false fresh_term
      (lit "ls -la " ++ esc "[5Z" ++ lit " done") = inr (st', ops)
    /\ inserted ops
       = map (fun c => (c, None)) (lit "ls -la " ++ esc "[5Z" ++ lit " done").
Proof.
  apply plain_chunk_inserted_unchanged; vm_compute; reflexivity.
Defined.

(** C4 (as stated) fails: chunks without any recognized control form that
    are not inserted unchanged. *)
Lemma recognized_free_chunk_altered :
  ~ (forall Nd el st text,
       free_of recognized_forms text = true ->
       inserted_text (ops_of (write_ansi Nd el st text)) = text).
Proof.
  intros H.
  specialize (H no_digits_beyond_ascii false fresh_term (lit "n1n")).
  vm_compute in H. specialize (H eq_refl). discriminate.
Qed.

(** *** The sentinel *)

Lemma inserted_text_app o1 o2 :
  inserted_text (o1 ++ o2) = inserted_text o1 ++ inserted_text o2.
Proof. unfold inserted_text. rewrite inserted_app. apply map_app. Qed.

Lemma inserted_text_insert t tag os :
  inserted_text (Insert t tag :: os) = t ++ inserted_text os.
Proof.
  unfold inserted_text, inserted. cbn [flat_map]. rewrite map_app, map_map.
  cbn [fst]. rewrite map_id. reflexivity.
Qed.

Lemma sub_n1n_miss c s :
  firstn 3 (c :: s) <> lit "n1n" ->
  sub re_n1n newline (c :: s) = c :: sub re_n1n newline s.
Proof.
  intros H. apply sub_miss. rewrite match_n1n_first3.
  rewrite bool_decide_eq_false_2 by exact H. reflexivity.
Qed.

Lemma first3_n1n c s :
  firstn 3 (c :: s) = lit "n1n" -> exists s', c :: s = lit "n1n" ++ s'.
Proof.
  change (lit "n1n") with [110; 49; 110].
  destruct s as [|d [|e s']]; cbn [firstn]; try discriminate.
  intros [= -> -> ->]. exists s'. reflexivity.
Qed.

(** A blank stops the scan for the sentinel: the text before it and the
    text after it are rewritten apart. *)
Lemma sub_n1n_blank_upto n :
  forall a b, (length a <= n)%nat ->
    sub re_n1n newline (a ++ 32 :: b)
    = sub re_n1n newline a ++ 32 :: sub re_n1n newline b.
Proof.
  assert (Hblank : forall b, sub re_n1n newline (32 :: b)
                             = 32 :: sub re_n1n newline b).
  { intros b. apply sub_n1n_miss.
    change (lit "n1n") with [110; 49; 110]. cbn [firstn]. discriminate. }
  induction n as [|n IH]; intros a b Hn.
  { destruct a; [|cbn in Hn; lia]. apply Hblank. }
  destruct a as [|c a]; [apply Hblank|].
  destruct (decide (firstn 3 (c :: a) = lit "n1n")) as [Hy|Hno].
  - destruct (first3_n1n _ _ Hy) as [a' E]. rewrite E.
    rewrite <- app_assoc, !sub_n1n_hit, <- app_assoc. f_equal.
    apply IH. apply (f_equal (@length N)) in E.
    change (lit "n1n") with [110; 49; 110] in E. cbn in E, Hn. lia.
  - rewrite (sub_n1n_miss _ _ Hno). cbn [app]. rewrite sub_n1n_miss.
    + rewrite IH by (cbn in Hn; lia). reflexivity.
    + revert Hno. change (lit "n1n") with [110; 49; 110].
      destruct a as [|d [|e a']]; cbn [firstn app]; intros H1 H2;
        first [ discriminate H2 | exact (H1 H2) ].
Qed.

Lemma sub_n1n_blank a b :
  sub re_n1n newline (a ++ 32 :: b)
  = sub re_n1n newline a ++ 32 :: sub re_n1n newline b.
Proof. apply (sub_n1n_blank_upto (length a)). lia. Qed.

Lemma sub_n1n_join ts :
  sub re_n1n newline (join [32] ts)
  = join [32] (map (sub re_n1n newline) ts).
Proof.
  induction ts as [|x ts IH]; [reflexivity|].
  destruct ts as [|y ts]; [reflexivity|].
  change (join [32] (x :: y :: ts)) with (x ++ 32 :: join [32] (y :: ts)).
  rewrite sub_n1n_blank, IH. reflexivity.
Qed.

(** What [insert_chunk] inserts is the run as laid out, with the sentinel
    rewritten from the left. *)
Lemma insert_chunk_text chunk tag :
  exists ops,
    insert_chunk chunk tag = inr ops
    /\ inserted_text ops = sub re_n1n newline (laid_out chunk tag).
Proof.
  unfold insert_chunk, laid_out, try_insert.
  destruct chunk as [|c chunk]; [exists []; split; reflexivity|].
  destruct (String.eqb tag "").
  { eexists. split; [reflexivity|]. rewrite inserted_text_insert.
    apply app_nil_r. }
  destruct (findall re_token (c :: chunk)) as [|t ts].
  { eexists. split; [reflexivity|]. rewrite inserted_text_insert.
    apply app_nil_r. }
  eexists. split; [reflexivity|]. cbn [map tail].
  rewrite !inserted_text_insert. cbn [app].
  change (inserted_text []) with (@nil N). rewrite app_nil_r.
  rewrite sub_n1n_blank, sub_n1n_join, <- app_assoc. reflexivity.
Qed.

Lemma render_parts_text n : forall parts tag,
  (length parts <= n)%nat ->
  exists ops,
    render_parts parts tag = inr ops
    /\ inserted_text ops
       = flat_map (sub re_n1n newline) (laid_out_parts parts tag).
Proof.
  induction n as [|n IH]; intros parts tag Hn.
  { destruct parts; [|cbn in Hn; lia]. exists []. split; reflexivity. }
  destruct parts as [|chunk [|code rest]].
  - exists []. split; reflexivity.
  - cbn [render_parts laid_out_parts flat_map]. rewrite app_nil_r.
    apply insert_chunk_text.
  - cbn [render_parts laid_out_parts flat_map].
    destruct (insert_chunk_text chunk (apply_sgr tag code))
      as (o & -> & Ho).
    destruct (IH rest (apply_sgr tag code)) as (os & -> & Hos);
      [cbn in Hn; lia|].
    exists (o ++ os). split; [reflexivity|].
    rewrite inserted_text_app, Ho, Hos. reflexivity.
Qed.

(** After the rewrite no sentinel is left. *)
Lemma sub_n1n_head s :
  s = []
  \/ (exists s', s = lit "n1n" ++ s'
                 /\ sub re_n1n newline s = 10 :: sub re_n1n newline s')
  \/ (exists c s', s = c :: s' /\ firstn 3 s <> lit "n1n"
                   /\ sub re_n1n newline s = c :: sub re_n1n newline s').
Proof.
  destruct s as [|c s]; [left; reflexivity|]. right.
  destruct (decide (firstn 3 (c :: s) = lit "n1n")) as [Hy|Hno].
  - left. destruct (first3_n1n _ _ Hy) as [s' E]. exists s'.
    split; [exact E|]. rewrite E. apply sub_n1n_hit.
  - right. exists c, s. split; [reflexivity|]. split; [exact Hno|].
    apply sub_n1n_miss. exact Hno.
Qed.

Lemma sub_n1n_keeps_miss c s :
  firstn 3 (c :: s) <> lit "n1n" ->
  firstn 3 (c :: sub re_n1n newline s) <> lit "n1n".
Proof.
  change (lit "n1n") with [110; 49; 110]. intros Hno.
  destruct (sub_n1n_head s) as [->|[(s' & -> & ->)|(d & s' & -> & H1 & ->)]].
  - exact Hno.
  - cbn [firstn]. discriminate.
  - destruct (sub_n1n_head s')
      as [->|[(s'' & -> & ->)|(e & s'' & -> & H2 & ->)]].
    + exact Hno.
    + cbn [firstn]. discriminate.
    + cbn [firstn] in Hno |- *. exact Hno.
Qed.

Lemma sub_n1n_leaves_none_upto n :
  forall s, (length s <= n)%nat ->
    search re_n1n (sub re_n1n newline s) = false.
Proof.
  induction n as [|n IH]; intros s Hn.
  { destruct s; [reflexivity|cbn in Hn; lia]. }
  destruct (sub_n1n_head s) as [->|[(s' & -> & ->)|(c & s' & -> & Hno & ->)]].
  - reflexivity.
  - cbn [search]. rewrite match_n1n_first3.
    rewrite bool_decide_eq_false_2
      by (change (lit "n1n") with [110; 49; 110]; cbn [firstn];
          discriminate).
    apply IH. change (lit "n1n") with [110; 49; 110] in Hn. cbn in Hn. lia.
  - cbn [search]. rewrite match_n1n_first3.
    rewrite bool_decide_eq_false_2 by (apply sub_n1n_keeps_miss; exact Hno).
    apply IH. cbn in Hn. lia.
Qed.

(** C9 (amended): whatever the chunk, with or without OSC, each literal
    run is inserted as the rewrite of [n1n] to a newline, scanning from the
    left, of the run as laid out.  In that scan an occurrence of [n1n]
    that no earlier occurrence reaches into becomes one newline, what
    precedes it stays and the scan goes on after it; and no [n1n] is left
    in what is inserted. *)
Theorem n1n_inserted_as_newline Nd el st chunk :
  (exists st' ops,
     write_ansi Nd el st chunk = inr (st', ops)
     /\ inserted_text ops
        = flat_map (sub re_n1n newline)
            (laid_out_parts (split ansi_escape (strip_controls Nd chunk))
               ""))
  /\ (forall a b,
        search re_n1n (a ++ lit "n1") = false ->
        sub re_n1n newline (a ++ lit "n1n" ++ b)
        = a ++ newline ++ sub re_n1n newline b)
  /\ (forall run, search re_n1n (sub re_n1n newline run) = false).
Proof.
  split; [|split].
  - unfold write_ansi.
    set (parts := split ansi_escape (strip_controls Nd chunk)).
    destruct (render_parts_text (length parts) parts "" (le_n _))
      as (o & -> & Ho).
    destruct (detect st).
    + pose proof (clearLine_inserts_nothing
                    (length (strip_controls Nd chunk)) st) as Hc.
      destruct (clearLine (length (strip_controls Nd chunk)) st)
        as [st1 oc]. cbn [snd] in Hc. cbn [bind ret].
      eexists _, _. split; [reflexivity|].
      rewrite !inserted_text_app. unfold inserted_text at 2. rewrite Hc.
      destruct (retracts el chunk); cbn [map app];
        rewrite <- Ho; unfold inserted_text, inserted; cbn [flat_map];
        rewrite ?app_nil_r; reflexivity.
    + cbn [bind ret]. eexists _, _. split; [reflexivity|].
      rewrite !inserted_text_app.
      destruct (retracts el chunk); cbn [map app];
        rewrite <- Ho; unfold inserted_text, inserted; cbn [flat_map];
        rewrite ?app_nil_r; reflexivity.
  - intros a b. apply sub_n1n_first.
  - intros run. apply (sub_n1n_leaves_none_upto (length run)). lia.
Qed.

Lemma n1n_inserted_as_newline_witness :
  (exists st' ops,
     write_ansi no_digits_beyond_ascii false fresh_term
       (esc "[31m" ++ lit " an1nb n1n") = inr (st', ops)
     /\ inserted_text ops = lit "a" ++ newline ++ lit "b " ++ newline)
  /\ sub re_n1n newline (lit "run" ++ lit "n1n" ++ lit "n1n.")
     = lit "run" ++ newline ++ sub re_n1n newline (lit "n1n.").
Proof.
  destruct (n1n_inserted_as_newline no_digits_beyond_ascii false
              fresh_term (esc "[31m" ++ lit " an1nb n1n"))
    as (H1 & H2 & _).
  split; [exact H1|]. apply H2. reflexivity.
Defined.

(** C9 (as stated) fails: of the two occurrences of [n1n] in [n1n1n] only
    the first becomes a newline. *)
Lemma overlapping_n1n_kept :
  ~ (forall Nd el st a b,
       inserted_text (ops_of (write_ansi Nd el st (a ++ lit "n1n" ++ b)))
       = inserted_text (ops_of (write_ansi Nd el st a)) ++ newline
         ++ inserted_text (ops_of (write_ansi Nd el st b))).
Proof.
  intros H.
  specialize (H no_digits_beyond_ascii false fresh_term (lit "n1") []).
  vm_compute in H. discriminate.
Qed.

(** *** The fallback of the rendering loop *)

Lemma try_insert_raises chunk tag e :
  try_insert chunk tag = inl e ->
  tag = "" \/ findall re_token chunk = [].
Proof.
  unfold try_insert. destruct (String.eqb_spec tag ""); [auto|].
  cbn [bind ret]. destruct (findall re_token chunk); [auto|]. discriminate.
Qed.

(** C8 (amended): when the [try] of the rendering loop raises (the tag is
    empty, or the run has no token), nothing has been inserted yet and the
    handler inserts, untagged, the run with the sentinel [n1n] rewritten to
    a newline; a run without [n1n] is inserted verbatim. *)
Theorem fallback_inserts_run chunk tag e :
  try_insert chunk tag = inl e ->
  exists ops,
    insert_chunk chunk tag = inr ops
    /\ inserted ops = map (fun c => (c, None)) (sub re_n1n newline chunk)
    /\ (search re_n1n chunk = false ->
        inserted ops = map (fun c => (c, None)) chunk).
Proof.
  intros E. unfold insert_chunk. rewrite E.
  destruct chunk as [|c chunk].
  - exists []. repeat split; reflexivity.
  - eexists. split; [reflexivity|].
    assert (Hi : inserted [Insert (sub re_n1n newline (c :: chunk)) None]
                 = map (fun c => (c, None)) (sub re_n1n newline (c :: chunk))).
    { unfold inserted. cbn [flat_map]. apply app_nil_r. }
    split; [exact Hi|]. intros Hn. rewrite Hi, (sub_id _ _ _ Hn). reflexivity.
Qed.

Lemma fallback_inserts_run_witness :
  exists ops,
    insert_chunk (lit "  ") "ansi_red" = inr ops
    /\ inserted ops = map (fun c => (c, None)) (sub re_n1n newline (lit "  "))
    /\ (search re_n1n (lit "  ") = false ->
        inserted ops = map (fun c => (c, None)) (lit "  ")).
Proof.
  apply (fallback_inserts_run (lit "  ") "ansi_red" IndexError).
  vm_compute. reflexivity.
Defined.

(** C8 (as stated) fails: the fallback does not insert the run [n1n]
    verbatim. *)
Lemma fallback_rewrites_n1n :
  ~ (forall chunk tag e,
       try_insert chunk tag = inl e ->
       insert_chunk chunk tag = inr [Insert chunk None]).
Proof.
  intros H. specialize (H (lit "n1n") "" ZeroDivisionError eq_refl).
  vm_compute in H. discriminate.
Qed.

(** On the path without exception the tokens are joined again with single
    blanks: other whitespace of the run, here a line break, is not kept. *)
Lemma tagged_run_whitespace_rejoined :
  insert_chunk (lit "a" ++ [13; 10] ++ lit "b") "ansi_red"
  = inr [Insert (lit "a ") (Some "ansi_red"); Insert (lit "b") None].
Proof. vm_compute. reflexivity. Qed.

(** *** Tokens of a run *)

Lemma is_space_not_quote c :
  is_space c = true -> (c =? 34) = false /\ (c =? 39) = false.
Proof.
  intros H. split; apply N.eqb_neq; intros ->; vm_compute in H; discriminate.
Qed.

Lemma match_token_space c s :
  is_space c = true -> match_at re_token (c :: s) = None.
Proof.
  intros H. destruct (is_space_not_quote c H) as [H1 H2].
  unfold match_at, re_token, non_space. cbn [run seq].
  rewrite H1, H2, H. reflexivity.
Qed.

Lemma match_token_word c s :
  is_space c = false -> (c =? 34) = false -> (c =? 39) = false ->
  match_at re_token (c :: s) = Some (drop_while non_space s, None).
Proof.
  intros H H1 H2. unfold match_at, re_token. cbn [run seq].
  rewrite H1, H2. unfold non_space at 1. rewrite H. cbn [negb].
  apply (star_greedy_accept non_space s (fun s' => (s', None))).
Qed.

Lemma firstn_take_while p s :
  firstn (length (take_while p s)) s = take_while p s.
Proof.
  induction s as [|c s IH]; [reflexivity|]. cbn.
  destruct (p c); [cbn; rewrite IH|]; reflexivity.
Qed.

Lemma findall_token_space c s :
  is_space c = true ->
  findall re_token (c :: s) = findall re_token s.
Proof.
  intros H. unfold findall. cbn [findall_from].
  rewrite (match_token_space _ _ H). reflexivity.
Qed.

Lemma findall_token_word c s :
  is_space c = false -> (c =? 34) = false -> (c =? 39) = false ->
  findall re_token (c :: s)
  = (c :: take_while non_space s)
      :: findall re_token (drop_while non_space s).
Proof.
  intros H H1 H2. unfold findall. cbn [findall_from].
  rewrite (match_token_word _ _ H H1 H2).
  replace (length (c :: s) - length (drop_while non_space s))%nat
    with (S (length (take_while non_space s))).
  - cbn [firstn]. rewrite firstn_take_while. f_equal.
    rewrite <- (take_drop_while non_space s) at 1.
    apply findall_from_skip.
  - rewrite <- length_drop_while. cbn [length].
    assert (length (drop_while non_space s) <= length s)%nat; [|lia].
    rewrite <- (take_drop_while non_space s) at 2. rewrite length_app. lia.
Qed.

Lemma words_cons c s :
  words (c :: s)
  = if is_space c then words s
    else match s with
         | [] => [[c]]
         | c' :: _ =>
             if is_space c' then [c] :: words s
             else match words s with
                  | w :: ws => (c :: w) :: ws
                  | [] => [[c]]
                  end
         end.
Proof. reflexivity. Qed.

Lemma words_word c s :
  is_space c = false ->
  words (c :: s)
  = (c :: take_while non_space s) :: words (drop_while non_space s).
Proof.
  revert c. induction s as [|c' s IH]; intros c H.
  - rewrite words_cons, H. reflexivity.
  - rewrite words_cons, H. cbn [take_while drop_while]. unfold non_space at 1 3.
    destruct (is_space c') eqn:H'; cbn [negb].
    + reflexivity.
    + rewrite (IH c' H'). reflexivity.
Qed.

Lemma quote_free_drop_while p s :
  quote_free s = true -> quote_free (drop_while p s) = true.
Proof.
  induction s as [|c s IH]; [auto|]. cbn [drop_while].
  destruct (p c); [|auto]. cbn [quote_free forallb].
  intros H. apply andb_prop in H as [_ H]. auto.
Qed.

Lemma length_drop_while_le p s :
  (length (drop_while p s) <= length s)%nat.
Proof.
  rewrite <- (take_drop_while p s) at 2. rewrite length_app. lia.
Qed.

(** Without quote characters the tokenizer of the rendering loop finds
    the whitespace-delimited tokens. *)
Lemma findall_token_words s :
  quote_free s = true -> findall re_token s = words s.
Proof.
  remember (length s) as n eqn:Hn.
  assert (Hle : (length s <= n)%nat) by lia. clear Hn.
  revert s Hle. induction n as [|n IH]; intros s Hle Hq.
  - destruct s; [reflexivity|cbn in Hle; lia].
  - destruct s as [|c s]; [reflexivity|].
    cbn [quote_free forallb] in Hq. apply andb_prop in Hq as [Hc Hq].
    apply andb_prop in Hc as [H1 H2].
    apply negb_true_iff in H1, H2.
    destruct (is_space c) eqn:Hs.
    + rewrite (findall_token_space _ _ Hs). cbn [words]. rewrite Hs.
      apply IH; [cbn in Hle; lia | exact Hq].
    + rewrite (findall_token_word _ _ Hs H1 H2), (words_word _ _ Hs).
      f_equal. apply IH.
      * pose proof (length_drop_while_le non_space s). cbn in Hle. lia.
      * apply quote_free_drop_while. exact Hq.
Qed.

(** *** Quoted spans *)

Lemma star_greedy_longest {A} p s (k : str -> option A) a :
  k (drop_while p s) = Some a -> star_greedy p s k = Some a.
Proof.
  induction s as [|c s IH]; cbn [drop_while star_greedy]; [auto|].
  destruct (p c); [|auto]. intros H. rewrite (IH H). reflexivity.
Qed.

Lemma star_greedy_never {A} p s (k : str -> option A) :
  (forall t, (exists u, s = u ++ t) -> k t = None) ->
  star_greedy p s k = None.
Proof.
  induction s as [|c s IH]; intros Hk; cbn [star_greedy].
  - apply Hk. exists []. reflexivity.
  - rewrite IH.
    + rewrite (Hk (c :: s)) by (exists []; reflexivity).
      destruct (p c); reflexivity.
    + intros t [u ->]. apply Hk. exists (c :: u). reflexivity.
Qed.

Lemma contains_false q s :
  contains q s = false -> Forall (fun d => (d =? q) = false) s.
Proof.
  unfold contains. induction s as [|d s IH]; cbn [existsb]; intros H.
  - constructor.
  - apply orb_false_elim in H as [H1 H2]. constructor; [|auto].
    rewrite N.eqb_sym. exact H1.
Qed.

Lemma contains_drop_while q s :
  contains q s = true ->
  exists rest, drop_while (not_char q) s = q :: rest.
Proof.
  unfold contains. induction s as [|d s IH]; cbn [existsb]; [discriminate|].
  cbn [drop_while]. unfold not_char at 1. rewrite (N.eqb_sym q d).
  destruct (d =? q) eqn:E; cbn [negb orb].
  - apply N.eqb_eq in E. subst d. eauto.
  - exact IH.
Qed.

(** A quoted span: the quote, the longest run without it, the quote. *)
Lemma run_quoted q c s :
  run (seq [Chr q; Star (not_char q); Chr q]) (c :: s) None
    (fun s' g => Some (s', g))
  = if (c =? q) && contains q s
    then Some (tail (drop_while (not_char q) s), None)
    else None.
Proof.
  cbn [seq run]. destruct (c =? q); [|reflexivity]. cbn [andb].
  destruct (contains q s) eqn:Hq.
  - apply star_greedy_longest.
    destruct (contains_drop_while _ _ Hq) as [rest ->].
    rewrite N.eqb_refl. reflexivity.
  - apply star_greedy_never. intros t [u ->].
    destruct t as [|d t]; [reflexivity|].
    apply contains_false in Hq. apply Forall_app in Hq as [_ Hq].
    apply Forall_inv in Hq. rewrite Hq. reflexivity.
Qed.

Lemma match_token_split c s :
  is_space c = false ->
  match_at re_token (c :: s) = Some ((token_split (c :: s)).2, None).
Proof.
  intros Hs. unfold match_at, re_token. cbn [run].
  rewrite !run_quoted. unfold token_split, is_quote.
  destruct (c =? 34) eqn:E34; cbn [andb orb].
  - apply N.eqb_eq in E34. subst c.
    destruct (contains 34 s); [reflexivity|].
    change (34 =? 39) with false. cbn [andb]. unfold non_space at 1.
    rewrite Hs. cbn [negb run].
    apply (star_greedy_accept non_space s (fun s' => (s', None))).
  - destruct (c =? 39) eqn:E39; cbn [andb].
    + apply N.eqb_eq in E39. subst c.
      destruct (contains 39 s); [reflexivity|].
      unfold non_space at 1. rewrite Hs. cbn [negb run].
      apply (star_greedy_accept non_space s (fun s' => (s', None))).
    + unfold non_space at 1. rewrite Hs. cbn [negb run].
      apply (star_greedy_accept non_space s (fun s' => (s', None))).
Qed.

Lemma take_tail_drop_while q s :
  contains q s = true ->
  (take_while (not_char q) s ++ [q]) ++ tail (drop_while (not_char q) s)
  = s.
Proof.
  intros Hq. destruct (contains_drop_while _ _ Hq) as [rest E].
  rewrite E. cbn [tail]. rewrite <- app_assoc. cbn [app].
  rewrite <- E. apply take_drop_while.
Qed.

(** The token and what is left make up the text. *)
Lemma token_split_app c s :
  exists tok,
    (token_split (c :: s)).1 = c :: tok
    /\ (c :: tok) ++ (token_split (c :: s)).2 = c :: s.
Proof.
  unfold token_split.
  destruct (is_quote c && contains c s) eqn:E; cbn [fst snd].
  - apply andb_prop in E as [_ E]. eexists. split; [reflexivity|].
    cbn [app]. f_equal. apply take_tail_drop_while. exact E.
  - eexists. split; [reflexivity|]. cbn [app]. f_equal.
    apply take_drop_while.
Qed.

Lemma findall_token_first c s :
  is_space c = false ->
  findall re_token (c :: s)
  = (token_split (c :: s)).1
      :: findall re_token (token_split (c :: s)).2.
Proof.
  intros Hs. unfold findall. cbn [findall_from].
  rewrite (match_token_split _ _ Hs).
  destruct (token_split_app c s) as (tok & E1 & E2).
  rewrite E1. set (rest := (token_split (c :: s)).2) in *.
  injection E2 as E2.
  replace (length (c :: s) - length rest)%nat with (S (length tok))
    by (rewrite <- E2; cbn [length]; rewrite length_app; lia).
  rewrite <- E2. cbn [firstn]. rewrite firstn_app, Nat.sub_diag, firstn_all.
  cbn [firstn]. rewrite app_nil_r. f_equal. apply findall_from_skip.
Qed.

Lemma drop_while_space_head c s run :
  drop_while is_space run = c :: s -> is_space c = false.
Proof.
  induction run as [|d run IH]; cbn [drop_while]; [discriminate|].
  destruct (is_space d) eqn:E; [exact IH|]. intros [= <- <-]. exact E.
Qed.

Lemma findall_token_skip run :
  findall re_token run = findall re_token (drop_while is_space run).
Proof.
  induction run as [|d run IH]; [reflexivity|]. cbn [drop_while].
  destruct (is_space d) eqn:E; [|reflexivity].
  rewrite (findall_token_space _ _ E). exact IH.
Qed.

(** The tokenizer, one token at a time. *)
Lemma findall_token_unfold run :
  findall re_token run
  = match drop_while is_space run with
    | [] => []
    | _ => first_token run :: findall re_token (after_first_token run)
    end.
Proof.
  rewrite findall_token_skip. unfold first_token, after_first_token.
  destruct (drop_while is_space run) as [|c s] eqn:E; [reflexivity|].
  apply findall_token_first. exact (drop_while_space_head _ _ _ E).
Qed.

Lemma words_skip run : words run = words (drop_while is_space run).
Proof.
  induction run as [|d run IH]; [reflexivity|]. cbn [drop_while].
  destruct (is_space d) eqn:E; [|reflexivity].
  rewrite words_cons, E. exact IH.
Qed.

(** A token that opens no quoted span is the first word. *)
Lemma first_token_first_word run :
  opens_span run = false -> first_token run = hd [] (words run).
Proof.
  unfold opens_span, first_token. rewrite words_skip.
  destruct (drop_while is_space run) as [|c s] eqn:E; [reflexivity|].
  intros H. unfold token_split. rewrite H. cbn [fst].
  rewrite (words_word _ _ (drop_while_space_head _ _ _ E)). reflexivity.
Qed.

Lemma length_drop_while_space s :
  (length (drop_while is_space s) <= length s)%nat.
Proof. apply length_drop_while_le. Qed.

Lemma token_split_shorter c s :
  (length (token_split (c :: s)).2 < length (c :: s))%nat.
Proof.
  destruct (token_split_app c s) as (tok & _ & E).
  apply (f_equal (@length N)) in E. rewrite length_app in E.
  cbn [length] in E |- *. lia.
Qed.

(** The pattern of the rendering loop finds the tokens of
    [token_split]. *)
Lemma findall_token_tokens_upto n :
  forall s, (length s <= n)%nat -> findall re_token s = tokens_upto n s.
Proof.
  induction n as [|n IH]; intros s Hn.
  { destruct s; [reflexivity|cbn in Hn; lia]. }
  rewrite findall_token_unfold. cbn [tokens_upto].
  unfold first_token, after_first_token.
  pose proof (length_drop_while_space s) as Hd.
  destruct (drop_while is_space s) as [|c r] eqn:E; [reflexivity|].
  f_equal. apply IH.
  pose proof (token_split_shorter c r). lia.
Qed.

Lemma findall_token_tokens s : findall re_token s = tokens s.
Proof. apply findall_token_tokens_upto. lia. Qed.

(** C7 (amended): under a non-empty tag, a run with at least one
    non-blank character is inserted as its first token and one blank,
    tagged, followed by its other tokens joined by single blanks,
    untagged, the sentinel [n1n] rewritten inside each token.  The tokens
    are those of [token_split]: a quoted span is one token, blanks and
    all.  Unless the first non-blank character opens a quoted span, the
    first token is the first whitespace-delimited token; in a run without
    quote characters all tokens are the whitespace-delimited ones. *)
Theorem first_token_tagged_rest_plain run tag :
  tag <> "" ->
  forallb is_space run = false ->
  exists ts,
    tokens run = first_token run :: ts
    /\ insert_chunk run tag
       = inr [Insert (sub re_n1n newline (first_token run) ++ [32])
                (Some tag);
              Insert (join [32] (map (sub re_n1n newline) ts)) None]
    /\ (opens_span run = false -> first_token run = hd [] (words run))
    /\ (quote_free run = true -> first_token run :: ts = words run).
Proof.
  intros Htag Htok.
  assert (Hd : drop_while is_space run <> []).
  { intros E. revert Htok E. clear. induction run as [|c run IH];
      [discriminate|]. cbn [forallb drop_while].
    destruct (is_space c); [exact IH|discriminate]. }
  assert (Hf : findall re_token run
               = first_token run
                   :: findall re_token (after_first_token run)).
  { rewrite findall_token_unfold at 1.
    destruct (drop_while is_space run); [contradiction|reflexivity]. }
  exists (findall re_token (after_first_token run)).
  split; [|split; [|split]].
  - rewrite <- findall_token_tokens. exact Hf.
  - unfold insert_chunk, try_insert. rewrite Hf.
    destruct run as [|c run]; [discriminate|].
    destruct (String.eqb_spec tag ""); [contradiction|]. reflexivity.
  - apply first_token_first_word.
  - intros Hq. rewrite <- Hf. apply findall_token_words. exact Hq.
Qed.

Lemma first_token_tagged_rest_plain_witness :
  exists ts,
    tokens (lit "can't  open 'my file'  now") = lit "can't" :: ts
    /\ insert_chunk (lit "can't  open 'my file'  now") "ansi_bold_green"
       = inr [Insert (lit "can't ") (Some "ansi_bold_green");
              Insert (lit "open 'my file' now") None].
Proof.
  destruct (first_token_tagged_rest_plain
              (lit "can't  open 'my file'  now") "ansi_bold_green"
              ltac:(discriminate) ltac:(vm_compute; reflexivity))
    as (ts & Ht & Hi & _).
  exists ts. split; [exact Ht|].
  rewrite Hi. revert Ht. vm_compute. intros [= <-]. reflexivity.
Defined.

(** C7 (as stated) fails: in a run with a quoted span the second
    whitespace-delimited token is inserted tagged, inside the first
    insertion. *)
Lemma quoted_span_tagged_whole :
  ~ (forall run tag t ts,
       tag <> "" -> words run = t :: ts ->
       insert_chunk run tag
       = inr [Insert (t ++ [32]) (Some tag); Insert (join [32] ts) None]).
Proof.
  intros H.
  specialize (H (34 :: lit "a b" ++ [34]) "ansi_red"
                (34 :: lit "a") [lit "b" ++ [34]]).
  vm_compute in H.
  specialize (H ltac:(discriminate) eq_refl). discriminate.
Qed.

(** *** The attribute tracker *)

Lemma split_on_no_sep sep s :
  contains sep s = false -> split_on sep s = [s].
Proof.
  induction s as [|c s IH]; [reflexivity|]. cbn [contains existsb].
  rewrite N.eqb_sym. intros H. apply orb_false_elim in H as [Hc Hs].
  cbn [split_on]. rewrite Hc. unfold contains in IH. rewrite IH by assumption.
  reflexivity.
Qed.

Lemma map_tag_nonempty code : String.eqb (map_tag code) "" = false.
Proof.
  unfold map_tag. destruct (pick_codes _) as [[base bold] ul].
  destruct bold, ul; reflexivity.
Qed.

Lemma map_tag_palette :
  map_tag (lit "30") = "ansi_black" /\ map_tag (lit "31") = "ansi_red"
  /\ map_tag (lit "32") = "ansi_green" /\ map_tag (lit "33") = "ansi_yellow"
  /\ map_tag (lit "34") = "ansi_blue" /\ map_tag (lit "35") = "ansi_magenta"
  /\ map_tag (lit "36") = "ansi_cyan" /\ map_tag (lit "37") = "ansi_white"
  /\ map_tag (lit "90") = "ansi_gray" /\ map_tag (lit "0") = "ansi_white"
  /\ map_tag (lit "1;31") = "ansi_bold_red"
  /\ map_tag (lit "4;31") = "ansi_ul_red".
Proof. vm_compute. repeat split. Qed.

(** C6 (amended): a parameter list whose colour code is not in the
    palette never raises and sets the current tag to a white tag, whatever
    it was: [ansi_white] for a single code, [ansi_bold_white] or
    [ansi_ul_white] when a first field containing 1 or 4 precedes it. *)
Theorem unknown_sgr_sets_white cur code :
  color_map !! base_of code = None ->
  apply_sgr cur code = map_tag code
  /\ (map_tag code = "ansi_white" \/ map_tag code = "ansi_bold_white"
      \/ map_tag code = "ansi_ul_white")
  /\ (contains 59 code = false -> map_tag code = "ansi_white").
Proof.
  intros H. split; [|split].
  - unfold apply_sgr. rewrite map_tag_nonempty. reflexivity.
  - revert H. unfold base_of, map_tag.
    destruct (pick_codes _) as [[base bold] ul]. cbn [fst].
    intros ->. destruct bold, ul; cbn; auto.
  - intros Hc. revert H. unfold base_of, map_tag.
    rewrite (split_on_no_sep _ _ Hc). cbn. intros ->. reflexivity.
Qed.

Lemma unknown_sgr_sets_white_witness :
  apply_sgr "ansi_red" (lit "99") = map_tag (lit "99")
  /\ (map_tag (lit "99") = "ansi_white"
      \/ map_tag (lit "99") = "ansi_bold_white"
      \/ map_tag (lit "99") = "ansi_ul_white")
  /\ (contains 59 (lit "99") = false -> map_tag (lit "99") = "ansi_white").
Proof.
  apply (unknown_sgr_sets_white "ansi_red" (lit "99")).
  vm_compute. reflexivity.
Defined.

(** C6 (as stated) fails: after red, the unknown code 99 does not leave
    the tag red. *)
Lemma unknown_sgr_changes_tag :
  ~ (forall cur code,
       color_map !! base_of code = None -> apply_sgr cur code = cur).
Proof.
  intros H. specialize (H "ansi_red" (lit "99") eq_refl).
  vm_compute in H. discriminate.
Qed.

(** C5: the code at the failing input.  In one chunk, SGR 31, [x], SGR 0,
    [y] is inserted as the single run [xy] and a blank, all tagged
    [ansi_red]: the reset is removed before the parameters are parsed,
    although [map_tag] maps code 0 to the default. *)
Theorem sgr_reset_within_chunk_stays_red Nd el st :
  inserted (ops_of (write_ansi Nd el st (esc "[31mx" ++ esc "[0my")))
  = [(120, Some "ansi_red"); (121, Some "ansi_red"); (32, Some "ansi_red")]
  /\ map_tag (lit "0") = "ansi_white".
Proof.
  split; [|vm_compute; reflexivity].
  destruct el, st as [[|w] [|l] [|]]; vm_compute; reflexivity.
Qed.

End TerminalClaims.

Module EditorFacts.
Import Py Worker Requests WorkerSpec WorkerFacts Editor App.

Lemma get_text_set_text e t fp : get_text (set_text e t fp) = t ++ [10].
Proof.
  unfold get_text, set_text. cbn [file_editor].
  unfold Tk.delete. cbn [Tk.offset].
  replace (Nat.leb (length (Tk.whole (file_editor e))) 0) with false
    by (unfold Tk.whole; rewrite length_app; cbn; symmetry;
        apply Nat.leb_gt; lia).
  replace (Nat.ltb (length (Tk.chars (file_editor e)))
                   (length (Tk.whole (file_editor e)))) with true
    by (unfold Tk.whole; rewrite length_app; cbn; symmetry;
        apply Nat.ltb_lt; lia).
  cbn. unfold Tk.get, Tk.whole. cbn.
  rewrite app_nil_r, Nat.sub_0_r, firstn_all. reflexivity.
Qed.

(** C10: [get_text] after [set_text(t)] is [t] and one newline; hence
    opening a remote file and saving it sends [write_file] with the text
    that [read_file] returned followed by one newline.  When the remote
    side carries out the open, the write of its encoding and the close,
    the save is acknowledged, the remote side is what they left, and the
    next [read_file] returns the longer text. *)
Theorem open_then_save_appends_newline :
  (forall e t fp, get_text (set_text e t fp) = t ++ [10])
  /\ (forall R dirname (a : app R) name t w1 h1,
        stores_written R ->
        name <> lit ".." ->
        entry_path (current_path a) name <> [] ->
        send_to_worker R (host a) (session a)
          (read_file (entry_path (current_path a) name))
        = (w1, h1, RStr t) ->
        let path := entry_path (current_path a) name in
        let a1 := file_list_click R dirname a name in
        let saved := save_file_to_server R a1 in
        current_file a1 = Some path
        /\ get_text (editor_widget a1) = t ++ [10]
        /\ (host saved.1, session saved.1, saved.2)
           = (let '(w2, h2, res) :=
                  send_to_worker R w1 h1 (write_file path (t ++ [10])) in
              (w2, h2, Some res))
        /\ (saved.2 = Some (RStr (lit "ok")) ->
            exists w3,
              send_to_worker R (host saved.1) (session saved.1)
                (read_file path)
              = (w3, session saved.1, RStr (t ++ [10])))
        /\ (forall sf raw w0 f wa w2,
              sftp h1 = Some sf ->
              Utf8.encode (t ++ [10]) = inr raw ->
              sftp_open R sf path ModeW w1 = (w0, inr f) ->
              file_write R f raw w0 = (wa, inr tt) ->
              file_close R f wa = (w2, inr tt) ->
              saved.2 = Some (RStr (lit "ok"))
              /\ host saved.1 = w2
              /\ session saved.1 = h1
              /\ exists w3,
                   send_to_worker R w2 h1 (read_file path)
                   = (w3, h1, RStr (t ++ [10])))).
Proof.
  split; [exact get_text_set_text|].
  intros R dirname a name t w1 h1 law Hname Hpath Hread path a1 saved.
  assert (Ha1 : a1 = MkApp (current_path a) (Some path)
                       (set_text (editor_widget a) t None)
                       (file_listbox a) w1 h1).
  { subst a1. unfold file_list_click.
    rewrite bool_decide_eq_false_2 by assumption.
    fold path. fold path in Hread. rewrite Hread. reflexivity. }
  assert (Hs : (host saved.1, session saved.1, saved.2)
               = (let '(w2, h2, res) :=
                      send_to_worker R w1 h1 (write_file path (t ++ [10])) in
                  (w2, h2, Some res))).
  { subst saved. rewrite Ha1. unfold save_file_to_server.
    cbn [current_file editor_widget host session].
    rewrite get_text_set_text.
    destruct path as [|c p] eqn:Ep; [contradiction|].
    destruct (send_to_worker R w1 h1 (write_file (c :: p) (t ++ [10])))
      as [[w2 h2] res]. reflexivity. }
  split; [rewrite Ha1; reflexivity|].
  split; [rewrite Ha1; apply get_text_set_text|].
  split; [exact Hs|].
  split.
  - intros Hok. revert Hs.
    destruct (send_to_worker R w1 h1 (write_file path (t ++ [10])))
      as [[w2 h2] res] eqn:Hw.
    rewrite Hok. intros [= -> -> <-].
    destruct (write_ack_then_read R _ _ _ _ _ _ law Hw) as (w3 & H3).
    exists w3. exact H3.
  - intros sf raw w0 f wa w2 Hsf He Ho Hwr Hc.
    pose proof (write_file_stores R w1 h1 path (t ++ [10]) sf raw w0 f wa
                  w2 Hsf He Ho Hwr Hc) as Hw.
    rewrite Hw in Hs. injection Hs as -> -> ->.
    repeat split.
    apply (write_ack_then_read R _ _ _ _ _ _ law Hw).
Qed.

Import MemRemote Demo.

Lemma open_then_save_appends_newline_witness :
  let a := fresh_app in
  let name := lit "notes.txt" in
  let path := entry_path (current_path a) name in
  let a1 := file_list_click mem_remote (fun _ => []) a name in
  let saved := save_file_to_server mem_remote a1 in
  current_file a1 = Some path
  /\ get_text (editor_widget a1) = lit "hi" ++ [10]
  /\ saved.2 = Some (RStr (lit "ok"))
  /\ host saved.1
     = MemWorld (<[path := lit "hi" ++ [10]]> (mfiles home_world))
         (mdirs home_world)
  /\ exists w3,
       send_to_worker mem_remote (host saved.1) (session saved.1)
         (read_file path)
       = (w3, session saved.1, RStr (lit "hi" ++ [10])).
Proof.
  cbv zeta.
  destruct (proj2 open_then_save_appends_newline mem_remote (fun _ => [])
              fresh_app (lit "notes.txt") (lit "hi") home_world connected
              mem_stores_written)
    as (H1 & H2 & _ & _ & H5).
  - discriminate.
  - vm_compute. discriminate.
  - vm_compute. reflexivity.
  - destruct (H5 tt (lit "hi" ++ [10])
                (MemWorld (<[lit "/home/u/notes.txt" := []]>
                             (mfiles home_world))
                   (mdirs home_world))
                (lit "/home/u/notes.txt", ModeW)
                (MemWorld (<[lit "/home/u/notes.txt" := lit "hi" ++ [10]]>
                             (mfiles home_world))
                   (mdirs home_world))
                (MemWorld (<[lit "/home/u/notes.txt" := lit "hi" ++ [10]]>
                             (mfiles home_world))
                   (mdirs home_world)))
      as (Hok & Hw & Hh & w3 & Hr);
      try (vm_compute; reflexivity).
    split; [exact H1|]. split; [exact H2|]. split; [exact Hok|].
    split; [rewrite Hw; vm_compute; reflexivity|].
    exists w3. rewrite Hw, Hh. exact Hr.
Defined.

End EditorFacts.

Module Utf8More.
Import Py Utf8 Utf8Spec Utf8Facts.

Ltac bool_hyps :=
  repeat match goal with
  | H : (_ && _) = true |- _ => apply andb_prop in H as [? ?]
  | H : (_ <? _) = true |- _ => apply N.ltb_lt in H
  | H : (_ <? _) = false |- _ => apply N.ltb_ge in H
  | H : (_ <=? _) = true |- _ => apply N.leb_le in H
  | H : (_ <=? _) = false |- _ => apply N.leb_gt in H
  | H : (_ =? _) = true |- _ => apply N.eqb_eq in H
  | H : (_ =? _) = false |- _ => apply N.eqb_neq in H
  end.

Lemma is_scalar_intro c :
  c < 0x110000 -> (c < 0xD800 \/ 0xDFFF < c) -> is_scalar c = true.
Proof.
  intros H1 H2. unfold is_scalar, is_surrogate.
  apply andb_true_intro. split; [apply N.ltb_lt; lia|].
  apply negb_true_iff. apply andb_false_iff.
  destruct H2; [left; apply N.leb_gt | right; apply N.leb_gt]; lia.
Qed.

Lemma second_ok_bounds b0 b1 :
  second_ok b0 b1 = true ->
  0x80 <= b1 <= 0xBF
  /\ (b0 = 0xE0 -> 0xA0 <= b1) /\ (b0 = 0xED -> b1 <= 0x9F)
  /\ (b0 = 0xF0 -> 0x90 <= b1) /\ (b0 = 0xF4 -> b1 <= 0x8F).
Proof.
  unfold second_ok, is_cont.
  destruct (N.eqb_spec b0 0xE0); [intros; bool_hyps; lia|].
  destruct (N.eqb_spec b0 0xED); [intros; bool_hyps; lia|].
  destruct (N.eqb_spec b0 0xF0); [intros; bool_hyps; lia|].
  destruct (N.eqb_spec b0 0xF4); intros; bool_hyps; lia.
Qed.

Lemma decode_ignore_scalar_upto n bs :
  (length bs <= n)%nat ->
  Forall (fun c => is_scalar c = true) (decode_ignore bs).
Proof.
  revert bs. induction n as [|n IH]; intros bs Hn.
  { destruct bs; [constructor | cbn in Hn; lia]. }
  destruct bs as [|b0 r0]; [constructor|].
  assert (H0 : Forall (fun c => is_scalar c = true) (decode_ignore r0))
    by (apply IH; cbn [length] in *; lia).
  cbn [decode_ignore].
  destruct (b0 <? 0x80) eqn:E1.
  { constructor; [|exact H0]. bool_hyps. apply is_scalar_intro; lia. }
  destruct ((0xC2 <=? b0) && (b0 <=? 0xDF)) eqn:E2.
  { destruct r0 as [|b1 r1]; [constructor|].
    destruct (is_cont b1) eqn:C1; [|exact H0].
    constructor; [|apply IH; cbn [length] in *; lia].
    unfold is_cont in C1. bool_hyps. apply is_scalar_intro; lia. }
  destruct ((0xE0 <=? b0) && (b0 <=? 0xEF)) eqn:E3.
  { destruct r0 as [|b1 r1]; [constructor|].
    destruct (second_ok b0 b1) eqn:S1; [|exact H0].
    destruct r1 as [|b2 r2]; [constructor|].
    destruct (is_cont b2) eqn:C2; [|apply IH; cbn [length] in *; lia].
    constructor; [|apply IH; cbn [length] in *; lia].
    apply second_ok_bounds in S1 as (B1 & Ba & Bb & _).
    unfold is_cont in C2. bool_hyps.
    destruct (N.eq_dec b0 0xED) as [Hb|Hb];
      [specialize (Bb Hb)|]; apply is_scalar_intro; lia. }
  destruct ((0xF0 <=? b0) && (b0 <=? 0xF4)) eqn:E4; [|exact H0].
  destruct r0 as [|b1 r1]; [constructor|].
  destruct (second_ok b0 b1) eqn:S1; [|exact H0].
  destruct r1 as [|b2 r2]; [constructor|].
  destruct (is_cont b2) eqn:C2; [|apply IH; cbn [length] in *; lia].
  destruct r2 as [|b3 r3]; [constructor|].
  destruct (is_cont b3) eqn:C3; [|apply IH; cbn [length] in *; lia].
  constructor; [|apply IH; cbn [length] in *; lia].
  apply second_ok_bounds in S1 as (B1 & _ & _ & Bc & Bd).
  unfold is_cont in C2, C3. bool_hyps.
  destruct (N.eq_dec b0 0xF4) as [Hb|Hb]; [specialize (Bd Hb)|];
    (destruct (N.eq_dec b0 0xF0) as [Hc|Hc]; [specialize (Bc Hc)|]);
    apply is_scalar_intro; lia.
Qed.

Lemma encode_cp_scalar c :
  is_scalar c = true -> exists b, encode_cp c = Some b.
Proof.
  unfold is_scalar, encode_cp. intros H.
  apply andb_prop in H as [H1 H2]. apply negb_true_iff in H2.
  rewrite H1, H2.
  destruct (c <? 0x80); [eauto|]. destruct (c <? 0x800); [eauto|].
  destruct (c <? 0x10000); eauto.
Qed.

Lemma encode_from_scalars object s :
  Forall (fun c => is_scalar c = true) s ->
  forall pos, exists bs, encode_from object pos s = inr bs.
Proof.
  induction 1 as [|c s Hc Hs IH]; intros pos; [exists []; reflexivity|].
  destruct (encode_cp_scalar c Hc) as [b Hb].
  destruct (IH (S pos)) as [bs Hbs].
  exists (b ++ bs). cbn [encode_from]. rewrite Hb, Hbs. reflexivity.
Qed.

Lemma encode_scalars s :
  Forall (fun c => is_scalar c = true) s -> exists bs, encode s = inr bs.
Proof. intros H. apply encode_from_scalars. exact H. Qed.

Lemma encode_from_ascii object s :
  Forall (fun c => c < 0x80) s ->
  forall pos, encode_from object pos s = inr s.
Proof.
  induction 1 as [|c s Hc Hs IH]; intros pos; [reflexivity|].
  cbn [encode_from]. unfold encode_cp.
  replace (c <? 0x80) with true by (symmetry; apply N.ltb_lt; lia).
  rewrite IH. reflexivity.
Qed.

(** X1: whatever octets a remote file holds, the text [read_file] makes
    of them consists of Unicode scalar values, so encoding it again never
    raises; and decoding that encoding gives the same text. *)
Theorem decoded_text_encodes_again (raw : bytes) :
  Forall (fun c => is_scalar c = true) (decode_ignore raw)
  /\ exists raw',
       encode (decode_ignore raw) = inr raw'
       /\ decode_ignore raw' = decode_ignore raw.
Proof.
  assert (H := decode_ignore_scalar_upto (length raw) raw (le_n _)).
  split; [exact H|].
  destruct (encode_scalars _ H) as [raw' E].
  exists raw'. split; [exact E | exact (decode_encode _ _ E)].
Qed.

(** X2: ASCII text is stored octet for octet and read back unchanged. *)
Theorem ascii_text_is_its_own_encoding (s : str) :
  Forall (fun c => c < 0x80) s ->
  encode s = inr s /\ decode_ignore s = s.
Proof.
  intros H. split; [apply encode_from_ascii; exact H|].
  induction H as [|c s Hc Hs IH]; [reflexivity|].
  rewrite decode_1 by assumption. rewrite IH. reflexivity.
Qed.

Lemma ascii_text_is_its_own_encoding_witness :
  encode (lit "ls -la") = inr (lit "ls -la")
  /\ decode_ignore (lit "ls -la") = lit "ls -la".
Proof.
  apply ascii_text_is_its_own_encoding.
  repeat constructor.
Defined.

Lemma decode_ignore_length_upto n bs :
  (length bs <= n)%nat -> (length (decode_ignore bs) <= length bs)%nat.
Proof.
  revert bs. induction n as [|n IH]; intros bs Hn.
  { destruct bs; [cbn; lia | cbn in Hn; lia]. }
  destruct bs as [|b0 r0]; [cbn; lia|].
  assert (H0 : (length (decode_ignore r0) <= length r0)%nat)
    by (apply IH; cbn in Hn; lia).
  cbn [decode_ignore].
  destruct (b0 <? 0x80); [cbn [length]; lia|].
  destruct ((0xC2 <=? b0) && (b0 <=? 0xDF)).
  { destruct r0 as [|b1 r1]; [cbn; lia|].
    destruct (is_cont b1); [|cbn [length] in *; lia].
    assert (length (decode_ignore r1) <= length r1)%nat
      by (apply IH; cbn [length] in *; lia).
    cbn [length]. lia. }
  destruct ((0xE0 <=? b0) && (b0 <=? 0xEF)).
  { destruct r0 as [|b1 r1]; [cbn; lia|].
    destruct (second_ok b0 b1); [|cbn [length] in *; lia].
    destruct r1 as [|b2 r2]; [cbn; lia|].
    assert (length (decode_ignore (b2 :: r2)) <= length (b2 :: r2))%nat
      by (apply IH; cbn [length] in *; lia).
    assert (length (decode_ignore r2) <= length r2)%nat
      by (apply IH; cbn [length] in *; lia).
    destruct (is_cont b2); cbn [length] in *; lia. }
  destruct ((0xF0 <=? b0) && (b0 <=? 0xF4)); [|cbn [length] in *; lia].
  destruct r0 as [|b1 r1]; [cbn; lia|].
  destruct (second_ok b0 b1); [|cbn [length] in *; lia].
  destruct r1 as [|b2 r2]; [cbn; lia|].
  assert (length (decode_ignore (b2 :: r2)) <= length (b2 :: r2))%nat
    by (apply IH; cbn [length] in *; lia).
  destruct (is_cont b2); [|cbn [length] in *; lia].
  destruct r2 as [|b3 r3]; [cbn; lia|].
  assert (length (decode_ignore (b3 :: r3)) <= length (b3 :: r3))%nat
    by (apply IH; cbn [length] in *; lia).
  assert (length (decode_ignore r3) <= length r3)%nat
    by (apply IH; cbn [length] in *; lia).
  destruct (is_cont b3); cbn [length] in *; lia.
Qed.

(** X3: an octet that cannot start a sequence (a stray continuation
    octet, 0xC0, 0xC1, or anything from 0xF5 up) is dropped: the text is
    that of the remaining octets, and has fewer characters than there were
    octets. *)
Theorem decode_ignore_drops_stray_octets (b : N) (raw : bytes) :
  (0x80 <= b < 0xC2 \/ 0xF5 <= b) ->
  decode_ignore (b :: raw) = decode_ignore raw
  /\ (length (decode_ignore (b :: raw)) < length (b :: raw))%nat.
Proof.
  intros H.
  assert (E : decode_ignore (b :: raw) = decode_ignore raw);
    [|split; [exact E|]; rewrite E;
      pose proof (decode_ignore_length_upto _ raw (le_n _));
      cbn [length]; lia].
  cbn [decode_ignore].
  replace (b <? 0x80) with false by (symmetry; nb).
  replace ((0xC2 <=? b) && (b <=? 0xDF)) with false
    by (symmetry; apply andb_false_iff; destruct H;
        [left; apply N.leb_gt | right; apply N.leb_gt]; lia).
  replace ((0xE0 <=? b) && (b <=? 0xEF)) with false
    by (symmetry; apply andb_false_iff; destruct H;
        [left; apply N.leb_gt | right; apply N.leb_gt]; lia).
  replace ((0xF0 <=? b) && (b <=? 0xF4)) with false
    by (symmetry; apply andb_false_iff; destruct H;
        [left; apply N.leb_gt | right; apply N.leb_gt]; lia).
  reflexivity.
Qed.

Lemma decode_ignore_drops_stray_octets_witness :
  decode_ignore (0xFF :: lit "ok") = decode_ignore (lit "ok")
  /\ (length (decode_ignore (255%N :: lit "ok"))
      < length (255%N :: lit "ok"))%nat.
Proof.
  apply decode_ignore_drops_stray_octets. right. vm_compute. discriminate.
Defined.

End Utf8More.

Module WorkerMore.
Import Py Worker Requests WorkerSpec WorkerSpec2 WorkerFacts.

Section More.
Context (R : Remote).

Lemma quiet_one_send {A} (m : M R A) : quiet R m -> one_send R m.
Proof. intros H s s' r E. left. exact (H _ _ _ E). Qed.

Lemma one_send_send r : one_send R (conn_send R r).
Proof.
  intros s s' x. unfold conn_send. destruct (peer_open (cn s)).
  - intros [= <- _]. right. exists r. reflexivity.
  - intros [= <- _]. left. reflexivity.
Qed.

Lemma one_send_bind {A B} (m : M R A) (f : A -> M R B) :
  quiet R m -> (forall a, one_send R (f a)) -> one_send R (mbind R m f).
Proof.
  intros Hm Hf s s' r. unfold mbind.
  destruct (m s) as [s1 [e|a]] eqn:E.
  - intros [= <- _]. left. exact (Hm _ _ _ E).
  - intros E'. rewrite <- (Hm _ _ _ E). exact (Hf _ _ _ _ E').
Qed.

Lemma quiet_recv : quiet R (conn_recv R).
Proof. intros s s' r [= <- _]. reflexivity. Qed.

Lemma one_send_try_body : one_send R (try_body R).
Proof.
  unfold try_body.
  apply one_send_bind; [apply quiet_recv | intros msg].
  apply one_send_bind; [auto with conn | intros cmd].
  repeat match goal with |- context [if ?b then _ else _] => destruct b end;
    unfold cmd_connect, cmd_listdir, cmd_read_file, cmd_write_file,
           cmd_send_command;
    repeat first
      [ apply one_send_send
      | apply one_send_bind; [auto 20 with conn | intros ?]
      | apply quiet_one_send; auto with conn ].
Qed.

Lemma serve_one_served (s : state R) :
  peer_open (cn s) = true ->
  exists s', serve_one R s = (s', inr tt) /\ served (cn s) (cn s').
Proof.
  intros Hopen. unfold serve_one, finally, catch.
  destruct (try_body R s) as [s1 [e|[]]] eqn:E.
  - pose proof (silent_try_body R _ _ _ E) as Hc.
    unfold conn_send, conn_close. rewrite Hc, Hopen. cbn.
    eexists. split; [reflexivity|]. unfold served. cbn.
    split; [reflexivity|]. split; [symmetry; exact Hopen|].
    split; [reflexivity|]. right. eexists. reflexivity.
  - unfold conn_close. cbn. eexists. split; [reflexivity|].
    unfold served. cbn.
    destruct (one_send_try_body _ _ _ E) as [->|[x ->]]; cbn;
      (split; [reflexivity|]); (split; [reflexivity|]);
      (split; [reflexivity|]); [left|right; eexists]; reflexivity.
Qed.

(** X4: while the peer is connected, one iteration of the loop never lets
    an exception out: the connection ends closed, with at most one reply
    added to it. *)
Theorem serve_one_replies_at_most_once (s : state R) :
  peer_open (cn s) = true ->
  exists s', serve_one R s = (s', inr tt) /\ served (cn s) (cn s').
Proof. apply serve_one_served. Qed.

(** X5: a worker that only meets connected peers serves every accepted
    connection in turn and is still in its loop afterwards; each
    connection ends closed with at most one reply. *)
Theorem worker_loop_serves_all (accepts : list conn) w h :
  Forall (fun c => peer_open c = true) accepts ->
  exists cs w' h',
    worker_loop R accepts w h = (cs, w', h', true)
    /\ Forall2 served accepts cs.
Proof.
  intros H. revert w h. induction H as [|c rest Hc _ IH]; intros w h.
  - exists [], w, h. split; [reflexivity|constructor].
  - destruct (serve_one_served (State w h c) Hc) as (s' & E & Hs).
    destruct (IH (remote s') (hs s')) as (cs & w' & h' & El & Hl).
    exists (cn s' :: cs), w', h'. cbn [worker_loop]. rewrite E, El.
    split; [reflexivity|]. constructor; assumption.
Qed.

Ltac known_false :=
  repeat match goal with
  | |- context [is_cmd (VStr (lit ?a)) ?b] =>
      let v := eval vm_compute in (is_cmd (VStr (lit a)) b) in
      change (is_cmd (VStr (lit a)) b) with v
  end.

Lemma try_body_fresh w h msg cmd :
  getitem msg "cmd" = inr cmd ->
  try_body R (State w h (fresh_conn msg))
  = (if is_cmd cmd "connect" then cmd_connect R msg
     else if is_cmd cmd "listdir" then cmd_listdir R msg
     else if is_cmd cmd "read_file" then cmd_read_file R msg
     else if is_cmd cmd "write_file" then cmd_write_file R msg
     else if is_cmd cmd "send_command" then cmd_send_command R msg
     else mret R tt) (State w h (fresh_conn msg)).
Proof.
  intros H. unfold try_body, mbind, conn_recv, lift.
  cbn [cn inbox fresh_conn]. rewrite H. reflexivity.
Qed.

(** X6: before any [connect] has succeeded, [listdir], [read_file],
    [write_file] and [send_command] are answered with an error dictionary
    and touch neither the remote side nor the handles. *)
Theorem session_commands_need_connect w h msg cmd :
  sftp h = None -> shell h = None ->
  getitem msg "cmd" = inr cmd ->
  needs_session cmd = true ->
  exists text, send_to_worker R w h msg = (w, h, RDict "error" text).
Proof.
  intros Hsftp Hshell Hget Hneed.
  assert (Hr : exists e,
             try_body R (State w h (fresh_conn msg))
             = (State w h (fresh_conn msg), inl e)).
  { rewrite (try_body_fresh _ _ _ _ Hget).
    destruct cmd as [s|d]; [|discriminate].
    unfold needs_session, is_cmd in Hneed.
    repeat (apply orb_prop in Hneed as [Hneed|Hneed]);
      apply bool_decide_eq_true in Hneed; subst s; known_false;
      cbv iota.
    - unfold cmd_listdir, mbind, lift, get_handles.
      destruct (getitem msg "path") as [e|pv]; [eauto|].
      cbn [hs]. rewrite Hsftp. cbn. eauto.
    - unfold cmd_read_file, mbind, lift, get_handles.
      destruct (getitem msg "path") as [e|pv]; [eauto|].
      cbn [hs]. rewrite Hsftp. cbn. eauto.
    - unfold cmd_write_file, mbind, lift, get_handles.
      destruct (getitem msg "path") as [e|pv]; [eauto|].
      destruct (getitem msg "data") as [e|dv]; [eauto|].
      cbn [hs]. rewrite Hsftp. cbn. eauto.
    - unfold cmd_send_command, mbind, lift, get_handles.
      cbn [hs]. rewrite Hshell. cbn. eauto. }
  destruct Hr as [e Hr]. rewrite (send_to_worker_raise _ _ _ _ _ _ Hr).
  eauto.
Qed.

(** X7: a request without the key ["cmd"] is answered with the error
    ['cmd']; a request whose command is none of the five known ones gets no
    reply at all, so the caller sees an error with an empty message.
    Neither changes the remote side or the handles. *)
Theorem malformed_request_changes_nothing w h (msg : message) :
  (msg !! "cmd" = None ->
   send_to_worker R w h msg = (w, h, RDict "error" (lit "'cmd'")))
  /\ (forall cmd,
        msg !! "cmd" = Some cmd -> known_command cmd = false ->
        send_to_worker R w h msg = (w, h, RDict "error" [])).
Proof.
  split.
  - intros H.
    apply (send_to_worker_raise R w h msg (State w h (fresh_conn msg))
             (KeyError "cmd")).
    unfold try_body, mbind, conn_recv, lift, getitem.
    cbn [cn inbox fresh_conn]. rewrite H. reflexivity.
  - intros cmd H Hk. unfold known_command, needs_session in Hk.
    rewrite !orb_false_iff in Hk.
    destruct Hk as (H1 & ((H2 & H3) & H4) & H5).
    unfold send_to_worker, serve_one, finally, catch.
    rewrite (try_body_fresh _ _ _ cmd) by (unfold getitem; rewrite H; auto).
    rewrite H1, H2, H3, H4, H5. reflexivity.
Qed.

Lemma kh_mret {A} (a : A) : keeps_handles R (mret R a).
Proof. intros s s' r [= <- _]. reflexivity. Qed.

Lemma kh_lift {A} (x : result A) : keeps_handles R (lift R x).
Proof. intros s s' r [= <- _]. reflexivity. Qed.

Lemma kh_io {A} (op : world R -> world R * result A) :
  keeps_handles R (io R op).
Proof.
  intros s s' r. unfold io. destruct (op (remote s)) as [w' x].
  intros [= <- _]. reflexivity.
Qed.

Lemma kh_get : keeps_handles R (get_handles R).
Proof. intros s s' r [= <- _]. reflexivity. Qed.

Lemma kh_send x : keeps_handles R (conn_send R x).
Proof.
  intros s s' r. unfold conn_send.
  destruct (peer_open (cn s)); intros [= <- _]; reflexivity.
Qed.

Lemma kh_close : keeps_handles R (conn_close R).
Proof. intros s s' r [= <- _]. reflexivity. Qed.

Lemma kh_bind {A B} (m : M R A) (f : A -> M R B) :
  keeps_handles R m -> (forall a, keeps_handles R (f a)) ->
  keeps_handles R (mbind R m f).
Proof.
  intros Hm Hf s s' r. unfold mbind.
  destruct (m s) as [s1 [e|a]] eqn:E.
  - intros [= <- _]. exact (Hm _ _ _ E).
  - intros E'. rewrite (Hf _ _ _ _ E'). exact (Hm _ _ _ E).
Qed.

Lemma kh_finally {A} (m : M R A) (f : M R unit) :
  keeps_handles R m -> keeps_handles R f -> keeps_handles R (finally R m f).
Proof.
  intros Hm Hf s s' r. unfold finally.
  destruct (m s) as [s1 x] eqn:E. destruct (f s1) as [s2 [e|u]] eqn:F;
    intros [= <- _]; rewrite (Hf _ _ _ F); exact (Hm _ _ _ E).
Qed.

Lemma kh_catch {A} (m : M R A) (k : exn -> M R A) :
  keeps_handles R m -> (forall e, keeps_handles R (k e)) ->
  keeps_handles R (catch R m k).
Proof.
  intros Hm Hk s s' r. unfold catch.
  destruct (m s) as [s1 [e|a]] eqn:E.
  - intros E'. rewrite (Hk _ _ _ _ E'). exact (Hm _ _ _ E).
  - intros [= <- _]. exact (Hm _ _ _ E).
Qed.

Ltac kh :=
  repeat first
    [ apply kh_mret | apply kh_lift | apply kh_io | apply kh_get
    | apply kh_send | apply kh_close
    | apply kh_bind; [|intros ?]
    | apply kh_finally ].

Lemma kh_session_commands msg :
  keeps_handles R (cmd_listdir R msg)
  /\ keeps_handles R (cmd_read_file R msg)
  /\ keeps_handles R (cmd_write_file R msg)
  /\ keeps_handles R (cmd_send_command R msg).
Proof.
  unfold cmd_listdir, cmd_read_file, cmd_write_file, cmd_send_command,
    with_open.
  repeat split; kh.
Qed.

Lemma serve_one_dispatch s msg :
  inbox (cn s) = inr msg ->
  serve_one R s
  = finally R
      (catch R (dispatch R msg)
         (fun e => conn_send R (RDict "error" (str_of_exn e))))
      (conn_close R) s.
Proof.
  intros H. unfold serve_one, finally, catch, try_body, dispatch, mbind,
    conn_recv. rewrite H. reflexivity.
Qed.

Lemma kh_dispatch (msg : message) :
  (forall cmd, msg !! "cmd" = Some cmd -> is_cmd cmd "connect" = false) ->
  keeps_handles R (dispatch R msg).
Proof.
  intros Hcmd s s' r. unfold dispatch, mbind, lift, getitem.
  destruct (msg !! "cmd") as [cmd|]; [|intros [= <- _]; reflexivity].
  rewrite (Hcmd cmd eq_refl).
  destruct (kh_session_commands msg) as (K1 & K2 & K3 & K4).
  destruct (is_cmd cmd "listdir"); [apply K1|].
  destruct (is_cmd cmd "read_file"); [apply K2|].
  destruct (is_cmd cmd "write_file"); [apply K3|].
  destruct (is_cmd cmd "send_command"); [apply K4|].
  intros [= <- _]. reflexivity.
Qed.

Lemma non_connect_keeps_handles w h (msg : message) w' h' r :
  (forall cmd, msg !! "cmd" = Some cmd -> is_cmd cmd "connect" = false) ->
  send_to_worker R w h msg = (w', h', r) ->
  h' = h.
Proof.
  intros Hcmd. unfold send_to_worker.
  rewrite (serve_one_dispatch _ msg) by reflexivity.
  match goal with
  | |- context [finally R ?m ?f ?s] =>
      destruct (finally R m f s) as [s' x] eqn:E;
      assert (K : keeps_handles R (finally R m f))
  end.
  { apply kh_finally; [|apply kh_close].
    apply kh_catch; [apply kh_dispatch; exact Hcmd|].
    intros e. apply kh_send. }
  intros [= _ <- _]. exact (K _ _ _ E).
Qed.

(** X16: only [connect] assigns the handles: whatever else is requested,
    and whether or not it fails, the worker's [ssh], [sftp] and [shell]
    are afterwards what they were. *)
Theorem only_connect_changes_handles w h (msg : message) w' h' r :
  (forall cmd, msg !! "cmd" = Some cmd -> is_cmd cmd "connect" = false) ->
  send_to_worker R w h msg = (w', h', r) ->
  h' = h.
Proof. apply non_connect_keeps_handles. Qed.

Lemma read_file_not_connect p cmd :
  read_file p !! "cmd" = Some cmd -> is_cmd cmd "connect" = false.
Proof.
  unfold read_file, request. rewrite lookup_insert_eq.
  intros [= <-]. reflexivity.
Qed.

Lemma get_connect_host ip u p :
  getitem (connect_request ip u p) "host"
  = inr (VDict (<["ip" := ip]> (<["username" := u]>
                  {["password" := p]}))).
Proof. vm_compute. reflexivity. Qed.

Lemma host_fields ip u p :
  let host := VDict (<["ip" := ip]> (<["username" := u]>
                       {["password" := p]})) in
  host_field R host "ip" = inr ip
  /\ host_field R host "username" = inr u
  /\ host_field R host "password" = inr p.
Proof. vm_compute. auto. Qed.

Lemma try_body_connect w h ip u p :
  try_body R (State w h (fresh_conn (connect_request ip u p)))
  = cmd_connect R (connect_request ip u p)
      (State w h (fresh_conn (connect_request ip u p))).
Proof.
  rewrite (try_body_fresh _ _ _ (VStr (lit "connect")));
    [reflexivity | apply get_cmd].
Qed.

(** X8: a [connect] whose [ssh.connect] raises answers with the error; the
    [ssh] handle is already the new, unconnected client, while the [sftp]
    and [shell] handles are still those of the previous session, so later
    file commands go on using it. *)
Theorem failed_connect_keeps_old_session w h ip u p w0 c w1 e :
  SSHClient R w = (w0, c) ->
  ssh_connect R c ip u p w0 = (w1, inl e) ->
  send_to_worker R w h (connect_request ip u p)
  = (w1, Handles (Some c) (sftp h) (shell h),
     RDict "error" (str_of_exn e)).
Proof.
  intros Hc He.
  apply (send_to_worker_raise R w h _
           (State w1 (Handles (Some c) (sftp h) (shell h))
                  (fresh_conn (connect_request ip u p))) e).
  rewrite try_body_connect.
  unfold cmd_connect, mbind, lift, get_handles, set_handles, io.
  rewrite get_connect_host. cbn [remote hs cn]. rewrite Hc.
  cbn [remote hs cn sftp shell].
  destruct (host_fields ip u p) as (-> & -> & ->).
  rewrite He. reflexivity.
Qed.

(** X9: a [connect] in which every step succeeds sets the three handles
    to the new session and answers [{"status": "connected"}]. *)
Theorem connect_establishes_session w h ip u p w0 c w1 w2 sf w3 sh w4 :
  SSHClient R w = (w0, c) ->
  ssh_connect R c ip u p w0 = (w1, inr tt) ->
  open_sftp R c w1 = (w2, inr sf) ->
  invoke_shell R c w2 = (w3, inr sh) ->
  settimeout R sh w3 = (w4, inr tt) ->
  send_to_worker R w h (connect_request ip u p)
  = (w4, Handles (Some c) (Some sf) (Some sh),
     RDict "status" (lit "connected")).
Proof.
  intros Hc H1 H2 H3 H4.
  unfold send_to_worker, serve_one, finally, catch.
  rewrite try_body_connect.
  unfold cmd_connect, mbind, lift, get_handles, set_handles, io.
  rewrite get_connect_host. cbn [remote hs cn]. rewrite Hc.
  cbn [remote hs cn ssh sftp shell].
  destruct (host_fields ip u p) as (-> & -> & ->).
  rewrite H1. cbn [remote hs cn ssh sftp shell]. rewrite H2.
  cbn [remote hs cn ssh sftp shell]. rewrite H3.
  cbn [remote hs cn ssh sftp shell]. rewrite H4. reflexivity.
Qed.

Lemma listing_entries items acc res :
  listing items acc = inr res ->
  exists modes,
    map st_mode items = map Some modes
    /\ res = acc ++ zip_with entry_of (map filename items) modes.
Proof.
  revert acc. induction items as [|it items IH]; intros acc; cbn [listing].
  - intros [= <-]. exists []. rewrite app_nil_r. auto.
  - destruct (st_mode it) as [m|] eqn:Hm; [|discriminate].
    cbn [S_ISDIR bind]. intros H.
    destruct (IH _ H) as (modes & Hmodes & ->).
    exists (m :: modes). cbn [map]. rewrite Hm, Hmodes.
    split; [reflexivity|]. rewrite <- app_assoc. reflexivity.
Qed.

(** X10: a listing reports every item that [listdir_attr] returned, in
    that order and under its own name, after the parent entry if there is
    one; an item is shown as a folder exactly when the file-type bits of
    its mode are those of a directory. *)
Theorem listdir_reports_every_item w h path w' h' result :
  send_to_worker R w h (listdir path) = (w', h', RList result) ->
  exists sf items modes,
    listdir_attr R sf path w = (w', inr items)
    /\ map st_mode items = map Some modes
    /\ result
       = (if is_root_indicator path then [] else [(folder_icon, lit "..")])
         ++ zip_with entry_of (map filename items) modes.
Proof.
  intros H.
  destruct (listdir_ok_inv R _ _ _ _ _ _ H) as (sf & items & Hl & Hres).
  destruct (listing_entries _ _ _ Hres) as (modes & Hm & ->).
  exists sf, items, modes. auto.
Qed.

(** X11: an item whose attributes carry no mode makes the whole listing
    fail: the caller gets an error dictionary, not the other entries. *)
Theorem listdir_fails_on_missing_mode w h path sf w' items :
  sftp h = Some sf ->
  listdir_attr R sf path w = (w', inr items) ->
  Exists (fun it => st_mode it = None) items ->
  exists text,
    send_to_worker R w h (listdir path) = (w', h, RDict "error" text).
Proof.
  intros Hsf Hl Hex. eexists.
  assert (Hf : forall acc,
             listing items acc = inl (TypeError (lit "an integer is required"))).
  { clear Hl. induction Hex as [it items Hn|it items _ IH]; intros acc;
      cbn [listing].
    - rewrite Hn. reflexivity.
    - destruct (st_mode it); [apply IH | reflexivity]. }
  apply (send_to_worker_raise R w h _
           (State w' h (fresh_conn (listdir path)))
           (TypeError (lit "an integer is required"))).
  rewrite try_body_listdir.
  unfold cmd_listdir, mbind, lift, get_handles, io.
  rewrite get_listdir_path. cbn [hs]. rewrite Hsf. cbn [handle as_text].
  cbn [remote hs cn]. rewrite Hl. cbn [remote hs cn]. rewrite Hf.
  reflexivity.
Qed.

(** X12: when the text of a [write_file] cannot be encoded (it holds a
    surrogate), the remote file has already been opened for writing: the
    answer is the codec's error, which names the position of the
    surrogate, and the remote side is what the open and the close left. *)
Theorem unencodable_write_still_opens w h path data sf e w0 f w1 :
  sftp h = Some sf ->
  Utf8.encode data = inl e ->
  sftp_open R sf path ModeW w = (w0, inr f) ->
  file_close R f w0 = (w1, inr tt) ->
  send_to_worker R w h (write_file path data)
  = (w1, h, RDict "error" (str_of_exn e)).
Proof.
  intros Hsf He Ho Hc.
  apply (send_to_worker_raise R w h _
           (State w1 h (fresh_conn (write_file path data))) e).
  rewrite try_body_write.
  unfold cmd_write_file, mbind, lift, get_handles.
  rewrite get_write_path, get_write_data. cbn [hs]. rewrite Hsf.
  cbn [handle as_text].
  unfold with_open, mbind, io, finally, lift. cbn [remote hs cn].
  rewrite Ho. cbn [remote hs cn]. rewrite He. cbn [remote hs cn].
  rewrite Hc. reflexivity.
Qed.

End More.

Import MemRemote.

Lemma only_connect_changes_handles_witness :
  exists w' r,
    send_to_worker mem_remote home_world connected
      (read_file (lit "/nowhere"))
    = (w', connected, r).
Proof.
  destruct (send_to_worker mem_remote home_world connected
              (read_file (lit "/nowhere"))) as [[w' h'] r] eqn:E.
  exists w', r.
  rewrite (only_connect_changes_handles mem_remote home_world connected
             (read_file (lit "/nowhere")) w' h' r
             (read_file_not_connect _) E).
  reflexivity.
Defined.

Lemma serve_one_replies_at_most_once_witness :
  exists s',
    serve_one mem_remote
      (State (R := mem_remote) home_world connected
             (fresh_conn (read_file (lit "/home/u/notes.txt"))))
    = (s', inr tt)
    /\ served (fresh_conn (read_file (lit "/home/u/notes.txt"))) (cn s').
Proof.
  apply (serve_one_replies_at_most_once mem_remote
           (State (R := mem_remote) home_world connected
                  (fresh_conn (read_file (lit "/home/u/notes.txt"))))).
  reflexivity.
Defined.

Lemma worker_loop_serves_all_witness :
  let accepts := [fresh_conn (listdir (lit "/"));
                  fresh_conn (write_file (lit "/tmp/x") (lit "a"));
                  fresh_conn (read_file (lit "/nowhere"))] in
  exists cs w' h',
    worker_loop mem_remote accepts home_world connected = (cs, w', h', true)
    /\ Forall2 served accepts cs.
Proof.
  intros accepts.
  apply (worker_loop_serves_all mem_remote accepts home_world connected).
  repeat constructor.
Defined.

Lemma session_commands_need_connect_witness :
  exists text,
    send_to_worker mem_remote home_world (no_handles mem_remote)
      (send_command_request (lit "ls"))
    = (home_world, no_handles mem_remote, RDict "error" text).
Proof.
  apply (session_commands_need_connect mem_remote home_world
           (no_handles mem_remote) (send_command_request (lit "ls"))
           (VStr (lit "send_command"))); reflexivity.
Defined.

Lemma malformed_request_changes_nothing_witness :
  send_to_worker mem_remote home_world connected
    {["path" := VStr (lit "/")]}
  = (home_world, connected, RDict "error" (lit "'cmd'"))
  /\ send_to_worker mem_remote home_world connected
       (request "rmdir" [("path", VStr (lit "/"))])
     = (home_world, connected, RDict "error" []).
Proof.
  split.
  - apply (proj1 (malformed_request_changes_nothing mem_remote home_world
                    connected {["path" := VStr (lit "/")]})).
    reflexivity.
  - apply (proj2 (malformed_request_changes_nothing mem_remote home_world
                    connected (request "rmdir" [("path", VStr (lit "/"))]))
             (VStr (lit "rmdir"))); reflexivity.
Defined.

Lemma listdir_reports_every_item_witness :
  exists sf items modes,
    listdir_attr mem_remote sf (lit "/home/u") home_world
    = (home_world, inr items)
    /\ map st_mode items = map Some modes
    /\ [(folder_icon, lit ".."); (folder_icon, lit "src");
        (file_icon, lit "notes.txt")]
       = (if is_root_indicator (lit "/home/u") then []
          else [(folder_icon, lit "..")])
         ++ zip_with entry_of (map filename items) modes.
Proof.
  apply (listdir_reports_every_item mem_remote home_world connected
           (lit "/home/u") home_world connected).
  vm_compute. reflexivity.
Defined.

End WorkerMore.

Module WorkerMoreWitnesses.
Import Py Worker Requests WorkerSpec WorkerSpec2 WorkerFacts WorkerMore.
Import MemRemote MemRemote2.

Lemma failed_connect_keeps_old_session_witness :
  send_to_worker guarded_remote home_world
    (Handles (R := guarded_remote) (Some tt) (Some tt) (Some tt))
    (connect_request (lit "10.0.0.2") (lit "u") (lit "guess"))
  = (home_world,
     Handles (R := guarded_remote) (Some tt) (Some tt) (Some tt),
     RDict "error" (lit "Authentication failed.")).
Proof.
  apply (failed_connect_keeps_old_session guarded_remote home_world
           (Handles (R := guarded_remote) (Some tt) (Some tt) (Some tt))
           (lit "10.0.0.2") (lit "u") (lit "guess") home_world tt
           home_world (IOError (lit "Authentication failed.")));
    reflexivity.
Defined.

Lemma connect_establishes_session_witness :
  send_to_worker guarded_remote home_world (no_handles guarded_remote)
    (connect_request (lit "10.0.0.2") (lit "u") (lit "secret"))
  = (home_world,
     Handles (R := guarded_remote) (Some tt) (Some tt) (Some tt),
     RDict "status" (lit "connected")).
Proof.
  apply (connect_establishes_session guarded_remote home_world
           (no_handles guarded_remote)
           (lit "10.0.0.2") (lit "u") (lit "secret")
           home_world tt home_world home_world tt home_world tt home_world);
    reflexivity.
Defined.

Lemma listdir_fails_on_missing_mode_witness :
  exists text,
    send_to_worker mem_remote dev_world connected (listdir (lit "/dev"))
    = (dev_world, connected, RDict "error" text).
Proof.
  apply (listdir_fails_on_missing_mode mem_remote dev_world connected
           (lit "/dev") tt dev_world
           [Attr (lit "null") (Some 8630); Attr (lit "odd") None]).
  - reflexivity.
  - vm_compute. reflexivity.
  - right. left. reflexivity.
Defined.

Lemma unencodable_write_still_opens_witness :
  send_to_worker mem_remote home_world connected
    (write_file (lit "/home/u/notes.txt") [104; 0xD800])
  = (MemWorld (<[lit "/home/u/notes.txt" := []]> (mfiles home_world))
              (mdirs home_world),
     connected,
     RDict "error"
       (lit ("'utf-8' codec can't encode character '\ud800' in position 1: "
             +:+ "surrogates not allowed"))).
Proof.
  apply (unencodable_write_still_opens mem_remote home_world connected
           (lit "/home/u/notes.txt") [104; 0xD800] tt
           (UnicodeEncodeError [104; 0xD800] 1 2)
           (MemWorld (<[lit "/home/u/notes.txt" := []]> (mfiles home_world))
                     (mdirs home_world))
           (lit "/home/u/notes.txt", ModeW)).
  - reflexivity.
  - vm_compute. reflexivity.
  - vm_compute. reflexivity.
  - reflexivity.
Defined.

End WorkerMoreWitnesses.

Module AppMore.
Import Py Re Worker Requests WorkerSpec WorkerFacts WorkerMore ReFacts.
Import Editor App AppSpec EditorFacts MemRemote Demo.

Section Client.
Context (R : Remote).
Variable dirname : str -> str.

Lemma list_remote_dir_keeps (a : app R) :
  let a' := list_remote_dir R a in
  current_path a' = current_path a
  /\ current_file a' = current_file a
  /\ editor_widget a' = editor_widget a.
Proof.
  unfold list_remote_dir.
  destruct (send_to_worker R (host a) (session a) _) as [[w' h'] res].
  destruct res; cbn; auto.
Qed.

(** X13: clicking an entry that cannot be read as a file (the worker
    answers with an error dictionary) opens nothing: the editor text and
    the current file stay as they were, and the entry becomes the current
    directory. *)
Theorem unreadable_entry_leaves_editor (a : app R) name w1 h1 v :
  name <> lit ".." ->
  send_to_worker R (host a) (session a)
    (read_file (entry_path (current_path a) name))
  = (w1, h1, RDict "error" v) ->
  let a1 := file_list_click R dirname a name in
  editor_widget a1 = editor_widget a
  /\ current_file a1 = current_file a
  /\ current_path a1 = entry_path (current_path a) name.
Proof.
  intros Hname Hread a1. subst a1. unfold file_list_click.
  rewrite bool_decide_eq_false_2 by assumption. rewrite Hread.
  destruct (list_remote_dir_keeps
              (MkApp (entry_path (current_path a) name) (current_file a)
                     (editor_widget a) (file_listbox a) w1 h1))
    as (H1 & H2 & H3).
  cbn in H1, H2, H3. auto.
Qed.

Lemma open_and_save_step (a : app R) name t w1 h1 a2 :
  stores_written R ->
  name <> lit ".." ->
  entry_path (current_path a) name <> [] ->
  send_to_worker R (host a) (session a)
    (read_file (entry_path (current_path a) name))
  = (w1, h1, RStr t) ->
  open_and_save R dirname a name = (a2, Some (RStr (lit "ok"))) ->
  current_path a2 = current_path a
  /\ exists w3,
       send_to_worker R (host a2) (session a2)
         (read_file (entry_path (current_path a) name))
       = (w3, session a2, RStr (t ++ [10])).
Proof.
  intros law Hname Hpath Hread.
  assert (h1 = session a) as ->
    by (apply (non_connect_keeps_handles R _ _ _ _ _ _
                 (read_file_not_connect _) Hread)).
  unfold open_and_save, file_list_click.
  rewrite bool_decide_eq_false_2 by assumption. rewrite Hread.
  unfold save_file_to_server. cbn [current_file editor_widget host session
                                   current_path file_listbox].
  rewrite get_text_set_text.
  destruct (entry_path (current_path a) name) as [|c p] eqn:Ep;
    [contradiction|].
  destruct (send_to_worker R w1 (session a)
              (write_file (c :: p) (t ++ [10]))) as [[w2 h2] res] eqn:Hw.
  intros [= <- ->]. cbn [current_path host session].
  split; [reflexivity|].
  destruct (write_ack_then_read R _ _ _ _ _ _ law Hw) as (w3 & H3).
  exists w3. exact H3.
Qed.

(** X14: every round of opening a remote file and saving it, each save
    acknowledged, leaves the file one newline longer: after [n] rounds
    [read_file] returns the original text followed by [n] newlines. *)
Theorem open_and_save_times_appends_newlines n (a an : app R) name t
    w1 h1 :
  stores_written R ->
  name <> lit ".." ->
  entry_path (current_path a) name <> [] ->
  send_to_worker R (host a) (session a)
    (read_file (entry_path (current_path a) name))
  = (w1, h1, RStr t) ->
  open_and_save_times R dirname n a name = Some an ->
  exists w',
    send_to_worker R (host an) (session an)
      (read_file (entry_path (current_path a) name))
    = (w', session an, RStr (t ++ repeat 10 n)).
Proof.
  intros law Hname Hpath Hread.
  assert (h1 = session a) as ->
    by (apply (non_connect_keeps_handles R _ _ _ _ _ _
                 (read_file_not_connect _) Hread)).
  revert an.
  assert (G : forall an,
             open_and_save_times R dirname n a name = Some an ->
             current_path an = current_path a
             /\ exists w',
                  send_to_worker R (host an) (session an)
                    (read_file (entry_path (current_path a) name))
                  = (w', session an, RStr (t ++ repeat 10 n))).
  { induction n as [|n IH]; intros an; cbn [open_and_save_times].
    - intros [= <-]. split; [reflexivity|]. exists w1. cbn [repeat].
      rewrite app_nil_r. exact Hread.
    - destruct (open_and_save_times R dirname n a name) as [a'|];
        [|discriminate].
      destruct (IH a' eq_refl) as (Hp & w' & Hr).
      destruct (open_and_save R dirname a' name) as [a'' [[| |s|]|]] eqn:Ho;
        try discriminate.
      destruct (bool_decide (s = lit "ok")) eqn:Hs; [|discriminate].
      apply bool_decide_eq_true in Hs. subst s. intros [= <-].
      rewrite <- Hp in Hr, Hpath.
      destruct (open_and_save_step a' name _ w' _ a'' law Hname Hpath Hr Ho)
        as (Hp' & w3 & H3).
      split; [congruence|]. exists w3. rewrite Hp in H3.
      replace (repeat 10 (S n)) with (repeat 10 n ++ [10])
        by (symmetry; apply repeat_cons).
      rewrite app_assoc. exact H3. }
  intros an Han. exact (proj2 (G an Han)).
Qed.

End Client.

Lemma unreadable_entry_leaves_editor_witness :
  let a1 := file_list_click mem_remote (fun _ => []) fresh_app (lit "src") in
  editor_widget a1 = editor_widget fresh_app
  /\ current_file a1 = current_file fresh_app
  /\ current_path a1 = entry_path (current_path fresh_app) (lit "src").
Proof.
  apply (unreadable_entry_leaves_editor mem_remote (fun _ => []) fresh_app
           (lit "src") home_world connected (str_of_exn no_such_file)).
  - discriminate.
  - vm_compute. reflexivity.
Defined.

Lemma open_and_save_times_appends_newlines_witness :
  exists an,
    open_and_save_times mem_remote (fun _ => []) 2 fresh_app
      (lit "notes.txt") = Some an
    /\ exists w',
         send_to_worker mem_remote (host an) (session an)
           (read_file (entry_path (current_path fresh_app)
                         (lit "notes.txt")))
         = (w', session an, RStr (lit "hi" ++ repeat 10 2)).
Proof.
  eexists. split; [vm_compute; reflexivity|].
  apply (open_and_save_times_appends_newlines mem_remote (fun _ => []) 2
           fresh_app _ (lit "notes.txt") (lit "hi") home_world connected
           mem_stores_written).
  - discriminate.
  - vm_compute. discriminate.
  - vm_compute. reflexivity.
  - vm_compute. reflexivity.
Defined.

Lemma match_slashes_hit rest :
  match_at (txt (lit "//")) (lit "//" ++ rest) = Some (rest, None).
Proof. reflexivity. Qed.

(** X15: under the root, the two slashes that joining produces are
    collapsed into one: the path of the entry [name] of ["/"] is ["/"]
    followed by [name]. *)
Theorem entry_path_under_root name :
  search (txt (lit "//")) name = false ->
  entry_path (lit "/") name = lit "/" ++ name.
Proof.
  intros H. unfold entry_path.
  change (lit "/" ++ lit "/" ++ name) with (47 :: [47] ++ name).
  rewrite (sub_hit _ _ 47 [47] name None) by reflexivity.
  rewrite (sub_id _ _ _ H). reflexivity.
Qed.

Lemma entry_path_under_root_witness :
  entry_path (lit "/") (lit "etc") = lit "/" ++ lit "etc".
Proof. apply entry_path_under_root. reflexivity. Defined.

End AppMore.

Module TagMore.
Import Py Re Terminal TerminalSpec TerminalSpec2 TerminalClaims.

(** X17: whatever the parameter string, [map_tag] returns one of the tags
    that [define_tags] configured. *)
Theorem map_tag_is_configured (code : str) :
  In (map_tag code) define_tags.
Proof.
  unfold map_tag. destruct (pick_codes _) as [[base bold] ul].
  destruct (color_map !! base) as [v|] eqn:Hv.
  - apply elem_of_list_to_map_2 in Hv.
    repeat match goal with
           | H : _ ∈ _ :: _ |- _ => apply elem_of_cons in H as [H|H]
           | H : _ ∈ [] |- _ => apply elem_of_nil in H; contradiction
           end;
      injection Hv as _ ->; destruct bold, ul; vm_compute; tauto.
  - destruct bold, ul; vm_compute; tauto.
Qed.

Lemma split_on_sep sep a r :
  contains sep a = false -> split_on sep (a ++ sep :: r) = a :: split_on sep r.
Proof.
  induction a as [|c a IH]; cbn [contains existsb app split_on].
  - intros _. rewrite N.eqb_refl. reflexivity.
  - rewrite N.eqb_sym. intros H. apply orb_false_elim in H as [Hc Ha].
    rewrite Hc. unfold contains in IH. rewrite IH by assumption. reflexivity.
Qed.

Lemma split_on_head sep b tail :
  contains sep b = false -> (tail = [] \/ exists r, tail = sep :: r) ->
  exists more, split_on sep (b ++ tail) = b :: more.
Proof.
  intros Hb [->|[r ->]].
  - rewrite app_nil_r, (split_on_no_sep _ _ Hb). eauto.
  - rewrite (split_on_sep _ _ _ Hb). eauto.
Qed.

(** X18: a parameter string without [;] is never bold or underlined, not
    even the codes 1 and 4: its tag is the plain tag of its colour.  With
    two or more fields the colour is that of the second field, the tag is
    bold when the first field contains the digit 1, otherwise underlined
    when it contains 4, and further fields are ignored. *)
Theorem map_tag_by_fields :
  (forall code,
     contains 59 code = false ->
     map_tag code = "ansi_" +:+ default "white" (color_map !! code))
  /\ (forall a b tail,
        contains 59 a = false -> contains 59 b = false ->
        (tail = [] \/ exists r, tail = 59 :: r) ->
        map_tag (a ++ 59 :: b ++ tail)
        = (if contains 49 a then "ansi_bold_"
           else if contains 52 a then "ansi_ul_" else "ansi_")
          +:+ default "white" (color_map !! b)).
Proof.
  split.
  - intros code H. unfold map_tag. rewrite (split_on_no_sep _ _ H).
    reflexivity.
  - intros a b tail Ha Hb Ht. unfold map_tag.
    rewrite (split_on_sep _ _ _ Ha).
    destruct (split_on_head 59 b tail Hb Ht) as [more ->].
    unfold pick_codes, getidx. cbn [lookup list_lookup bind ret].
    destruct (contains 49 a), (contains 52 a); reflexivity.
Qed.

Lemma map_tag_by_fields_witness :
  map_tag (lit "1") = "ansi_" +:+ default "white" (color_map !! lit "1")
  /\ map_tag (lit "01" ++ 59 :: lit "34" ++ lit ";5")
     = (if contains 49 (lit "01") then "ansi_bold_"
        else if contains 52 (lit "01") then "ansi_ul_" else "ansi_")
       +:+ default "white" (color_map !! lit "34").
Proof.
  split.
  - apply (proj1 map_tag_by_fields). reflexivity.
  - apply (proj2 map_tag_by_fields (lit "01") (lit "34") (lit ";5"));
      [reflexivity | reflexivity | right; eexists; reflexivity].
Defined.

End TagMore.

Module ReMore.
Import Py Re ReFacts TerminalSpec2.

Section Preserve.
Variable P : N -> Prop.

Lemma star_greedy_preserve {A} p s (k : str -> option A) (Q : A -> Prop) :
  Forall P s ->
  (forall s', Forall P s' -> forall a, k s' = Some a -> Q a) ->
  forall a, star_greedy p s k = Some a -> Q a.
Proof.
  intros Hs Hk. induction Hs as [|c s Hc Hs IH]; intros a; cbn [star_greedy].
  - apply Hk. constructor.
  - destruct (p c).
    + destruct (star_greedy p s k) as [b|] eqn:E.
      * intros [= <-]. apply IH. reflexivity.
      * apply Hk. constructor; assumption.
    + apply Hk. constructor; assumption.
Qed.

Lemma star_lazy_preserve {A} p s (k : str -> option A) (Q : A -> Prop) :
  Forall P s ->
  (forall s', Forall P s' -> forall a, k s' = Some a -> Q a) ->
  forall a, star_lazy p s k = Some a -> Q a.
Proof.
  intros Hs Hk. induction Hs as [|c s Hc Hs IH]; intros a; cbn [star_lazy].
  - destruct (k []) as [b|] eqn:E; [|discriminate].
    intros [= <-]. apply (Hk [] ltac:(constructor) _ E).
  - destruct (k (c :: s)) as [b|] eqn:E.
    + intros [= <-]. apply (Hk (c :: s)); [constructor; assumption|exact E].
    + destruct (p c); [apply IH|discriminate].
Qed.

Lemma run_preserve {A} (r : regex) :
  forall s g (k : str -> option str -> option A) (Q : A -> Prop),
    Forall P s -> optP P g ->
    (forall s' g', Forall P s' -> optP P g' ->
                   forall a, k s' g' = Some a -> Q a) ->
    forall a, run r s g k = Some a -> Q a.
Proof.
  induction r as [|c|p|r1 IH1 r2 IH2|r1 IH1 r2 IH2|r1 IH1|p|p|r1 IH1];
    intros s g k Q Hs Hg Hk a; cbn [run].
  - apply Hk; assumption.
  - destruct Hs as [|x s Hx Hs]; [discriminate|].
    destruct (x =? c); [apply Hk; assumption|discriminate].
  - destruct Hs as [|x s Hx Hs]; [discriminate|].
    destruct (p x); [apply Hk; assumption|discriminate].
  - apply (IH1 s g _ Q Hs Hg). intros s' g' Hs' Hg' b.
    apply (IH2 s' g' k Q Hs' Hg' Hk).
  - destruct (run r1 s g k) as [b|] eqn:E.
    + intros [= <-]. exact (IH1 s g k Q Hs Hg Hk _ E).
    + apply (IH2 s g k Q Hs Hg Hk).
  - destruct (run r1 s g k) as [b|] eqn:E.
    + intros [= <-]. exact (IH1 s g k Q Hs Hg Hk _ E).
    + apply Hk; assumption.
  - apply (star_greedy_preserve p s _ Q Hs). intros s' Hs' b.
    apply Hk; assumption.
  - apply (star_lazy_preserve p s _ Q Hs). intros s' Hs' b.
    apply Hk; assumption.
  - apply (IH1 s g _ Q Hs Hg). intros s' g' Hs' _ b.
    apply Hk; [assumption|]. cbn. apply Forall_take. exact Hs.
Qed.

Lemma match_at_preserve r s rest g :
  Forall P s -> match_at r s = Some (rest, g) -> Forall P rest /\ optP P g.
Proof.
  intros Hs. unfold match_at.
  apply (run_preserve r s None _
           (fun res => Forall P res.1 /\ optP P res.2) Hs I).
  intros s' g' Hs' Hg' a [= <-]. auto.
Qed.

Lemma sub_from_preserve r repl s n :
  Forall P repl -> Forall P s -> Forall P (sub_from r repl s n).
Proof.
  intros Hr Hs. revert n. induction Hs as [|c s Hc Hs IH]; intros n.
  - cbn. destruct n, (match_at r []); auto.
  - cbn [sub_from]. destruct n as [|n]; [|apply IH].
    destruct (match_at r (c :: s)) as [[rest g]|].
    + destruct (length (c :: s) - length rest)%nat;
        apply Forall_app; split; auto.
    + constructor; auto.
Qed.

Lemma split_from_preserve r s n cur :
  Forall P cur -> Forall P s -> Forall (Forall P) (split_from r s n cur).
Proof.
  intros Hc Hs. revert n cur Hc.
  induction Hs as [|c s Hx Hs IH]; intros n cur Hc.
  - cbn. auto.
  - cbn [split_from]. destruct n as [|n]; [|apply IH; exact Hc].
    assert (Hcur : Forall P (cur ++ [c]))
      by (apply Forall_app; split; auto).
    destruct (match_at r (c :: s)) as [[rest g]|] eqn:E; [|apply IH; auto].
    destruct (length (c :: s) - length rest)%nat; [apply IH; auto|].
    assert (Hcs : Forall P (c :: s)) by (constructor; assumption).
    destruct (match_at_preserve _ _ _ _ Hcs E) as [_ Hg].
    constructor; [exact Hc|]. constructor; [|apply IH; constructor].
    destruct g; cbn; [exact Hg|constructor].
Qed.

Lemma findall_from_preserve r s n :
  Forall P s -> Forall (Forall P) (findall_from r s n).
Proof.
  intros Hs. revert n. induction Hs as [|c s Hx Hs IH]; intros n.
  - constructor.
  - cbn [findall_from]. destruct n as [|n]; [|apply IH].
    destruct (match_at r (c :: s)) as [[rest g]|]; [|apply IH].
    destruct (length (c :: s) - length rest)%nat as [|m]; [apply IH|].
    constructor; [|apply IH].
    apply Forall_take. constructor; assumption.
Qed.

End Preserve.

(** Substituting nothing for a single character removes it everywhere. *)
Lemma sub_chr_removes c s : Forall (fun x => x <> c) (sub (Chr c) [] s).
Proof.
  unfold sub. induction s as [|x s IH]; [constructor|].
  cbn [sub_from]. unfold match_at at 1. cbn [run].
  destruct (N.eqb_spec x c) as [->|Hx].
  - replace (length (c :: s) - length s)%nat with 1%nat by (cbn; lia).
    exact IH.
  - constructor; assumption.
Qed.

End ReMore.

Module WriterMore.
Import Py Re Terminal TerminalSpec TerminalSpec2 ReFacts ReMore TerminalFacts.

Lemma strip_controls_quiet Nd text :
  Forall quiet_char (strip_controls Nd text).
Proof.
  unfold strip_controls.
  assert (H : Forall quiet_char
                (sub re_bel [] (sub re_bs [] (sub re_osc (lit "n1n") text)))).
  { apply Forall_and. split.
    - apply sub_from_preserve; [constructor|]. apply sub_chr_removes.
    - apply sub_chr_removes. }
  do 9 (apply sub_from_preserve; [constructor|]). exact H.
Qed.

Lemma join_preserve (P : N -> Prop) sep items :
  Forall P sep -> Forall (Forall P) items -> Forall P (join sep items).
Proof.
  intros Hsep H. induction H as [|x items Hx Hi IH]; [constructor|].
  cbn [join]. destruct items as [|y items]; [exact Hx|].
  apply Forall_app. split; [exact Hx|]. apply Forall_app. split; assumption.
Qed.

Lemma quiet_insert t tag : Forall quiet_char t -> quiet_ops [Insert t tag].
Proof.
  intros H. unfold quiet_ops, inserted. cbn [flat_map]. rewrite app_nil_r.
  apply Forall_map. exact H.
Qed.

Lemma quiet_ops_app o1 o2 : quiet_ops o1 -> quiet_ops o2 -> quiet_ops (o1 ++ o2).
Proof.
  unfold quiet_ops. rewrite inserted_app. intros. apply Forall_app. auto.
Qed.

Lemma quiet_newline : Forall quiet_char newline.
Proof. repeat constructor; discriminate. Qed.

Lemma quiet_blank : Forall quiet_char [32].
Proof. repeat constructor; discriminate. Qed.

Lemma insert_chunk_quiet chunk tag :
  Forall quiet_char chunk ->
  exists ops, insert_chunk chunk tag = inr ops /\ quiet_ops ops.
Proof.
  intros H. unfold insert_chunk. destruct chunk as [|c chunk].
  { exists []. split; [reflexivity|constructor]. }
  set (run := c :: chunk) in *.
  assert (Hf : quiet_ops [Insert (sub re_n1n newline run) None]).
  { apply quiet_insert. apply sub_from_preserve; [apply quiet_newline|exact H]. }
  unfold try_insert.
  assert (Htok : Forall (Forall quiet_char)
                   (map (sub re_n1n newline) (findall re_token run))).
  { apply Forall_map. eapply Forall_impl.
    - apply (findall_from_preserve quiet_char re_token run 0 H).
    - intros t Ht. apply sub_from_preserve; [apply quiet_newline|exact Ht]. }
  destruct (String.eqb tag ""); cbn [bind raise ret]; [eauto|].
  destruct (map (sub re_n1n newline) (findall re_token run)) as [|t ts];
    cbn [getidx lookup list_lookup bind raise ret]; [eauto|].
  eexists. split; [reflexivity|].
  apply Forall_cons in Htok as [Ht Hts].
  apply (quiet_ops_app [_] [_]); apply quiet_insert.
  - apply Forall_app. split; [exact Ht | apply quiet_blank].
  - apply join_preserve; [apply quiet_blank | exact Hts].
Qed.

Lemma render_parts_quiet n : forall parts tag,
  (length parts <= n)%nat ->
  Forall (Forall quiet_char) parts ->
  exists ops, render_parts parts tag = inr ops /\ quiet_ops ops.
Proof.
  induction n as [|n IH]; intros parts tag Hn Hp.
  { destruct parts; [|cbn in Hn; lia]. exists []. split; [reflexivity|constructor]. }
  destruct parts as [|chunk [|code rest]].
  - exists []. split; [reflexivity|constructor].
  - apply Forall_cons in Hp as [Hc _]. cbn [render_parts].
    apply insert_chunk_quiet. exact Hc.
  - apply Forall_cons in Hp as [Hc Hp]. apply Forall_cons in Hp as [_ Hr].
    cbn [render_parts].
    destruct (insert_chunk_quiet chunk (apply_sgr tag code) Hc)
      as (o & -> & Ho).
    destruct (IH rest (apply_sgr tag code)) as (os & -> & Hos);
      [cbn in Hn; lia | exact Hr |].
    exists (o ++ os). split; [reflexivity|]. apply quiet_ops_app; assumption.
Qed.

(** X19: for every chunk and every state of the writer, [write_ansi]
    returns normally, leaves the redraw flag [detect] cleared, and inserts
    neither a backspace nor a bell character into the buffer. *)
Theorem write_ansi_inserts_no_control_bytes Nd el st text :
  exists st' ops,
    write_ansi Nd el st text = inr (st', ops)
    /\ detect st' = false
    /\ Forall (fun ct : N * option string => ct.1 <> 8 /\ ct.1 <> 7)
         (inserted ops).
Proof.
  unfold write_ansi.
  set (t := strip_controls Nd text).
  assert (Hp : Forall (Forall quiet_char) (split ansi_escape t)).
  { apply split_from_preserve; [constructor | apply strip_controls_quiet]. }
  destruct (render_parts_quiet _ _ "" (le_n _) Hp) as (o & E & Ho).
  rewrite E. cbn [bind ret].
  destruct (detect st) eqn:Hd.
  - pose proof (clearLine_inserts_nothing (length t) st) as Hc.
    destruct (clearLine (length t) st) as [st1 oc]. cbn [snd] in Hc.
    eexists _, _. split; [reflexivity|]. split; [reflexivity|].
    rewrite !inserted_app, Hc.
    destruct (retracts el text); cbn; rewrite app_nil_r; exact Ho.
  - eexists _, _. split; [reflexivity|]. split; [exact Hd|].
    rewrite !inserted_app.
    destruct (retracts el text); cbn; rewrite app_nil_r; exact Ho.
Qed.

End WriterMore.

Module StripMore.
Import Py Re Terminal TerminalSpec TerminalSpec2 ReFacts ReMore TerminalFacts.

(** *** Patterns that begin with ESC *)

Lemma esc_led_seq rs : esc_led (seq (Chr ESC :: rs)).
Proof.
  split; [reflexivity|]. intros c s H. unfold match_at. cbn [seq run].
  unfold ESC. rewrite H. reflexivity.
Qed.

Lemma esc_free_cons c s :
  esc_free (c :: s) = true -> (c =? 27) = false /\ esc_free s = true.
Proof.
  cbn [esc_free forallb]. intros H. apply andb_prop in H as [H1 H2].
  apply negb_true_iff in H1. auto.
Qed.

Lemma esc_free_app x y :
  esc_free (x ++ y) = true <-> esc_free x = true /\ esc_free y = true.
Proof. unfold esc_free. rewrite forallb_app. apply andb_true_iff. Qed.

Lemma esc_free_search p s :
  esc_led p -> esc_free s = true -> search p s = false.
Proof.
  intros [H0 Hc]. induction s as [|c s IH]; intros H.
  - cbn [search]. rewrite H0. reflexivity.
  - apply esc_free_cons in H as [H1 H2]. cbn [search].
    rewrite (Hc _ _ H1). auto.
Qed.

Lemma sub_esc_free p repl s :
  esc_led p -> esc_free s = true -> sub p repl s = s.
Proof. intros. apply sub_id. apply esc_free_search; assumption. Qed.

Lemma sub_past_prefix p repl x s :
  esc_led p -> esc_free x = true -> sub p repl (x ++ s) = x ++ sub p repl s.
Proof.
  intros Hp. induction x as [|c x IH]; intros H; [reflexivity|].
  apply esc_free_cons in H as [H1 H2]. cbn [app].
  rewrite sub_miss by (apply Hp; exact H1). rewrite IH by assumption.
  reflexivity.
Qed.

(** A pattern that does not match at an ESC leaves the text alone when
    there is no other ESC. *)
Lemma sub_miss_at_esc p repl x tail :
  esc_led p -> esc_free x = true -> esc_free tail = true ->
  match_at p (27 :: tail) = None ->
  sub p repl (x ++ 27 :: tail) = x ++ 27 :: tail.
Proof.
  intros Hp Hx Ht Hm. rewrite sub_past_prefix by assumption.
  rewrite sub_miss by exact Hm. rewrite sub_esc_free by assumption.
  reflexivity.
Qed.

(** A pattern that matches exactly [ESC body] replaces it. *)
Lemma sub_hit_at_esc p repl x body y g :
  esc_led p -> esc_free x = true -> esc_free y = true ->
  match_at p (27 :: body ++ y) = Some (y, g) ->
  sub p repl (x ++ 27 :: body ++ y) = x ++ repl ++ y.
Proof.
  intros Hp Hx Hy Hm. rewrite sub_past_prefix by assumption.
  rewrite (sub_hit _ _ _ _ _ _ Hm). rewrite sub_esc_free by assumption.
  reflexivity.
Qed.

(** *** Taking out one character *)

Lemma sub_chr_filter c s :
  sub (Chr c) [] s = List.filter (fun x => negb (x =? c)) s.
Proof.
  unfold sub. induction s as [|x s IH]; [reflexivity|].
  cbn [sub_from List.filter]. unfold match_at at 1. cbn [run].
  destruct (x =? c); cbn [negb].
  - replace (length (x :: s) - length s)%nat with 1%nat by (cbn; lia).
    exact IH.
  - rewrite IH. reflexivity.
Qed.

Lemma filter_keeps (f : N -> bool) s :
  forallb f s = true -> List.filter f s = s.
Proof.
  induction s as [|c s IH]; [reflexivity|]. cbn. intros H.
  apply andb_prop in H as [H1 H2]. rewrite H1, IH by assumption. reflexivity.
Qed.

Lemma esc_free_filter f s :
  esc_free s = true -> esc_free (List.filter f s) = true.
Proof.
  induction s as [|c s IH]; [auto|]. intros H.
  apply esc_free_cons in H as [H1 H2]. cbn [List.filter].
  destruct (f c); [|auto]. cbn [esc_free forallb]. rewrite H1. cbn.
  apply IH. exact H2.
Qed.

Lemma esc_free_unbell s : esc_free s = true -> esc_free (unbell s) = true.
Proof. intros. unfold unbell. do 2 apply esc_free_filter. assumption. Qed.

(** Both single-character substitutions, around a middle part that has
    neither character. *)
Lemma sub_bs_bel_around x mid y :
  forallb (fun c => negb (c =? 8) && negb (c =? 7)) mid = true ->
  sub re_bel [] (sub re_bs [] (x ++ mid ++ y)) = unbell x ++ mid ++ unbell y.
Proof.
  intros H. unfold re_bel, re_bs. rewrite !sub_chr_filter.
  rewrite !List.filter_app. unfold unbell.
  assert (H8 : forallb (fun c => negb (c =? 8)) mid = true).
  { rewrite forallb_forall in H |- *. intros c Hc.
    specialize (H c Hc). apply andb_prop in H. tauto. }
  assert (H7 : forallb (fun c => negb (c =? 7)) mid = true).
  { rewrite forallb_forall in H |- *. intros c Hc.
    specialize (H c Hc). apply andb_prop in H. tauto. }
  rewrite (filter_keeps _ mid H8), (filter_keeps _ mid H7). reflexivity.
Qed.

(** *** Stars *)

Lemma star_greedy_through {A} p u c s (k : str -> option A) a :
  forallb p u = true ->
  star_greedy p (c :: s) k = Some a ->
  star_greedy p (u ++ c :: s) k = Some a.
Proof.
  intros Hu Hk. induction u as [|x u IH]; [exact Hk|].
  cbn [forallb] in Hu. apply andb_prop in Hu as [Hx Hu].
  cbn [app star_greedy]. rewrite Hx, (IH Hu). reflexivity.
Qed.

Lemma star_lazy_through {A} p u s (k : str -> option A) :
  forallb p u = true ->
  (forall c t, In c u -> k (c :: t) = None) ->
  star_lazy p (u ++ s) k = star_lazy p s k.
Proof.
  intros Hu Hk. induction u as [|x u IH]; [reflexivity|].
  cbn [forallb] in Hu. apply andb_prop in Hu as [Hx Hu].
  cbn [app star_lazy]. rewrite (Hk x (u ++ s)) by (left; reflexivity).
  rewrite Hx. apply IH; [exact Hu|]. intros c t Hc. apply Hk. right. exact Hc.
Qed.

End StripMore.

Module ControlMore.
Import Py Re Terminal TerminalSpec TerminalSpec2 ReFacts ReMore TerminalFacts.
Import StripMore.

Lemma forallb_imp (f g : N -> bool) s :
  (forall c, f c = true -> g c = true) ->
  forallb f s = true -> forallb g s = true.
Proof.
  intros H. induction s as [|c s IH]; [auto|]. cbn. intros Hs.
  apply andb_prop in Hs as [H1 H2]. rewrite (H c H1), IH by assumption.
  reflexivity.
Qed.

Lemma digit_or_semi_range c : digit_or_semi c = true -> 48 <= c <= 59.
Proof.
  unfold digit_or_semi. intros H. apply orb_prop in H as [H|H].
  - apply andb_prop in H as [H1 H2].
    apply N.leb_le in H1, H2. lia.
  - apply N.eqb_eq in H. lia.
Qed.

Lemma final_HfJK c :
  one_of "HfJK" c = true -> c = 72 \/ c = 102 \/ c = 74 \/ c = 75.
Proof.
  unfold one_of. change (lit "HfJK") with [72; 102; 74; 75].
  cbn [existsb]. rewrite !orb_true_iff, !N.eqb_eq. intuition discriminate.
Qed.

Ltac char_facts :=
  repeat match goal with
  | H : digit_or_semi _ = true |- _ => apply digit_or_semi_range in H
  | H : one_of "HfJK" _ = true |- _ => apply final_HfJK in H
  end.

Ltac esc_side tac :=
  lazymatch goal with
  | |- esc_led _ => apply esc_led_seq
  | |- esc_free _ = true => assumption
  | |- _ => tac
  end.

Lemma neqb c n : c <> n -> (c =? n) = false.
Proof. apply N.eqb_neq. Qed.

(** After the controls are stripped to [t], which holds no SGR sequence,
    the call inserts [t] once, untagged, with the sentinel rewritten. *)
Lemma write_ansi_stripped Nd el st text t :
  strip_controls Nd text = t ->
  search ansi_escape t = false ->
  write_ansi Nd el st text
  = inr (if detect st
         then ((Term (writing (clearLine (length t) st).1) (length t) false),
               (if retracts el text then [DeleteCharacter] else [])
               ++ (clearLine (length t) st).2 ++ insert_plain t
               ++ [MarkPrompt; See])
         else (st, (if retracts el text then [DeleteCharacter] else [])
                   ++ [] ++ insert_plain t ++ [MarkPrompt; See])).
Proof.
  intros Ht Hs. unfold write_ansi. rewrite Ht, (split_id _ _ Hs).
  cbn [render_parts]. rewrite insert_chunk_untagged.
  fold (insert_plain t).
  destruct (detect st); [|reflexivity].
  destruct (clearLine (length t) st) as [st1 o]. reflexivity.
Qed.

Lemma inserted_stripped Nd el st text t :
  strip_controls Nd text = t ->
  search ansi_escape t = false ->
  exists st' ops,
    write_ansi Nd el st text = inr (st', ops)
    /\ inserted ops = map (fun c => (c, None)) (sub re_n1n newline t).
Proof.
  intros Ht Hs. rewrite (write_ansi_stripped Nd el st text t Ht Hs).
  assert (Hi : inserted (insert_plain t)
               = map (fun c => (c, None)) (sub re_n1n newline t)).
  { destruct t; [reflexivity|]. unfold insert_plain, inserted.
    cbn [flat_map]. apply app_nil_r. }
  destruct (detect st).
  - eexists _, _. split; [reflexivity|]. rewrite !inserted_app.
    rewrite clearLine_inserts_nothing, Hi.
    destruct (retracts el text); cbn; rewrite app_nil_r; reflexivity.
  - eexists _, _. split; [reflexivity|]. rewrite !inserted_app, Hi.
    destruct (retracts el text); cbn; rewrite app_nil_r; reflexivity.
Qed.

(** The substitutions that come after the one that removed the control
    sequence find nothing in text without ESC. *)
Lemma rest_of_chain_esc_free Nd t :
  esc_free t = true ->
  sub re_1Pm [] (sub re_reset [] (sub re_query []
    (sub (re_rowcol Nd) [] (sub (re_move Nd) [] (sub re_paste []
       (sub re_query [] t)))))) = t.
Proof.
  intros H.
  rewrite (sub_esc_free re_query [] t) by (esc_side idtac).
  rewrite (sub_esc_free re_paste [] t) by (esc_side idtac).
  rewrite (sub_esc_free (re_move Nd) [] t) by (esc_side idtac).
  rewrite (sub_esc_free (re_rowcol Nd) [] t) by (esc_side idtac).
  rewrite (sub_esc_free re_query [] t) by (esc_side idtac).
  rewrite (sub_esc_free re_reset [] t) by (esc_side idtac).
  rewrite (sub_esc_free re_1Pm [] t) by (esc_side idtac).
  reflexivity.
Qed.

Section Erase.
Variables (x ps y : str) (f : N).
Hypothesis Hx : esc_free x = true.
Hypothesis Hy : esc_free y = true.
Hypothesis Hps : forallb digit_or_semi ps = true.
Hypothesis Hf : one_of "HfJK" f = true.

Lemma erase_seq_esc_free : esc_free (csi_body ps f) = true.
Proof using Hps Hf.
  unfold csi_body. cbn [esc_free forallb]. cbn [negb N.eqb Pos.eqb andb].
  apply esc_free_app. split.
  - apply (forallb_imp digit_or_semi); [|exact Hps].
    intros c Hc. char_facts. apply negb_true_iff, neqb. lia.
  - cbn [esc_free forallb]. rewrite andb_true_r.
    apply negb_true_iff, neqb. char_facts. lia.
Qed.

Lemma erase_seq_unbelled :
  forallb (fun c => negb (c =? 8) && negb (c =? 7)) (27 :: (csi_body ps f)) = true.
Proof using Hps Hf.
  unfold csi_body. cbn [forallb]. cbn [negb N.eqb Pos.eqb andb].
  rewrite forallb_app. apply andb_true_intro. split.
  - apply (forallb_imp digit_or_semi); [|exact Hps].
    intros c Hc. char_facts.
    apply andb_true_intro; split; apply negb_true_iff, neqb; lia.
  - cbn [forallb]. rewrite andb_true_r. char_facts.
    apply andb_true_intro; split; apply negb_true_iff, neqb; lia.
Qed.

Lemma erase_seq_match rest :
  match_at re_cursor_erase (27 :: (csi_body ps f) ++ rest) = Some (rest, None).
Proof using Hps Hf.
  unfold match_at, re_cursor_erase, csi_body. cbn [seq run app].
  unfold ESC. rewrite !N.eqb_refl. rewrite <- app_assoc. cbn [app].
  apply star_greedy_through; [exact Hps|].
  cbn [star_greedy].
  replace (digit_or_semi f) with false.
  - rewrite Hf. reflexivity.
  - symmetry. pose proof Hf as Hf'. char_facts.
    unfold digit_or_semi.
    destruct Hf' as [-> | [-> | [-> | ->]]]; reflexivity.
Qed.

Lemma erase_seq_not_osc rest : match_at re_osc (27 :: (csi_body ps f) ++ rest) = None.
Proof. reflexivity. Qed.

Lemma erase_seq_not_paste rest :
  match_at re_paste (27 :: (csi_body ps f) ++ rest) = None.
Proof using Hps Hf.
  unfold match_at, re_paste, csi_body. cbn [seq run app txt].
  change (lit "[?2004") with [91; 63; 50; 48; 48; 52]. cbn [txt run].
  unfold ESC. rewrite !N.eqb_refl.
  destruct ps as [|c ps'].
  - cbn [app]. replace (f =? 63) with false; [reflexivity|].
    symmetry. apply neqb. char_facts. lia.
  - cbn [app]. cbn [forallb] in Hps. apply andb_prop in Hps as [Hc _].
    replace (c =? 63) with false; [reflexivity|].
    symmetry. apply neqb. char_facts. lia.
Qed.

Lemma erase_strip Nd :
  strip_controls Nd (x ++ 27 :: (csi_body ps f) ++ y) = unbell x ++ unbell y.
Proof using Hx Hy Hps Hf.
  unfold strip_controls.
  assert (Hsy : esc_free ((csi_body ps f) ++ y) = true)
    by (apply esc_free_app; split; [apply erase_seq_esc_free|exact Hy]).
  rewrite (sub_miss_at_esc re_osc _ x ((csi_body ps f) ++ y))
    by (esc_side ltac:(apply erase_seq_not_osc)).
  change (x ++ 27 :: (csi_body ps f) ++ y) with (x ++ (27 :: (csi_body ps f)) ++ y).
  rewrite (sub_bs_bel_around x (27 :: (csi_body ps f)) y erase_seq_unbelled).
  cbn [app].
  assert (Hux := esc_free_unbell x Hx). assert (Huy := esc_free_unbell y Hy).
  assert (Hsuy : esc_free ((csi_body ps f) ++ unbell y) = true)
    by (apply esc_free_app; split; [apply erase_seq_esc_free|exact Huy]).
  rewrite (sub_miss_at_esc re_paste _ (unbell x) ((csi_body ps f) ++ unbell y))
    by (esc_side ltac:(apply erase_seq_not_paste)).
  rewrite (sub_hit_at_esc re_cursor_erase [] (unbell x) (csi_body ps f) (unbell y) None)
    by (esc_side ltac:(apply erase_seq_match)).
  cbn [app]. apply rest_of_chain_esc_free.
  apply esc_free_app. split; assumption.
Qed.

Lemma erase_retracts el : retracts el (x ++ 27 :: (csi_body ps f) ++ y) = true.
Proof using Hx Hy Hps Hf.
  unfold retracts.
  rewrite (sub_hit_at_esc re_cursor_erase [] x (csi_body ps f) y None)
    by (esc_side ltac:(apply erase_seq_match)).
  rewrite bool_decide_eq_false_2; [reflexivity|].
  intros E. apply (f_equal (@length N)) in E.
  rewrite !length_app in E. cbn [length] in E. rewrite length_app in E.
  cbn [app length] in E. lia.
Qed.

End Erase.

(** X20: a cursor or erase sequence (CSI, parameters, final H, f, J or K)
    in text that has no other ESC makes the writer call [deleteCharacter]
    once, whatever the cursor position, and then insert the rest of the
    chunk, with its backspaces and bells left out, in one untagged piece.
    In particular the usual echo of a backspace, backspace then CSI K,
    retracts one character and inserts nothing. *)
Theorem erase_sequence_retracts_once Nd el st x ps f y :
  detect st = false ->
  esc_free x = true -> esc_free y = true ->
  forallb digit_or_semi ps = true -> one_of "HfJK" f = true ->
  write_ansi Nd el st (x ++ ESC :: 91 :: ps ++ f :: y)
  = inr (st, DeleteCharacter :: insert_plain (unbell x ++ unbell y)
               ++ [MarkPrompt; See]).
Proof.
  intros Hd Hx Hy Hps Hf.
  replace (x ++ ESC :: 91 :: ps ++ f :: y)
    with (x ++ 27 :: csi_body ps f ++ y)
    by (unfold csi_body; cbn [app]; rewrite <- app_assoc; reflexivity).
  rewrite (write_ansi_stripped Nd el st _ (unbell x ++ unbell y)).
  - rewrite Hd, (erase_retracts x ps y f Hx Hy Hps Hf). reflexivity.
  - apply erase_strip; assumption.
  - apply esc_free_search; [apply esc_led_seq|].
    apply esc_free_app. split; apply esc_free_unbell; assumption.
Qed.

Lemma erase_sequence_retracts_once_witness :
  write_ansi no_digits_beyond_ascii false fresh_term
    ([8] ++ ESC :: 91 :: [] ++ 75 :: [])
  = inr (fresh_term, [DeleteCharacter; MarkPrompt; See]).
Proof.
  apply (erase_sequence_retracts_once no_digits_beyond_ascii false
           fresh_term [8] [] 75 []); reflexivity.
Defined.

Section Osc.
Variables (x payload y : str).
Hypothesis Hx : esc_free x = true.
Hypothesis Hy : esc_free y = true.
Hypothesis Hpayload :
  forallb (fun c => negb (c =? 27) && negb (c =? 7) && negb (c =? 10))
    payload = true.

Lemma osc_payload c :
  In c payload -> (c =? 27) = false /\ (c =? 7) = false /\ (c =? 10) = false.
Proof using Hpayload.
  intros Hc. rewrite forallb_forall in Hpayload.
  specialize (Hpayload c Hc).
  apply andb_prop in Hpayload as [H1 H3]. apply andb_prop in H1 as [H1 H2].
  rewrite !negb_true_iff in *. auto.
Qed.

Lemma osc_match term rest :
  term = [7] \/ term = [27; 92] ->
  exists g,
    match_at re_osc (27 :: (93 :: payload ++ term) ++ rest) = Some (rest, g).
Proof using Hpayload.
  intros Hterm. unfold match_at, re_osc. cbn [seq run app].
  unfold ESC. rewrite !N.eqb_refl. rewrite <- app_assoc.
  rewrite star_lazy_through.
  - destruct Hterm as [-> | ->]; cbn [app star_lazy run];
      rewrite ?N.eqb_refl; cbn [N.eqb Pos.eqb]; eexists; reflexivity.
  - apply forallb_forall. intros c Hc. apply osc_payload in Hc.
    unfold any_but_newline. apply negb_true_iff. tauto.
  - intros c t Hc. apply osc_payload in Hc as (H27 & H7 & _).
    cbn [run]. rewrite H7, H27. reflexivity.
Qed.

Lemma osc_strip Nd term :
  term = [7] \/ term = [27; 92] ->
  strip_controls Nd (x ++ 27 :: (93 :: payload ++ term) ++ y)
  = unbell x ++ lit "n1n" ++ unbell y.
Proof using Hx Hy Hpayload.
  intros Hterm. unfold strip_controls.
  destruct (osc_match term y Hterm) as [g Hm].
  rewrite (sub_hit_at_esc re_osc (lit "n1n") x _ y g)
    by (esc_side ltac:(exact Hm)).
  rewrite (sub_bs_bel_around x (lit "n1n") y) by reflexivity.
  assert (Hux := esc_free_unbell x Hx). assert (Huy := esc_free_unbell y Hy).
  assert (Ht : esc_free (unbell x ++ lit "n1n" ++ unbell y) = true).
  { apply esc_free_app. split; [assumption|].
    apply esc_free_app. split; [reflexivity|assumption]. }
  set (t := unbell x ++ lit "n1n" ++ unbell y) in *.
  rewrite (sub_esc_free re_paste [] t) by (esc_side idtac).
  rewrite (sub_esc_free re_cursor_erase [] t) by (esc_side idtac).
  apply rest_of_chain_esc_free. exact Ht.
Qed.

End Osc.

(** X21: an operating-system command (ESC ], a payload on one line, then
    BEL or ESC backslash) in text that has no other ESC is shown as a line
    break: what is inserted is the text before it, a newline, and the text
    after it, untagged and without their backspaces and bells.  The text
    before it must not itself run into the sentinel [n1n]. *)
Theorem osc_sequence_becomes_line_break Nd el st x payload term y :
  esc_free x = true -> esc_free y = true ->
  forallb (fun c => negb (c =? 27) && negb (c =? 7) && negb (c =? 10))
    payload = true ->
  term = [7] \/ term = [27; 92] ->
  search re_n1n (unbell x ++ lit "n1") = false ->
  exists st' ops,
    write_ansi Nd el st (x ++ ESC :: 93 :: payload ++ term ++ y)
    = inr (st', ops)
    /\ inserted ops
       = map (fun c => (c, None))
           (unbell x ++ newline ++ sub re_n1n newline (unbell y)).
Proof.
  intros Hx Hy Hp Hterm Hn.
  replace (x ++ ESC :: 93 :: payload ++ term ++ y)
    with (x ++ 27 :: (93 :: payload ++ term) ++ y)
    by (cbn [app]; rewrite <- app_assoc; reflexivity).
  rewrite <- (sub_n1n_first _ _ Hn).
  apply inserted_stripped.
  - apply osc_strip; assumption.
  - apply esc_free_search; [apply esc_led_seq|].
    apply esc_free_app. split; [apply esc_free_unbell; assumption|].
    apply esc_free_app. split; [reflexivity|].
    apply esc_free_unbell; assumption.
Qed.

Lemma osc_sequence_becomes_line_break_witness :
  exists st' ops,
    write_ansi no_digits_beyond_ascii false fresh_term
      (lit "ab" ++ ESC :: 93 :: lit "0;title" ++ [7] ++ lit "$ ")
    = inr (st', ops)
    /\ inserted ops
       = map (fun c => (c, None))
           (unbell (lit "ab") ++ newline
            ++ sub re_n1n newline (unbell (lit "$ "))).
Proof.
  apply (osc_sequence_becomes_line_break no_digits_beyond_ascii false
           fresh_term (lit "ab") (lit "0;title") [7] (lit "$ "));
    try reflexivity.
  left. reflexivity.
Defined.

End ControlMore.

Module SgrMore.
Import Py Re Terminal TerminalSpec TerminalSpec2 ReFacts ReMore TerminalFacts.
Import StripMore ControlMore.

(** *** A star that cannot be followed *)

Lemma star_greedy_dead {A} (P : N -> Prop) p u e s (k : str -> option A) :
  Forall P u -> p e = false ->
  (forall u2, Forall P u2 -> k (u2 ++ e :: s) = None) ->
  star_greedy p (u ++ e :: s) k = None.
Proof.
  intros Hu He Hk. induction Hu as [|x u Hx Hu IH].
  - cbn [app star_greedy]. rewrite He. apply (Hk []). constructor.
  - cbn [app star_greedy]. rewrite IH.
    assert (Hd : k (x :: u ++ e :: s) = None)
      by (apply (Hk (x :: u)); constructor; assumption).
    rewrite Hd. destruct (p x); reflexivity.
Qed.

(** *** The scanners of [split] *)

Lemma split_from_past_prefix r x s cur :
  esc_led r -> esc_free x = true ->
  split_from r (x ++ s) 0 cur = split_from r s 0 (cur ++ x).
Proof.
  intros Hr. revert cur. induction x as [|c x IH]; intros cur H.
  - rewrite app_nil_r. reflexivity.
  - apply esc_free_cons in H as [H1 H2]. cbn [app split_from].
    rewrite (proj2 Hr _ _ H1), IH by assumption.
    rewrite <- app_assoc. reflexivity.
Qed.

Lemma split_from_skip r x y cur :
  split_from r (x ++ y) (length x) cur = split_from r y 0 cur.
Proof. induction x as [|c x IH]; [reflexivity|]. cbn. exact IH. Qed.

Lemma split_hit r c m b g cur :
  match_at r (c :: m ++ b) = Some (b, g) ->
  split_from r (c :: m ++ b) 0 cur
  = cur :: default [] g :: split_from r b 0 [].
Proof.
  intros H. cbn [split_from]. rewrite H.
  replace (length (c :: m ++ b) - length b)%nat with (S (length m))
    by (cbn; rewrite length_app; lia).
  rewrite split_from_skip. reflexivity.
Qed.

Lemma insert_chunk_total chunk tag : exists o, insert_chunk chunk tag = inr o.
Proof.
  unfold insert_chunk. destruct chunk; [eexists; reflexivity|].
  destruct (try_insert _ _); eexists; reflexivity.
Qed.

Lemma apply_sgr_fresh code : apply_sgr "" code = map_tag code.
Proof.
  unfold apply_sgr. destruct (String.eqb_spec (map_tag code) ""); congruence.
Qed.

(** *** The characters of an SGR code *)

Lemma code_char d :
  digit_or_semi d = true ->
  one_of "HfJK" d = false /\ one_of "Hf" d = false
  /\ A_to_H_or_J d = false /\ (d =? 109) = false /\ (d =? 63) = false
  /\ (d =? 110) = false /\ (d =? 80) = false /\ (d =? 27) = false
  /\ (d =? 8) = false /\ (d =? 7) = false.
Proof.
  intros H. apply digit_or_semi_range in H.
  unfold one_of, A_to_H_or_J.
  change (lit "HfJK") with [72; 102; 74; 75].
  change (lit "Hf") with [72; 102]. cbn [existsb].
  assert (E : forall n, d <> n -> (d =? n) = false) by apply neqb.
  rewrite !E by lia.
  replace (65 <=? d) with false by (symmetry; apply N.leb_gt; lia).
  repeat split; reflexivity.
Qed.

Section Sgr.
Variable c : str.
Hypothesis Hc : forallb digit_or_semi c = true.

Lemma code_chars : Forall code_char_ok c.
Proof using Hc.
  apply Forall_forall. intros d Hd. rewrite forallb_forall in Hc.
  apply Hc. apply list_elem_of_In. exact Hd.
Qed.

Lemma code_esc_free rest :
  esc_free rest = true -> esc_free (91 :: c ++ 109 :: rest) = true.
Proof using Hc.
  intros Hr. change (91 :: c ++ 109 :: rest) with ([91] ++ c ++ [109] ++ rest).
  rewrite !esc_free_app. repeat split; try reflexivity; [|exact Hr].
  apply (forallb_imp digit_or_semi); [|exact Hc].
  intros d Hd. apply code_char in Hd. apply negb_true_iff. tauto.
Qed.

Lemma code_unbelled :
  forallb (fun d => negb (d =? 8) && negb (d =? 7))
    (27 :: 91 :: c ++ [109]) = true.
Proof using Hc.
  change (27 :: 91 :: c ++ [109]) with ([27; 91] ++ c ++ [109]).
  rewrite !forallb_app. rewrite !andb_true_iff.
  repeat split; try reflexivity.
  apply (forallb_imp digit_or_semi); [|exact Hc].
  intros d Hd. apply code_char in Hd.
  destruct Hd as (_ & _ & _ & _ & _ & _ & _ & _ & H8 & H7).
  rewrite H8, H7. reflexivity.
Qed.

Lemma sgr_not_osc rest :
  match_at re_osc (27 :: 91 :: c ++ 109 :: rest) = None.
Proof. reflexivity. Qed.

Lemma sgr_not_paste rest :
  match_at re_paste (27 :: 91 :: c ++ 109 :: rest) = None.
Proof using Hc.
  unfold match_at, re_paste. cbn [seq run].
  change (lit "[?2004") with [91; 63; 50; 48; 48; 52]. cbn [txt run].
  unfold ESC. rewrite !N.eqb_refl.
  destruct c as [|a c']; [reflexivity|]. cbn [app].
  cbn [forallb] in Hc. apply andb_prop in Hc as [Ha _].
  apply code_char in Ha. destruct Ha as (_ & _ & _ & _ & -> & _).
  reflexivity.
Qed.

Lemma sgr_not_cursor_erase rest :
  match_at re_cursor_erase (27 :: 91 :: c ++ 109 :: rest) = None.
Proof using Hc.
  unfold match_at, re_cursor_erase. cbn [seq run].
  unfold ESC. rewrite !N.eqb_refl.
  apply (star_greedy_dead code_char_ok); [apply code_chars|reflexivity|].
  intros [|d u2] Hu; [reflexivity|]. cbn [app run].
  apply Forall_inv in Hu. apply code_char in Hu.
  destruct Hu as (-> & _). reflexivity.
Qed.

Lemma sgr_not_query rest :
  match_at re_query (27 :: 91 :: c ++ 109 :: rest) = None.
Proof using Hc.
  unfold match_at, re_query. cbn [seq run].
  change (lit "[6n") with [91; 54; 110]. cbn [txt run].
  unfold ESC. rewrite !N.eqb_refl.
  destruct c as [|a [|b c']]; [reflexivity| |].
  - cbn [app]. destruct (a =? 54); reflexivity.
  - cbn [app]. destruct (a =? 54); [|reflexivity].
    cbn [forallb] in Hc. apply andb_prop in Hc as [_ Hb].
    apply andb_prop in Hb as [Hb _]. apply code_char in Hb.
    destruct Hb as (_ & _ & _ & _ & _ & -> & _). reflexivity.
Qed.

Lemma sgr_not_1Pm rest :
  match_at re_1Pm (27 :: 91 :: c ++ 109 :: rest) = None.
Proof using Hc.
  unfold match_at, re_1Pm. cbn [seq run].
  change (lit "[1Pm") with [91; 49; 80; 109]. cbn [txt run].
  unfold ESC. rewrite !N.eqb_refl.
  destruct c as [|a [|b c']]; [reflexivity| |].
  - cbn [app]. destruct (a =? 49); reflexivity.
  - cbn [app]. destruct (a =? 49); [|reflexivity].
    cbn [forallb] in Hc. apply andb_prop in Hc as [_ Hb].
    apply andb_prop in Hb as [Hb _]. apply code_char in Hb.
    destruct Hb as (_ & _ & _ & _ & _ & _ & -> & _). reflexivity.
Qed.

Lemma sgr_not_move Nd rest :
  match_at (re_move Nd) (27 :: 91 :: c ++ 109 :: rest) = None.
Proof using Hc.
  unfold match_at, re_move. cbn [seq run].
  unfold ESC. rewrite !N.eqb_refl.
  apply (star_greedy_dead code_char_ok); [apply code_chars|reflexivity|].
  intros [|d u2] Hu; [reflexivity|]. cbn [app run].
  apply Forall_inv in Hu. apply code_char in Hu.
  destruct Hu as (_ & _ & -> & _). reflexivity.
Qed.

Lemma sgr_not_rowcol Nd rest :
  match_at (re_rowcol Nd) (27 :: 91 :: c ++ 109 :: rest) = None.
Proof using Hc.
  unfold match_at, re_rowcol. cbn [seq run].
  unfold ESC. rewrite !N.eqb_refl.
  pose proof code_chars as Hd.
  destruct c as [|a c']; [reflexivity|]. cbn [app].
  destruct (is_digit Nd a); [|reflexivity].
  apply Forall_inv_tail in Hd.
  apply (star_greedy_dead code_char_ok); [exact Hd|reflexivity|].
  intros [|b u3] Hu; [reflexivity|]. cbn [app run].
  destruct (b =? 59); [|reflexivity].
  apply Forall_inv_tail in Hu.
  destruct u3 as [|e u4]; [reflexivity|]. cbn [app].
  destruct (is_digit Nd e); [|reflexivity].
  apply Forall_inv_tail in Hu.
  apply (star_greedy_dead code_char_ok); [exact Hu|reflexivity|].
  intros [|d u5] Hu5; [reflexivity|]. cbn [app run].
  apply Forall_inv in Hu5. apply code_char in Hu5.
  destruct Hu5 as (_ & -> & _). reflexivity.
Qed.

Lemma sgr_not_reset rest :
  c <> [] -> c <> [48] ->
  match_at re_reset (27 :: 91 :: c ++ 109 :: rest) = None.
Proof using Hc.
  intros Hne H0. unfold match_at, re_reset. cbn [seq run].
  unfold ESC. rewrite !N.eqb_refl.
  destruct c as [|a c']; [contradiction|]. cbn [app].
  cbn [forallb] in Hc. apply andb_prop in Hc as [Ha Hc'].
  apply code_char in Ha. destruct Ha as (_ & _ & _ & Ha & _).
  rewrite Ha. destruct (a =? 48) eqn:E; [|reflexivity].
  apply N.eqb_eq in E. subst a.
  destruct c' as [|b c'']; [contradiction|]. cbn [app].
  cbn [forallb] in Hc'. apply andb_prop in Hc' as [Hb _].
  apply code_char in Hb. destruct Hb as (_ & _ & _ & -> & _).
  reflexivity.
Qed.

Lemma sgr_match rest :
  match_at ansi_escape (27 :: (91 :: c ++ [109]) ++ rest)
  = Some (rest, Some c).
Proof using Hc.
  unfold match_at, ansi_escape. cbn [seq run app].
  unfold ESC. rewrite !N.eqb_refl. rewrite <- app_assoc. cbn [app].
  apply star_greedy_through; [exact Hc|].
  cbn [star_greedy]. change (digit_or_semi 109) with false. cbn iota.
  rewrite N.eqb_refl. do 3 f_equal.
  rewrite length_app.
  replace (length c + length (109%N :: rest) - length (109%N :: rest))%nat
    with (length c + 0)%nat by lia.
  rewrite firstn_app_2. cbn [firstn]. apply app_nil_r.
Qed.

Lemma sgr_strip Nd x y :
  c <> [] -> c <> [48] ->
  esc_free x = true -> esc_free y = true ->
  strip_controls Nd (x ++ 27 :: 91 :: c ++ 109 :: y)
  = unbell x ++ 27 :: 91 :: c ++ 109 :: unbell y.
Proof using Hc.
  intros Hne H0 Hx Hy. unfold strip_controls.
  assert (Hty := code_esc_free y Hy).
  rewrite (sub_miss_at_esc re_osc _ x (91 :: c ++ 109 :: y))
    by (esc_side ltac:(apply sgr_not_osc)).
  replace (x ++ 27 :: 91 :: c ++ 109 :: y)
    with (x ++ (27 :: 91 :: c ++ [109]) ++ y)
    by (cbn [app]; rewrite <- app_assoc; reflexivity).
  rewrite (sub_bs_bel_around x _ y code_unbelled).
  replace (unbell x ++ (27 :: 91 :: c ++ [109]) ++ unbell y)
    with (unbell x ++ 27 :: 91 :: c ++ 109 :: unbell y)
    by (cbn [app]; rewrite <- app_assoc; reflexivity).
  assert (Hux := esc_free_unbell x Hx). assert (Huy := esc_free_unbell y Hy).
  assert (Htu := code_esc_free (unbell y) Huy).
  set (x' := unbell x) in *. set (t := 91 :: c ++ 109 :: unbell y) in *.
  rewrite (sub_miss_at_esc re_paste [] x' t)
    by (esc_side ltac:(apply sgr_not_paste)).
  rewrite (sub_miss_at_esc re_cursor_erase [] x' t)
    by (esc_side ltac:(apply sgr_not_cursor_erase)).
  rewrite (sub_miss_at_esc re_query [] x' t)
    by (esc_side ltac:(apply sgr_not_query)).
  rewrite (sub_miss_at_esc re_paste [] x' t)
    by (esc_side ltac:(apply sgr_not_paste)).
  rewrite (sub_miss_at_esc (re_move Nd) [] x' t)
    by (esc_side ltac:(apply sgr_not_move)).
  rewrite (sub_miss_at_esc (re_rowcol Nd) [] x' t)
    by (esc_side ltac:(apply sgr_not_rowcol)).
  rewrite (sub_miss_at_esc re_query [] x' t)
    by (esc_side ltac:(apply sgr_not_query)).
  rewrite (sub_miss_at_esc re_reset [] x' t)
    by (esc_side ltac:(apply sgr_not_reset; assumption)).
  rewrite (sub_miss_at_esc re_1Pm [] x' t)
    by (esc_side ltac:(apply sgr_not_1Pm)).
  reflexivity.
Qed.

Lemma sgr_split x y :
  esc_free x = true -> esc_free y = true ->
  split ansi_escape (x ++ 27 :: 91 :: c ++ 109 :: y) = [x; c; y].
Proof using Hc.
  intros Hx Hy. unfold split.
  rewrite split_from_past_prefix by (esc_side idtac). cbn [app].
  replace (27 :: 91 :: c ++ 109 :: y) with (27 :: (91 :: c ++ [109]) ++ y)
    by (cbn [app]; rewrite <- app_assoc; reflexivity).
  rewrite (split_hit _ _ _ _ _ _ (sgr_match y)). cbn [default].
  rewrite split_from_id
    by (apply esc_free_search; [apply esc_led_seq|exact Hy]).
  reflexivity.
Qed.

End Sgr.

(** X22: a colour sequence (CSI, a code of digits and semicolons other
    than the empty code and 0, then m) in a chunk with no other ESC puts
    both sides of it under its tag: the text before the sequence and the
    text after it are each inserted as [insert_chunk] does under the tag
    that [map_tag] gives for the code, without their backspaces and
    bells.  The tag is already in force for the text that precedes the
    sequence. *)
Theorem sgr_sequence_tags_both_sides Nd el st x c y :
  esc_free x = true -> esc_free y = true ->
  forallb digit_or_semi c = true -> c <> [] -> c <> [48] ->
  exists st' ops before after,
    write_ansi Nd el st (x ++ ESC :: 91 :: c ++ 109 :: y) = inr (st', ops)
    /\ insert_chunk (unbell x) (map_tag c) = inr before
    /\ insert_chunk (unbell y) (map_tag c) = inr after
    /\ inserted ops = inserted before ++ inserted after.
Proof.
  intros Hx Hy Hc Hne H0.
  destruct (insert_chunk_total (unbell x) (map_tag c)) as [before Hb].
  destruct (insert_chunk_total (unbell y) (map_tag c)) as [after Ha].
  unfold write_ansi, ESC. rewrite (sgr_strip c Hc Nd x y Hne H0 Hx Hy).
  rewrite (sgr_split c Hc (unbell x) (unbell y))
    by (apply esc_free_unbell; assumption).
  cbn [render_parts]. rewrite apply_sgr_fresh, Hb, Ha.
  destruct (detect st).
  - destruct (clearLine _ st) as [st1 o] eqn:E.
    eexists _, _, before, after. repeat (split; [reflexivity|]).
    rewrite !inserted_app.
    replace o with (clearLine (length (unbell x ++ 27 :: 91 :: c ++ 109
                                        :: unbell y)) st).2
      by (rewrite E; reflexivity).
    rewrite clearLine_inserts_nothing.
    destruct (retracts _ _); cbn; rewrite app_nil_r; reflexivity.
  - eexists _, _, before, after. repeat (split; [reflexivity|]).
    rewrite !inserted_app.
    destruct (retracts _ _); cbn; rewrite app_nil_r; reflexivity.
Qed.

Lemma sgr_sequence_tags_both_sides_witness :
  exists st' ops before after,
    write_ansi no_digits_beyond_ascii false fresh_term
      (lit "ok " ++ ESC :: 91 :: lit "1;32" ++ 109 :: lit "user@host")
    = inr (st', ops)
    /\ insert_chunk (unbell (lit "ok ")) (map_tag (lit "1;32")) = inr before
    /\ insert_chunk (unbell (lit "user@host")) (map_tag (lit "1;32"))
       = inr after
    /\ inserted ops = inserted before ++ inserted after.
Proof.
  apply (sgr_sequence_tags_both_sides no_digits_beyond_ascii false
           fresh_term (lit "ok ") (lit "1;32") (lit "user@host"));
    try reflexivity; discriminate.
Defined.

End SgrMore.

Module ReplaceMore.
Import Py EditorSearch.

Section Search.
Variable fold : N -> N.
Variables query replace_with : str.
Hypothesis Hq : query <> [].
Hypothesis Hline : one_line fold query.

(** *** Matching *)

Lemma matches_here_split q s :
  matches_here fold q s = true ->
  exists m r, s = m ++ r /\ length m = length q
              /\ map fold m = map fold q.
Proof.
  revert s. induction q as [|a q IH]; intros s H.
  - exists [], s. auto.
  - destruct s as [|b s]; [discriminate|]. cbn [matches_here] in H.
    apply andb_prop in H as [Hab H]. apply N.eqb_eq in Hab.
    destruct (IH s H) as (m & r & -> & Hl & Hm).
    exists (b :: m), r. cbn. rewrite Hl, Hm, Hab. auto.
Qed.

Lemma matches_here_app q s t :
  matches_here fold q s = true -> matches_here fold q (s ++ t) = true.
Proof.
  revert s. induction q as [|a q IH]; intros s H; [reflexivity|].
  destruct s as [|b s]; [discriminate|]. cbn [matches_here app] in *.
  apply andb_prop in H as [Hab H]. rewrite Hab, (IH s H). reflexivity.
Qed.

(** A match of a one-line query does not take in a newline. *)
Lemma match_has_no_newline m :
  map fold m = map fold query -> ~ In 10 m.
Proof.
  intros Hm Hin. unfold one_line in Hline. rewrite Forall_forall in Hline.
  assert (Hf : In (fold 10) (map fold query))
    by (rewrite <- Hm; apply in_map; exact Hin).
  apply in_map_iff in Hf as (c & Hc & Hcq).
  apply (Hline c); [apply list_elem_of_In; exact Hcq|exact Hc].
Qed.

(** *** Searching *)

Lemma search_fwd_some q s pos a :
  search_fwd fold q s pos = Some a ->
  exists pre rest,
    s = pre ++ rest /\ a = (pos + length pre)%nat
    /\ matches_here fold q rest = true.
Proof.
  revert pos. induction s as [|c s IH]; intros pos H; [discriminate|].
  cbn [search_fwd] in H.
  destruct (matches_here fold q (c :: s)) eqn:E.
  - injection H as <-. exists [], (c :: s). cbn. rewrite Nat.add_0_r. auto.
  - destruct (IH _ H) as (pre & rest & -> & -> & Hm).
    exists (c :: pre), rest. cbn. repeat split; [lia|exact Hm].
Qed.

Lemma search_fwd_finds q pre rest pos :
  rest <> [] -> matches_here fold q rest = true ->
  search_fwd fold q (pre ++ rest) pos <> None.
Proof.
  intros Hr Hm. revert pos. induction pre as [|c pre IH]; intros pos.
  - cbn [app]. destruct rest as [|c rest]; [contradiction|].
    cbn [search_fwd]. rewrite Hm. discriminate.
  - cbn [app search_fwd].
    destruct (matches_here fold q (c :: pre ++ rest)); [discriminate|].
    apply IH.
Qed.

(** *** One round *)

(** A match the search finds lies inside the text proper. *)
Lemma search_some w a :
  text_search fold w query = Some a ->
  exists pre m post,
    Tk.chars w = pre ++ m ++ post /\ a = length pre
    /\ length m = length query.
Proof.
  unfold text_search, Tk.whole. intros H.
  apply search_fwd_some in H as (pre & rest & E & -> & Hm).
  apply matches_here_split in Hm as (m & r & -> & Hl & Hf).
  assert (Hm : m <> []).
  { intros ->. destruct query; [contradiction|discriminate]. }
  destruct r as [|x r0].
  - exfalso. rewrite app_nil_r in E.
    destruct (exists_last Hm) as (m' & l & ->).
    rewrite app_assoc in E. apply app_inj_tail in E as [_ <-].
    apply (match_has_no_newline _ Hf). apply in_or_app. right. left.
    reflexivity.
  - assert (Hr : x :: r0 <> []) by discriminate.
    destruct (exists_last Hr) as (post & l & Er). rewrite Er in E.
    rewrite !app_assoc in E. apply app_inj_tail in E as [E _].
    exists pre, m, post. rewrite <- app_assoc in E. auto.
Qed.

Lemma replace_round pre m post :
  length m = length query ->
  Tk.insert
    (Tk.delete (Tk.Text (pre ++ m ++ post)) (Tk.At (length pre))
       (Tk.At (length pre + length query)))
    (Tk.At (length pre)) replace_with
  = Tk.Text (pre ++ replace_with ++ post).
Proof.
  intros Hl.
  assert (Hpos : (0 < length query)%nat)
    by (destruct query; [contradiction|cbn; lia]).
  unfold Tk.delete, Tk.offset, Tk.whole. cbn [Tk.chars].
  rewrite !length_app. cbn [length].
  rewrite !Nat.min_l by lia.
  destruct (Nat.leb_spec (length pre + length query) (length pre)) as [?|_];
    [lia|].
  destruct (Nat.ltb_spec (length pre + (length m + length post))
              (length pre + length query)) as [?|_]; [lia|].
  rewrite firstn_app, Nat.sub_diag, firstn_all. cbn [firstn].
  rewrite app_nil_r.
  rewrite skipn_app, skipn_all2 by lia.
  replace (length pre + length query - length pre)%nat with (length m)
    by lia.
  rewrite skipn_app, skipn_all, Nat.sub_diag. cbn [skipn app].
  unfold Tk.insert, Tk.offset, Tk.whole. cbn [Tk.chars].
  rewrite !length_app. cbn [length].
  rewrite !Nat.min_l by lia.
  rewrite firstn_app, Nat.sub_diag, firstn_all. cbn [firstn].
  rewrite app_nil_r.
  rewrite skipn_app, skipn_all, Nat.sub_diag. cbn [skipn app].
  reflexivity.
Qed.

(** *** The loop *)

Lemma loop_finishes n :
  (length replace_with < length query)%nat ->
  forall fe count last,
    (length (Tk.chars fe) <= n)%nat ->
    exists fe' k last',
      replace_all_loop fold query replace_with (S n) fe count last
      = Some (fe', (count + k)%nat, last')
      /\ text_search fold fe' query = None
      /\ (length (Tk.chars fe')
          + k * (length query - length replace_with)
          = length (Tk.chars fe))%nat.
Proof.
  intros Hlt. induction n as [|n IH]; intros fe count last Hn.
  - cbn [replace_all_loop].
    destruct (text_search fold fe query) as [a|] eqn:E.
    + exfalso. apply search_some in E as (pre & m & post & E & _ & Hl).
      rewrite E, !length_app in Hn. lia.
    + exists fe, 0%nat, last. rewrite Nat.add_0_r. auto.
  - cbn [replace_all_loop].
    destruct (text_search fold fe query) as [a|] eqn:E.
    + apply search_some in E as (pre & m & post & E & -> & Hl).
      destruct fe as [chars]. cbn [Tk.chars] in *. subst chars.
      rewrite (replace_round pre m post Hl).
      rewrite !length_app in Hn.
      destruct (IH (Tk.Text (pre ++ replace_with ++ post)) (S count)
                  (Tk.At (length pre + length replace_with)))
        as (fe' & k & last' & Hloop & Hnone & Hlen).
      { cbn [Tk.chars]. rewrite !length_app. lia. }
      exists fe', (S k), last'.
      replace (count + S k)%nat with (S count + k)%nat by lia.
      split; [exact Hloop|]. split; [exact Hnone|].
      cbn [Tk.chars] in Hlen. rewrite !length_app in Hlen.
      rewrite !length_app. nia.
    + exists fe, 0%nat, last. rewrite Nat.add_0_r. auto.
Qed.

Lemma loop_never_finishes j :
  search_fwd fold query replace_with 0 = Some j ->
  forall fuel fe count last,
    text_search fold fe query <> None ->
    replace_all_loop fold query replace_with fuel fe count last = None.
Proof.
  intros Hj. induction fuel as [|fuel IH]; intros fe count last Hs;
    [reflexivity|].
  cbn [replace_all_loop].
  destruct (text_search fold fe query) as [a|] eqn:E; [|contradiction].
  apply search_some in E as (pre & m & post & E & -> & Hl).
  destruct fe as [chars]. cbn [Tk.chars] in *. subst chars.
  rewrite (replace_round pre m post Hl). apply IH.
  apply search_fwd_some in Hj as (rp & rr & Er & _ & Hm).
  unfold text_search, Tk.whole. cbn [Tk.chars]. rewrite Er.
  replace ((pre ++ (rp ++ rr) ++ post) ++ [10])
    with ((pre ++ rp) ++ rr ++ post ++ [10])
    by (rewrite <- !app_assoc; reflexivity).
  apply search_fwd_finds.
  - destruct rr; [|discriminate].
    destruct query; [contradiction|discriminate].
  - apply matches_here_app. exact Hm.
Qed.

End Search.

(** X23: Replace All with a replacement shorter than the query, the query
    on one line, always leaves its loop, within as many rounds as the
    editor has characters; no occurrence of the query is left, and every
    replacement counted made the text shorter by the difference of the
    two lengths. *)
Theorem replace_all_shorter_finishes fold e query replace_with :
  query <> [] -> one_line fold query ->
  (length replace_with < length query)%nat ->
  exists e' count,
    replace_all_text fold e query replace_with true
      (S (length (Tk.chars (Editor.file_editor e))))
    = Some (e', Some count)
    /\ text_search fold (Editor.file_editor e') query = None
    /\ (length (Tk.chars (Editor.file_editor e'))
        + count * (length query - length replace_with)
        = length (Tk.chars (Editor.file_editor e)))%nat.
Proof.
  intros Hq Hline Hlt.
  destruct (loop_finishes fold query replace_with Hq Hline
              (length (Tk.chars (Editor.file_editor e))) Hlt
              (Editor.file_editor e) 0 Tk.Start (Nat.le_refl _))
    as (fe' & k & last' & Hloop & Hnone & Hlen).
  unfold replace_all_text. destruct query as [|c q]; [contradiction|].
  cbn [negb]. rewrite Hloop. eexists _, _. split; [reflexivity|].
  cbn [Editor.file_editor]. auto.
Qed.

(** X24: when the replacement itself contains the query (ignoring case)
    and the editor holds at least one occurrence, Replace All never leaves
    its loop: however many rounds are allowed, the search from the start
    of the text finds an occurrence again. *)
Theorem replace_all_with_query_inside_never_ends
    fold e query replace_with j a :
  query <> [] -> one_line fold query ->
  search_fwd fold query replace_with 0 = Some j ->
  text_search fold (Editor.file_editor e) query = Some a ->
  forall fuel, replace_all_text fold e query replace_with true fuel = None.
Proof.
  intros Hq Hline Hj Ha fuel.
  unfold replace_all_text. destruct query as [|c q]; [contradiction|].
  cbn [negb].
  rewrite (loop_never_finishes fold (c :: q) replace_with Hq Hline j Hj);
    [reflexivity|].
  rewrite Ha. discriminate.
Qed.

Lemma replace_all_shorter_finishes_witness :
  exists e' count,
    replace_all_text ascii_lower (holding "Foo fOO") (lit "oo") (lit "0")
      true (S (length (Tk.chars (Editor.file_editor (holding "Foo fOO")))))
    = Some (e', Some count)
    /\ text_search ascii_lower (Editor.file_editor e') (lit "oo") = None
    /\ (length (Tk.chars (Editor.file_editor e'))
        + count * (length (lit "oo") - length (lit "0"))
        = length (Tk.chars (Editor.file_editor (holding "Foo fOO"))))%nat.
Proof.
  apply (replace_all_shorter_finishes ascii_lower (holding "Foo fOO")
           (lit "oo") (lit "0")).
  - discriminate.
  - repeat constructor; discriminate.
  - vm_compute. reflexivity.
Defined.

Lemma replace_all_with_query_inside_never_ends_witness :
  replace_all_text ascii_lower (holding "a b") (lit "a") (lit "Aa")
    true 1000 = None.
Proof.
  apply (fun Hq Hline Hj Ha =>
           replace_all_with_query_inside_never_ends ascii_lower
             (holding "a b") (lit "a") (lit "Aa") 0 0 Hq Hline Hj Ha 1000).
  - discriminate.
  - repeat constructor; discriminate.
  - reflexivity.
  - reflexivity.
Defined.

End ReplaceMore.
